(** * pen-test-app: the scan orchestration engine of [backend/main.py]

    A shallow embedding of the scan coordinator ([start_scan],
    [run_all_tests_for_scan]), the result tracker ([run_single_test]), the
    HTTPS-enforcement probe and the catalog seeding
    ([populate_test_definitions]) over the data model of [backend/models.py].

    The persistent store is a record of four tables; every table is the list
    of its rows in insertion order.  Code that runs inside
    [async with session.begin()] is written in a small state-and-exception
    monad and wrapped in [transaction], which keeps the working copy when the
    body returns and restores the store when it raises.  What the outside
    world does (the clock, [requests.get], [random.choice], a store that
    refuses a statement or a commit) is read from explicit environment
    records, so that every definition computes.

    A fault of the store is part of the environment wherever the source
    guards the store access with [try]/[except]: the two transactions of
    [run_single_test], the id fetch of [run_all_tests_for_scan] and the
    transaction of [start_scan]; and for the transaction that marks the scan
    after a refused fetch, which runs unguarded on the store that has just
    failed: its exception leaves [run_all_tests_for_scan].  The other
    transactions the source does not guard (the final check, the seeding)
    are taken to go through; what is proved of them is about a store that
    takes them.  Exceptions are
    instances of [Exception]; what derives from [BaseException] only is
    outside every [except Exception] of the source and outside the model. *)

From Stdlib Require Import List String Ascii ZArith Arith Bool Lia.
From Stdlib Require Import DecimalString Sorted Permutation.
Import ListNotations.
Open Scope string_scope.
Open Scope list_scope.
Open Scope nat_scope.

Set Implicit Arguments.

(** ** models.py *)

Module models.

(** [class TestStatusEnum(enum.Enum)] *)
Inductive TestStatusEnum : Type :=
| PENDING
| IN_PROGRESS
| COMPLETED
| FAILED
| ERROR.

(** [class TestResultEnum(enum.Enum)] *)
Inductive TestResultEnum : Type :=
| NOT_RUN
| PASSED
| VULNERABLE
| INFO.

(** The [.value] of each member, as it is serialised to callers. *)
Definition status_value (s : TestStatusEnum) : string :=
  match s with
  | PENDING => "pending"
  | IN_PROGRESS => "in_progress"
  | COMPLETED => "completed"
  | FAILED => "failed"
  | ERROR => "error"
  end.

Definition result_value (r : TestResultEnum) : string :=
  match r with
  | NOT_RUN => "not_run"
  | PASSED => "passed"
  | VULNERABLE => "vulnerable"
  | INFO => "info"
  end.

Definition status_eqb (a b : TestStatusEnum) : bool :=
  match a, b with
  | PENDING, PENDING | IN_PROGRESS, IN_PROGRESS | COMPLETED, COMPLETED
  | FAILED, FAILED | ERROR, ERROR => true
  | _, _ => false
  end.

(** A point in time, as [datetime.datetime.now(datetime.timezone.utc)]
    returns it; only ever stored, never computed with. *)
Definition Time : Type := Z.

(** [class Website(Base)] *)
Record Website : Type := mkWebsite {
  w_id : nat;
  w_url : string;
  w_created_at : Time;
  w_last_scan_at : option Time
}.

(** [class TestDefinition(Base)] *)
Record TestDefinition : Type := mkTestDefinition {
  td_id : nat;
  td_name : string;
  td_description : option string
}.

(** [class Scan(Base)] *)
Record Scan : Type := mkScan {
  scan_id : nat;
  scan_website_id : nat;
  scan_status : TestStatusEnum;
  scan_created_at : Time;
  scan_completed_at : option Time
}.

(** [class ScanResult(Base)] *)
Record ScanResult : Type := mkScanResult {
  sr_id : nat;
  sr_scan_id : nat;
  sr_test_definition_id : nat;
  sr_status : TestStatusEnum;
  sr_result : TestResultEnum;
  sr_summary : option string;
  sr_details : option string;
  sr_recommendations : option string;
  sr_started_at : option Time;
  sr_completed_at : option Time
}.

End models.

Import models.

(** ** Python exceptions

    The exceptions the code distinguishes: the [requests.exceptions]
    hierarchy (four of its classes are named in [except] clauses),
    FastAPI's [HTTPException], the errors of the store, and every other
    [Exception]. *)

Inductive RequestsClass : Type :=
| RequestException
| HTTPError
| ConnectionError
| ProxyError
| SSLError
| Timeout
| ConnectTimeout
| ReadTimeout
| TooManyRedirects
| MissingSchema
| InvalidSchema
| InvalidURL.

(** [issubclass c base] in [requests.exceptions]: [SSLError] and [ProxyError]
    derive from [ConnectionError], [ConnectTimeout] from both
    [ConnectionError] and [Timeout], [ReadTimeout] from [Timeout], and every
    class from [RequestException]. *)
Definition requests_subclass (c base : RequestsClass) : bool :=
  match base with
  | RequestException => true
  | ConnectionError =>
      match c with
      | ConnectionError | ProxyError | SSLError | ConnectTimeout => true
      | _ => false
      end
  | Timeout =>
      match c with
      | Timeout | ConnectTimeout | ReadTimeout => true
      | _ => false
      end
  | HTTPError => match c with HTTPError => true | _ => false end
  | ProxyError => match c with ProxyError => true | _ => false end
  | SSLError => match c with SSLError => true | _ => false end
  | ConnectTimeout => match c with ConnectTimeout => true | _ => false end
  | ReadTimeout => match c with ReadTimeout => true | _ => false end
  | TooManyRedirects => match c with TooManyRedirects => true | _ => false end
  | MissingSchema => match c with MissingSchema => true | _ => false end
  | InvalidSchema => match c with InvalidSchema => true | _ => false end
  | InvalidURL => match c with InvalidURL => true | _ => false end
  end.

Inductive PyException : Type :=
| RequestsExc (c : RequestsClass) (msg : string)
| HTTPException (status_code : Z) (detail : string)
| SQLAlchemyError (msg : string)
| OtherException (msg : string).

(** [isinstance(e, requests.exceptions.<base>)] *)
Definition isinstance_requests (base : RequestsClass) (e : PyException) : bool :=
  match e with
  | RequestsExc c _ => requests_subclass c base
  | _ => false
  end.

Definition isinstance_HTTPException (e : PyException) : bool :=
  match e with
  | HTTPException _ _ => true
  | _ => false
  end.

(** [str(e)] *)
Definition exc_str (e : PyException) : string :=
  match e with
  | RequestsExc _ msg => msg
  | HTTPException _ detail => detail
  | SQLAlchemyError msg => msg
  | OtherException msg => msg
  end.

(** ** A state-and-exception monad for Python blocks *)

Inductive PyResult (A : Type) : Type :=
| Returned (a : A)
| Raised (e : PyException).

Arguments Returned {A} a.
Arguments Raised {A} e.

Definition M (S A : Type) : Type := S -> PyResult A * S.

Definition ret {S A : Type} (a : A) : M S A := fun s => (Returned a, s).

Definition bind {S A B : Type} (c : M S A) (k : A -> M S B) : M S B :=
  fun s =>
    match c s with
    | (Returned a, s') => k a s'
    | (Raised e, s') => (Raised e, s')
    end.

Definition raise {S A : Type} (e : PyException) : M S A := fun s => (Raised e, s).

Definition get {S : Type} : M S S := fun s => (Returned s, s).

Definition modify {S : Type} (f : S -> S) : M S unit := fun s => (Returned tt, f s).

Declare Scope py_scope.
Delimit Scope py_scope with py.
Notation "x <- c ;; k" := (bind c (fun x => k))
  (at level 61, c at next level, right associativity) : py_scope.
Notation "c ;; k" := (bind c (fun _ => k))
  (at level 61, right associativity) : py_scope.
Open Scope py_scope.

(** An outcome decided by the environment, brought into the block. *)
Definition lift {S A : Type} (r : PyResult A) : M S A := fun s => (r, s).

(** [try: body / except <cls> as e: handler ...]: the first clause whose
    class test accepts the exception runs; an exception no clause accepts
    keeps propagating.  The state is the one reached when the exception
    was raised: assignments made before it stay. *)
Fixpoint dispatch {S A : Type}
    (handlers : list ((PyException -> bool) * (PyException -> M S A)))
    (e : PyException) : M S A :=
  match handlers with
  | [] => raise e
  | (accepts, handler) :: rest =>
      if accepts e then handler e else dispatch rest e
  end.

Definition try_except {S A : Type} (body : M S A)
    (handlers : list ((PyException -> bool) * (PyException -> M S A))) : M S A :=
  fun s =>
    match body s with
    | (Returned a, s') => (Returned a, s')
    | (Raised e, s') => dispatch handlers e s'
    end.

(** [except Exception]: accepts every exception of the model. *)
Definition Exception_ (e : PyException) : bool := true.

(** [async with session.begin(): body]: commit when the body returns, roll
    back to the state at entry when it raises, and let the exception go on. *)
Definition transaction {S A : Type} (body : M S A) : M S A :=
  fun s =>
    match body s with
    | (Returned a, s') => (Returned a, s')
    | (Raised e, _) => (Raised e, s)
    end.

(** ** The persistent store *)

Record Database : Type := mkDatabase {
  websites : list Website;
  test_definitions : list TestDefinition;
  scans : list Scan;
  scan_results : list ScanResult
}.

Definition empty_database : Database :=
  {| websites := []; test_definitions := []; scans := []; scan_results := [] |}.

Definition set_websites (ws : list Website) (db : Database) : Database :=
  {| websites := ws; test_definitions := test_definitions db;
     scans := scans db; scan_results := scan_results db |}.

Definition set_test_definitions (tds : list TestDefinition) (db : Database) : Database :=
  {| websites := websites db; test_definitions := tds;
     scans := scans db; scan_results := scan_results db |}.

Definition set_scans (ss : list Scan) (db : Database) : Database :=
  {| websites := websites db; test_definitions := test_definitions db;
     scans := ss; scan_results := scan_results db |}.

Definition set_scan_results (rs : list ScanResult) (db : Database) : Database :=
  {| websites := websites db; test_definitions := test_definitions db;
     scans := scans db; scan_results := rs |}.

(** The integer primary key of a new row: one more than the largest key of
    the table. *)
Definition next_id (ids : list nat) : nat := S (list_max ids).

(** [.scalars().first()] of a [select ... where]: the first matching row. *)
Definition first_where {A : Type} (p : A -> bool) (rows : list A) : option A :=
  find p rows.

(** Attribute assignments on the object a query returned reach its row when
    the transaction commits: the first row the predicate selects is
    rewritten, the others are left alone. *)
Fixpoint update_first {A : Type} (p : A -> bool) (f : A -> A) (rows : list A) : list A :=
  match rows with
  | [] => []
  | r :: rest => if p r then f r :: rest else r :: update_first p f rest
  end.

(** What the store does to one transaction: nothing, or an exception at the
    statement it executes, or an exception at the commit. *)
Inductive TxFault : Type :=
| NoFault
| ExecuteRaises (msg : string)
| CommitRaises (msg : string).

(** [await session.execute(stmt)] *)
Definition execute {A : Type} (fault : TxFault) (stmt : Database -> A) : M Database A :=
  match fault with
  | ExecuteRaises msg => raise (SQLAlchemyError msg)
  | _ => db <- get ;; ret (stmt db)
  end.

(** the commit at the end of [async with session.begin()] *)
Definition commit (fault : TxFault) : M Database unit :=
  match fault with
  | CommitRaises msg => raise (SQLAlchemyError msg)
  | _ => ret tt
  end.

(** Queries of [main.py]. *)
Definition scan_result_by_id (scan_result_id : nat) (db : Database) : option ScanResult :=
  first_where (fun r => sr_id r =? scan_result_id) (scan_results db).

Definition test_definition_by_id (test_definition_id : nat) (db : Database)
  : option TestDefinition :=
  first_where (fun t => td_id t =? test_definition_id) (test_definitions db).

Definition test_definition_by_name (name : string) (db : Database) : option TestDefinition :=
  first_where (fun t => String.eqb (td_name t) name) (test_definitions db).

Definition scan_by_id (id : nat) (db : Database) : option Scan :=
  first_where (fun s => scan_id s =? id) (scans db).

Definition website_by_url (url : string) (db : Database) : option Website :=
  first_where (fun w => String.eqb (w_url w) url) (websites db).

(** [select(models.ScanResult.id).where(models.ScanResult.scan_id == scan_id)] *)
Definition scan_result_ids_of (id : nat) (db : Database) : list nat :=
  map sr_id (filter (fun r => sr_scan_id r =? id) (scan_results db)).

(** the relationship [Scan.results], as [selectinload] fills it *)
Definition results_of (id : nat) (db : Database) : list ScanResult :=
  filter (fun r => sr_scan_id r =? id) (scan_results db).

Definition update_scan_result (id : nat) (f : ScanResult -> ScanResult) (db : Database)
  : Database :=
  set_scan_results (update_first (fun r => sr_id r =? id) f (scan_results db)) db.

Definition update_scan (id : nat) (f : Scan -> Scan) (db : Database) : Database :=
  set_scans (update_first (fun s => scan_id s =? id) f (scans db)) db.

Definition update_website (id : nat) (f : Website -> Website) (db : Database) : Database :=
  set_websites (update_first (fun w => w_id w =? id) f (websites db)) db.

(** ** What the probe sees of the outside world *)

(** [urllib.parse.urlparse(url).scheme], as the standard library computes
    it: leading C0 controls and spaces are stripped, tab, CR and LF removed,
    and the text before the first colon is the scheme, in lower case, when
    it is not empty, starts with an ASCII letter and consists of letters,
    digits, [+], [-] and [.]; otherwise the scheme is empty.  This is the
    scheme of a URL that [urlparse] accepts, as the final URL of a response
    is, which [requests] has parsed before: on an unbalanced bracket in the
    host [urlparse] raises [ValueError] and computes no scheme. *)
Definition is_c0_or_space (c : ascii) : bool := nat_of_ascii c <=? 32.

Definition is_unsafe_url_byte (c : ascii) : bool :=
  let n := nat_of_ascii c in (n =? 9) || (n =? 10) || (n =? 13).

Definition is_ascii_upper (c : ascii) : bool :=
  let n := nat_of_ascii c in (65 <=? n) && (n <=? 90).

Definition is_ascii_lower (c : ascii) : bool :=
  let n := nat_of_ascii c in (97 <=? n) && (n <=? 122).

Definition is_ascii_digit (c : ascii) : bool :=
  let n := nat_of_ascii c in (48 <=? n) && (n <=? 57).

Definition is_ascii_alpha (c : ascii) : bool := is_ascii_upper c || is_ascii_lower c.

Definition is_scheme_char (c : ascii) : bool :=
  let n := nat_of_ascii c in
  is_ascii_alpha c || is_ascii_digit c || (n =? 43) || (n =? 45) || (n =? 46).

Definition ascii_lower (c : ascii) : ascii :=
  if is_ascii_upper c then ascii_of_nat (nat_of_ascii c + 32) else c.

Fixpoint lstrip_c0 (s : string) : string :=
  match s with
  | EmptyString => EmptyString
  | String c rest => if is_c0_or_space c then lstrip_c0 rest else s
  end.

Fixpoint remove_unsafe (s : string) : string :=
  match s with
  | EmptyString => EmptyString
  | String c rest =>
      if is_unsafe_url_byte c then remove_unsafe rest else String c (remove_unsafe rest)
  end.

(** [url[:url.find(':')]], when there is a colon *)
Fixpoint before_colon (s : string) : option string :=
  match s with
  | EmptyString => None
  | String c rest =>
      if nat_of_ascii c =? 58 then Some EmptyString
      else option_map (String c) (before_colon rest)
  end.

Fixpoint string_forallb (p : ascii -> bool) (s : string) : bool :=
  match s with
  | EmptyString => true
  | String c rest => p c && string_forallb p rest
  end.

Fixpoint string_map (f : ascii -> ascii) (s : string) : string :=
  match s with
  | EmptyString => EmptyString
  | String c rest => String (f c) (string_map f rest)
  end.

Definition urlparse_scheme (url : string) : string :=
  match before_colon (remove_unsafe (lstrip_c0 url)) with
  | Some (String c rest) =>
      if is_ascii_alpha c && string_forallb is_scheme_char (String c rest)
      then string_map ascii_lower (String c rest)
      else EmptyString
  | _ => EmptyString
  end.

(** An f-string: its pieces, joined. *)
Definition fstr (pieces : list string) : string := String.concat "" pieces.

(** What the code reads of a [requests.Response]. *)
Record Response : Type := mkResponse {
  resp_status_code : Z;
  resp_reason : string;
  resp_url : string
}.

(** The environment of one unit of work ([run_single_test] on one
    ScanResult): the store's faults for its two transactions, the two clock
    readings, what [requests.get] does for the HTTPS probe, and what
    [asyncio.sleep] and [random.choice] do for a simulated one. *)
Record UnitEnv : Type := mkUnitEnv {
  begin_fault : TxFault;
  started_now : Time;
  requests_get : PyResult Response;
  asyncio_sleep : PyResult unit;
  random_index : nat;
  finish_fault : TxFault;
  completed_now : Time
}.

(** A 4xx or 5xx status code. *)
Definition http_error_status (response : Response) : bool :=
  ((400 <=? resp_status_code response) && (resp_status_code response <? 600))%Z.

(** [str(n)] of an integer *)
Definition str_int (n : Z) : string := NilZero.string_of_int (Z.to_int n).

(** The message of the [HTTPError] of a response with a 4xx or 5xx status,
    as [requests] builds it. *)
Definition http_error_msg (response : Response) : string :=
  fstr [str_int (resp_status_code response);
        (if (resp_status_code response <? 500)%Z
         then " Client Error: " else " Server Error: ");
        resp_reason response; " for url: "; resp_url response].

(** [response.raise_for_status()]: an [HTTPError] for a 4xx or 5xx status. *)
Definition raise_for_status {S : Type} (response : Response) : M S unit :=
  if http_error_status response
  then raise (RequestsExc HTTPError (http_error_msg response))
  else ret tt.

(** [random.choice(seq)] on a non-empty sequence *)
Definition random_choice {A : Type} (index : nat) (first : A) (others : list A) : A :=
  nth (index mod (S (List.length others))) (first :: others) first.

(** ** run_single_test *)

(** The local variables of step 2, which step 3 writes to the row. *)
Record ProbeVars : Type := mkProbeVars {
  outcome : TestResultEnum;
  summary_text : string;
  details_text : option string;
  recommendations_text : option string;
  final_status : TestStatusEnum
}.

Definition initial_vars (test_name : string) : ProbeVars :=
  {| outcome := NOT_RUN;
     summary_text := fstr [test_name; " did not complete."];
     details_text := None;
     recommendations_text := None;
     final_status := ERROR |}.

Definition set_final_status (st : TestStatusEnum) (v : ProbeVars) : ProbeVars :=
  {| outcome := outcome v; summary_text := summary_text v;
     details_text := details_text v; recommendations_text := recommendations_text v;
     final_status := st |}.

(** [outcome = o; summary_text = s; details_text = d; recommendations_text = r] *)
Definition set_report (o : TestResultEnum) (s d r : string) (v : ProbeVars) : ProbeVars :=
  {| outcome := o; summary_text := s; details_text := Some d;
     recommendations_text := Some r; final_status := final_status v |}.

Definition ssl_test_name : string := "Cryptography and SSL/TLS Testing".

(** The body of [if test_name == "Cryptography and SSL/TLS Testing":], with
    its four [except] clauses in the order of the source. *)
Definition https_probe (url : string) (env : UnitEnv) : M ProbeVars unit :=
  try_except
    (response <- lift (requests_get env) ;;
     raise_for_status response ;;
     let final_url := resp_url response in
     (if String.eqb (urlparse_scheme final_url) "https" then
        modify (set_report PASSED
          "Website uses HTTPS."
          (fstr ["The final URL ("; final_url; ") is served over HTTPS."])
          "Ensure HTTPS is enforced (e.g., via HSTS) and uses modern TLS protocols/ciphers (requires deeper scan).")
      else
        modify (set_report VULNERABLE
          "Website does not enforce HTTPS."
          (fstr ["The final URL ("; final_url; ") is served over HTTP, which is insecure."])
          "Migrate the website to HTTPS and configure redirection from HTTP to HTTPS. Implement HSTS.")) ;;
     modify (set_final_status COMPLETED))
    [ (isinstance_requests SSLError, fun ssl_err =>
         modify (set_report VULNERABLE
           "SSL/TLS Certificate Error."
           (fstr ["An SSL error occurred: "; exc_str ssl_err;
                  ". This could indicate an invalid, expired, self-signed, or misconfigured certificate."])
           "Review the SSL/TLS certificate configuration on the server. Ensure it's valid, trusted, covers the correct domain(s), and is correctly installed with the full chain.") ;;
         modify (set_final_status COMPLETED));
      (isinstance_requests Timeout, fun _ =>
         modify (set_report INFO
           "Request Timed Out."
           (fstr ["The request to "; url; " timed out after 10 seconds."])
           "Check server availability and network connectivity. The server might be slow, unresponsive, or firewalled.") ;;
         modify (set_final_status COMPLETED));
      (isinstance_requests ConnectionError, fun conn_err =>
         modify (set_report INFO
           "Connection Error."
           (fstr ["Could not connect to "; url; ". Error: "; exc_str conn_err])
           "Verify the domain name resolves correctly and the server is reachable on the expected port (80/443).") ;;
         modify (set_final_status COMPLETED));
      (isinstance_requests RequestException, fun req_err =>
         modify (set_report INFO
           "Request Error."
           (fstr ["An error occurred during the request: "; exc_str req_err])
           "Check the URL for correctness and ensure the website is accessible. Review server logs if possible.") ;;
         modify (set_final_status COMPLETED)) ].

(** The [else:] branch: every other test is simulated. *)
Definition simulated_probe (test_name url : string) (env : UnitEnv) : M ProbeVars unit :=
  lift (asyncio_sleep env) ;;
  modify (set_report (random_choice (random_index env) PASSED [VULNERABLE; INFO])
    (fstr [test_name; " completed (simulated)."])
    (fstr ["Simulated details for "; test_name; " on "; url; "."])
    (fstr ["Simulated recommendations for "; test_name; "."])) ;;
  modify (set_final_status COMPLETED).

(** The probe of a test, chosen by its name. *)
Definition probe (test_name url : string) (env : UnitEnv) : M ProbeVars unit :=
  if String.eqb test_name ssl_test_name
  then https_probe url env
  else simulated_probe test_name url env.

(** Step 2, "Execute the Actual Test Logic": the outer [try] and its
    [except Exception as e], which assigns the status, the outcome, the
    summary and the details, and leaves the recommendations as they are. *)
Definition test_logic (test_name url : string) (env : UnitEnv) : M ProbeVars unit :=
  try_except
    (probe test_name url env)
    [ (Exception_, fun e =>
         modify (fun v =>
           {| outcome := NOT_RUN;
              summary_text :=
                fstr ["An unexpected error occurred during the "; test_name; " test execution."];
              details_text := Some (fstr ["Error details: "; exc_str e]);
              recommendations_text := recommendations_text v;
              final_status := ERROR |})) ].

(** The local variables as step 2 leaves them, and the two of them the
    decision table is about. *)
Definition probe_report (test_name url : string) (env : UnitEnv) : ProbeVars :=
  snd (test_logic test_name url env (initial_vars test_name)).

Definition verdict (v : ProbeVars) : TestResultEnum * TestStatusEnum :=
  (outcome v, final_status v).

(** Run a block over local variables inside a block over the store. *)
Definition with_locals {S L A : Type} (init : L) (c : M L A) : M S (A * L) :=
  fun s =>
    match c init with
    | (Returned a, l) => (Returned (a, l), s)
    | (Raised e, _) => (Raised e, s)
    end.

(** [scan_result.status = IN_PROGRESS; scan_result.started_at = now] *)
Definition set_in_progress (now : Time) (r : ScanResult) : ScanResult :=
  {| sr_id := sr_id r; sr_scan_id := sr_scan_id r;
     sr_test_definition_id := sr_test_definition_id r;
     sr_status := IN_PROGRESS;
     sr_result := sr_result r; sr_summary := sr_summary r;
     sr_details := sr_details r;
     sr_recommendations := sr_recommendations r;
     sr_started_at := Some now;
     sr_completed_at := sr_completed_at r |}.

(** The six assignments of step 3 on the reloaded row. *)
Definition set_final_results (v : ProbeVars) (now : Time) (r : ScanResult) : ScanResult :=
  {| sr_id := sr_id r; sr_scan_id := sr_scan_id r;
     sr_test_definition_id := sr_test_definition_id r;
     sr_status := final_status v;
     sr_result := outcome v;
     sr_summary := Some (summary_text v);
     sr_details := details_text v;
     sr_recommendations := recommendations_text v;
     sr_started_at := sr_started_at r;
     sr_completed_at := Some now |}.

(** Step 1, "Fetch Test Details and Mark as In Progress".  The result is the
    test name when the row was marked, and [None] on each of the two
    [return]s that end the unit here. *)
Definition mark_in_progress (scan_result_id : nat) (env : UnitEnv)
  : M Database (option string) :=
  try_except
    (transaction
       (scan_result <- execute (begin_fault env) (scan_result_by_id scan_result_id) ;;
        match scan_result with
        | None => commit (begin_fault env) ;; ret None
        | Some sr =>
            db <- get ;;
            match test_definition_by_id (sr_test_definition_id sr) db with
            | None => commit (begin_fault env) ;; ret None
            | Some test_definition =>
                modify (update_scan_result scan_result_id
                          (set_in_progress (started_now env))) ;;
                commit (begin_fault env) ;;
                ret (Some (td_name test_definition))
            end
        end))
    [ (Exception_, fun _ => ret None) ].

(** Step 3, "Update Database with Final Results". *)
Definition write_final_results (scan_result_id : nat) (v : ProbeVars) (env : UnitEnv)
  : M Database unit :=
  try_except
    (transaction
       (scan_result_update <- execute (finish_fault env) (scan_result_by_id scan_result_id) ;;
        match scan_result_update with
        | Some _ =>
            modify (update_scan_result scan_result_id
                      (set_final_results v (completed_now env)))
        | None => ret tt
        end ;;
        commit (finish_fault env)))
    [ (Exception_, fun _ => ret tt) ].

(** Steps 2 and 3 together: what the unit does once its row is marked. *)
Definition execute_and_record (scan_result_id : nat) (url test_name : string)
    (env : UnitEnv) : M Database unit :=
  r <- with_locals (initial_vars test_name) (test_logic test_name url env) ;;
  write_final_results scan_result_id (snd r) env.

Definition run_single_test (scan_result_id : nat) (url : string) (env : UnitEnv)
  : M Database unit :=
  started <- mark_in_progress scan_result_id env ;;
  match started with
  | None => ret tt
  | Some test_name => execute_and_record scan_result_id url test_name env
  end.

(** ** run_all_tests_for_scan *)

(** [for x in xs: body] *)
Fixpoint for_each {S A : Type} (xs : list A) (body : A -> M S unit) : M S unit :=
  match xs with
  | [] => ret tt
  | x :: rest => body x ;; for_each rest body
  end.

(** One task created by [asyncio.create_task(run_single_test(sr_id, url))].
    A unit suspends at its store transactions, so it advances in two moves:
    step 1, then steps 2 and 3. *)
Inductive UnitPhase : Type :=
| NotStarted
| Marked (test_name : string)
| Finished.

Record UnitTask : Type := mkUnitTask {
  unit_id : nat;
  unit_env : UnitEnv;
  unit_phase : UnitPhase
}.

Definition set_phase (p : UnitPhase) (t : UnitTask) : UnitTask :=
  {| unit_id := unit_id t; unit_env := unit_env t; unit_phase := p |}.

Definition unit_step (url : string) (t : UnitTask) : M Database UnitTask :=
  match unit_phase t with
  | NotStarted =>
      started <- mark_in_progress (unit_id t) (unit_env t) ;;
      match started with
      | None => ret (set_phase Finished t)
      | Some test_name => ret (set_phase (Marked test_name) t)
      end
  | Marked test_name =>
      execute_and_record (unit_id t) url test_name (unit_env t) ;;
      ret (set_phase Finished t)
  | Finished => ret t
  end.

(** The event loop resumes the task at position [i]. *)
Fixpoint step_nth (url : string) (i : nat) (tasks : list UnitTask)
  : M Database (list UnitTask) :=
  match tasks with
  | [] => ret []
  | t :: rest =>
      match i with
      | O => t' <- unit_step url t ;; ret (t' :: rest)
      | S j => rest' <- step_nth url j rest ;; ret (t :: rest')
      end
  end.

Fixpoint run_schedule (url : string) (schedule : list nat) (tasks : list UnitTask)
  : M Database (list UnitTask) :=
  match schedule with
  | [] => ret tasks
  | i :: later => tasks' <- step_nth url i tasks ;; run_schedule url later tasks'
  end.

Fixpoint run_to_completion (url : string) (tasks : list UnitTask)
  : M Database (list UnitTask) :=
  match tasks with
  | [] => ret []
  | t :: rest =>
      t1 <- unit_step url t ;;
      t2 <- unit_step url t1 ;;
      rest' <- run_to_completion url rest ;;
      ret (t2 :: rest')
  end.

(** [await asyncio.gather] over the tasks: the tasks are resumed in the order the
    schedule gives, whatever it is, and the join waits for those that are
    still unfinished when the schedule is used up.  An exception leaving a
    task would leave the gather at once. *)
Definition gather (url : string) (schedule : list nat) (tasks : list UnitTask)
  : M Database (list UnitTask) :=
  tasks' <- run_schedule url schedule tasks ;;
  run_to_completion url tasks'.

(** The loop over [scan.results] of the final check, with its two [break]s;
    the pair is ([final_scan_status], [all_tests_accounted_for]). *)
Fixpoint check_results (results : list ScanResult)
    (final_scan_status : TestStatusEnum) (all_tests_accounted_for : bool)
  : TestStatusEnum * bool :=
  match results with
  | [] => (final_scan_status, all_tests_accounted_for)
  | res :: rest =>
      if status_eqb (sr_status res) ERROR then (ERROR, all_tests_accounted_for)
      else if negb (status_eqb (sr_status res) COMPLETED) then (ERROR, false)
      else check_results rest final_scan_status all_tests_accounted_for
  end.

(** The value assigned to [scan.status] by the final check, from
    [scan.results] and [len(scan_result_ids)]. *)
Definition overall_status (results : list ScanResult) (launched : nat) : TestStatusEnum :=
  let all_tests_accounted_for := List.length results =? launched in
  let '(final_scan_status, all_tests_accounted_for) :=
    check_results results COMPLETED all_tests_accounted_for in
  if negb all_tests_accounted_for then ERROR else final_scan_status.

Definition set_scan_outcome (st : TestStatusEnum) (now : Time) (s : Scan) : Scan :=
  {| scan_id := scan_id s; scan_website_id := scan_website_id s;
     scan_status := st; scan_created_at := scan_created_at s;
     scan_completed_at := Some now |}.

(** "Final check and update of the main Scan status" *)
Definition final_check (id : nat) (launched : nat) (now : Time) : M Database unit :=
  transaction
    (scan <- execute NoFault (scan_by_id id) ;;
     match scan with
     | Some _ =>
         db <- get ;;
         modify (update_scan id
           (set_scan_outcome (overall_status (results_of id db) launched) now))
     | None => ret tt
     end).

(** The [except] branch of the id fetch: a transaction of its own, in no
    [try], on the store that has just refused the fetch.  What this store
    does to it is [fault]: when it refuses the statement or the commit, the
    transaction is rolled back and the exception goes on. *)
Definition mark_scan_error (id : nat) (now : Time) (fault : TxFault) : M Database unit :=
  transaction
    (scan_err <- execute fault (scan_by_id id) ;;
     match scan_err with
     | Some _ => modify (update_scan id (set_scan_outcome ERROR now))
     | None => ret tt
     end ;;
     commit fault).

(** The [if not scan_result_ids:] branch. *)
Definition mark_scan_without_tests (id : nat) (now : Time) : M Database unit :=
  transaction
    (scan <- execute NoFault (scan_by_id id) ;;
     match scan with
     | Some s =>
         if status_eqb (scan_status s) PENDING
         then modify (update_scan id (set_scan_outcome COMPLETED now))
         else ret tt
     | None => ret tt
     end).

(** An id fetch that raises: the message of the exception, and what the
    store does next to the transaction that marks the scan. *)
Record FetchFailure : Type := mkFetchFailure {
  fetch_message : string;
  mark_error_fault : TxFault
}.

(** The environment of one background execution: whether the id fetch
    raises, and how, the environment of the unit of each ScanResult id, the
    order in which the event loop resumes the units, and the clock reading
    of the write to the Scan row. *)
Record ScanEnv : Type := mkScanEnv {
  fetch_raises : option FetchFailure;
  unit_envs : nat -> UnitEnv;
  schedule : list nat;
  scan_now : Time
}.

Definition new_task (env : ScanEnv) (sr_id : nat) : UnitTask :=
  {| unit_id := sr_id; unit_env := unit_envs env sr_id; unit_phase := NotStarted |}.

(** What the store does to the transaction of the [except] branch. *)
Definition error_write_fault (env : ScanEnv) : TxFault :=
  match fetch_raises env with
  | Some failure => mark_error_fault failure
  | None => NoFault
  end.

(** "Fetch all ScanResult IDs for the given Scan ID in a separate session":
    the ids, or [None] when the fetch raised, the scan was marked and the
    function returns; an exception of the marking transaction leaves the
    handler. *)
Definition fetch_scan_result_ids (id : nat) (env : ScanEnv)
  : M Database (option (list nat)) :=
  try_except
    (scan_result_ids <-
       execute (match fetch_raises env with
                | Some failure => ExecuteRaises (fetch_message failure)
                | None => NoFault
                end) (scan_result_ids_of id) ;;
     ret (Some scan_result_ids))
    [ (Exception_, fun _ =>
         mark_scan_error id (scan_now env) (error_write_fault env) ;; ret None) ].

(** "Wait for all test tasks to complete": the gather, inside its [try]. *)
Definition wait_for_tasks (url : string) (schedule : list nat) (tasks : list UnitTask)
  : M Database unit :=
  try_except
    (gather url schedule tasks ;; ret tt)
    [ (Exception_, fun _ => ret tt) ].

(** The result is the list [tasks] of the source, each task named by the
    ScanResult id it was created for. *)
Definition run_all_tests_for_scan (id : nat) (url : string) (env : ScanEnv)
  : M Database (list nat) :=
  fetched <- fetch_scan_result_ids id env ;;
  match fetched with
  | None => ret []
  | Some [] => mark_scan_without_tests id (scan_now env) ;; ret []
  | Some scan_result_ids =>
      let tasks := map (new_task env) scan_result_ids in
      wait_for_tasks url (schedule env) tasks ;;
      final_check id (List.length scan_result_ids) (scan_now env) ;;
      ret scan_result_ids
  end.

(** ** start_scan *)

(** The body of the response, [ScanResponse]: the scan, its website, and
    each result with its test definition. *)
Record ScanResponse : Type := mkScanResponse {
  response_scan : Scan;
  response_website : Website;
  response_results : list (ScanResult * TestDefinition)
}.

Fixpoint with_test_definitions (results : list ScanResult) (db : Database)
  : option (list (ScanResult * TestDefinition)) :=
  match results with
  | [] => Some []
  | r :: rest =>
      match test_definition_by_id (sr_test_definition_id r) db,
            with_test_definitions rest db with
      | Some t, Some rest' => Some ((r, t) :: rest')
      | _, _ => None
      end
  end.

(** [ScanResponse.model_validate(final_scan_obj)] over the relationships
    loaded by the query before it; a missing nested object does not
    validate. *)
Definition model_validate (scan : Scan) (db : Database) : PyResult ScanResponse :=
  match first_where (fun w => w_id w =? scan_website_id scan) (websites db),
        with_test_definitions (results_of (scan_id scan) db) db with
  | Some w, Some rs =>
      Returned {| response_scan := scan; response_website := w; response_results := rs |}
  | _, _ => Raised (OtherException "validation error for ScanResponse")
  end.

(** The environment of one request: which of the awaited store statements
    of the transaction raises (numbered in the order of the source: the
    website query, the website flush, the catalog query, the scan flush, the
    results flush, the final query, the commit), and the clock. *)
Record RequestEnv : Type := mkRequestEnv {
  stmt_raises : nat -> option string;
  request_now : Time
}.

Definition await_stmt (env : RequestEnv) (k : nat) : M Database unit :=
  match stmt_raises env k with
  | Some msg => raise (SQLAlchemyError msg)
  | None => ret tt
  end.

Definition add_website (w : Website) (db : Database) : Database :=
  set_websites (websites db ++ [w]) db.

Definition add_scan (s : Scan) (db : Database) : Database :=
  set_scans (scans db ++ [s]) db.

(** [db.add(models.ScanResult(scan_id=..., test_definition_id=...,
    status=PENDING, result=NOT_RUN))], with the key it gets at the flush. *)
Definition add_scan_result (new_scan_id test_definition_id : nat) (db : Database)
  : Database :=
  set_scan_results
    (scan_results db ++
       [ {| sr_id := next_id (map sr_id (scan_results db));
            sr_scan_id := new_scan_id;
            sr_test_definition_id := test_definition_id;
            sr_status := PENDING;
            sr_result := NOT_RUN;
            sr_summary := None; sr_details := None; sr_recommendations := None;
            sr_started_at := None; sr_completed_at := None |} ]) db.

Definition set_last_scan_at (now : Time) (w : Website) : Website :=
  {| w_id := w_id w; w_url := w_url w; w_created_at := w_created_at w;
     w_last_scan_at := Some now |}.

(** The transaction of [start_scan].  It returns the response and the
    arguments of the background task it adds. *)
Definition create_scan (url_to_scan : string) (env : RequestEnv)
  : M Database (ScanResponse * (nat * string)) :=
  transaction
    ((* 1. Find or create the Website entry *)
     await_stmt env 0 ;;
     found <- get ;;
     website <-
       match website_by_url url_to_scan found with
       | Some w => ret w
       | None =>
           let w := {| w_id := next_id (map w_id (websites found));
                       w_url := url_to_scan;
                       w_created_at := request_now env;
                       w_last_scan_at := None |} in
           modify (add_website w) ;;
           await_stmt env 1 ;;
           ret w
       end ;;
     (* 2. Get all available test definitions *)
     await_stmt env 2 ;;
     db <- get ;;
     let all_tests := test_definitions db in
     match all_tests with
     | [] => raise (HTTPException 500 "No test definitions found in the database.")
     | _ => ret tt
     end ;;
     (* 3. Create a new Scan entry *)
     let new_scan := {| scan_id := next_id (map scan_id (scans db));
                        scan_website_id := w_id website;
                        scan_status := PENDING;
                        scan_created_at := request_now env;
                        scan_completed_at := None |} in
     modify (add_scan new_scan) ;;
     await_stmt env 3 ;;
     (* 4. Create ScanResult entries for this scan *)
     for_each all_tests (fun test_def =>
       modify (add_scan_result (scan_id new_scan) (td_id test_def))) ;;
     await_stmt env 4 ;;
     modify (update_website (w_id website) (set_last_scan_at (request_now env))) ;;
     await_stmt env 5 ;;
     db' <- get ;;
     match scan_by_id (scan_id new_scan) db' with
     | None =>
         raise (HTTPException 500 "Failed to retrieve scan details after creation.")
     | Some final_scan_obj =>
         response_data <- lift (model_validate final_scan_obj db') ;;
         await_stmt env 6 ;;
         ret (response_data, (scan_id new_scan, url_to_scan))
     end).

Definition start_scan (url_to_scan : string) (env : RequestEnv)
  : M Database (ScanResponse * (nat * string)) :=
  try_except
    (create_scan url_to_scan env)
    [ (isinstance_HTTPException, fun http_exc => raise http_exc);
      (Exception_, fun e =>
         raise (HTTPException 500
           (fstr ["Internal server error during scan initiation: "; exc_str e]))) ].

(** ** populate_test_definitions *)

Definition test_defs : list (string * string) :=
  [ ("Vulnerability Scanning", "General vulnerability checks (e.g., outdated software).");
    ("Web Application Firewall (WAF) Testing", "Testing WAF detection and bypass.");
    ("Cross-Site Scripting (XSS) Testing", "Detecting XSS vulnerabilities.");
    ("SQL Injection Testing", "Detecting SQL Injection vulnerabilities.");
    ("Denial of Service (DoS) Testing", "Basic DoS resilience checks.");
    ("Directory Traversal", "Checking for directory traversal vulnerabilities.");
    ("API Security Testing", "Basic checks for common API vulnerabilities.");
    ("Session Management Testing", "Analyzing session handling security.");
    ("Cryptography and SSL/TLS Testing", "Checking SSL/TLS configuration and certificate validity.");
    ("Social Engineering Testing", "Placeholder for social engineering test info.") ].

Definition add_test_definition (name description : string) (db : Database) : Database :=
  set_test_definitions
    (test_definitions db ++
       [ {| td_id := next_id (map td_id (test_definitions db));
            td_name := name;
            td_description := Some description |} ]) db.

(** The body of the loop: the query by name sees the rows added earlier in
    the same session. *)
Definition seed_one (test_data : string * string) : M Database unit :=
  existing_test <- execute NoFault (test_definition_by_name (fst test_data)) ;;
  match existing_test with
  | None => modify (add_test_definition (fst test_data) (snd test_data))
  | Some _ => ret tt
  end.

(** The seeding step over any list of (name, description) pairs. *)
Definition seed (defs : list (string * string)) : M Database unit :=
  transaction (for_each defs seed_one).

Definition populate_test_definitions : M Database unit := seed test_defs.

(** ** The startup handler and the read endpoints *)

(** [database.init_db]: [create_all] creates the tables that are missing
    and leaves every row where it is. *)
Definition init_db : M Database unit := ret tt.

(** [on_startup] *)
Definition on_startup : M Database unit :=
  init_db ;; populate_test_definitions.

(** [order_by(models.TestDefinition.id)]: the rows by ascending id; rows of
    equal id, which a unique key rules out, in the order of the table. *)
Fixpoint insert_by_id (t : TestDefinition) (sorted : list TestDefinition)
  : list TestDefinition :=
  match sorted with
  | [] => [t]
  | x :: rest =>
      if td_id t <=? td_id x then t :: x :: rest else x :: insert_by_id t rest
  end.

Definition order_by_id (rows : list TestDefinition) : list TestDefinition :=
  fold_right insert_by_id [] rows.

(** [GET /tests] *)
Definition get_available_tests : M Database (list TestDefinition) :=
  execute NoFault (fun db => order_by_id (test_definitions db)).

(** [str(n)] of a non-negative integer *)
Definition str_nat (n : nat) : string := NilZero.string_of_uint (Nat.to_uint n).

(** The integers the store binds as a parameter of a query: SQLite takes
    up to 2^63 - 1, and from 2^63 on [db.execute] raises [OverflowError]
    before the query runs.  The two endpoints below are the source's for a
    [scan_id] in this range, as every id of a row is. *)
Definition sqlite_integer (id : nat) : Prop := (Z.of_nat id < 2 ^ 63)%Z.

(** [GET /scans/{scan_id}]; the scan it returns goes through the response
    model [ScanResponse]. *)
Definition get_scan_status (id : nat) : M Database ScanResponse :=
  scan <- execute NoFault (scan_by_id id) ;;
  match scan with
  | None =>
      raise (HTTPException 404 (fstr ["Scan with ID "; str_nat id; " not found"]))
  | Some scan_obj => db <- get ;; lift (model_validate scan_obj db)
  end.

(** [GET /scans/{scan_id}/report]: the message and the scan details. *)
Definition download_scan_report (id : nat) : M Database (string * ScanResponse) :=
  scan <- execute NoFault (scan_by_id id) ;;
  match scan with
  | None =>
      raise (HTTPException 404 (fstr ["Scan with ID "; str_nat id; " not found"]))
  | Some scan_obj =>
      if status_eqb (scan_status scan_obj) COMPLETED
         || status_eqb (scan_status scan_obj) ERROR
      then
        db <- get ;;
        scan_dict <- lift (model_validate scan_obj db) ;;
        ret (fstr ["PDF report generation for scan "; str_nat id;
                   " is not yet implemented."], scan_dict)
      else
        raise (HTTPException 400
                 (fstr ["Scan "; str_nat id; " is not yet complete. Status: ";
                        status_value (scan_status scan_obj)]))
  end.

(** ** The running service

    [start_scan] answers requests and adds one background task per scan;
    the event loop starts the background tasks, resumes their units in any
    order, and runs the final check of a task once its units are done.
    Several scans may be in flight at once. *)

Inductive TaskState : Type :=
| Scheduled
| Gathering (tasks : list UnitTask)
| Done.

Record BackgroundTask : Type := mkBackgroundTask {
  bg_scan_id : nat;
  bg_url : string;
  bg_state : TaskState
}.

Definition set_state (st : TaskState) (b : BackgroundTask) : BackgroundTask :=
  {| bg_scan_id := bg_scan_id b; bg_url := bg_url b; bg_state := st |}.

Record Service : Type := mkService {
  store : Database;
  background : list BackgroundTask
}.

Inductive Event : Type :=
| PostScans (url : string) (env : RequestEnv)
| Start (k : nat) (env : ScanEnv)
| Resume (k : nat) (i : nat)
| Join (k : nat) (now : Time).

Definition is_finished (t : UnitTask) : bool :=
  match unit_phase t with
  | Finished => true
  | _ => false
  end.

(** Background task [b] runs from its start to the creation of its units. *)
Definition start_background (b : BackgroundTask) (env : ScanEnv) (db : Database)
  : BackgroundTask * Database :=
  match bg_state b with
  | Scheduled =>
      match fetch_scan_result_ids (bg_scan_id b) env db with
      | (Returned (Some []), db') =>
          (set_state Done b,
           snd (mark_scan_without_tests (bg_scan_id b) (scan_now env) db'))
      | (Returned (Some scan_result_ids), db') =>
          (set_state (Gathering (map (new_task env) scan_result_ids)) b, db')
      | (_, db') => (set_state Done b, db')
      end
  | _ => (b, db)
  end.

(** The event loop resumes unit [i] of background task [b]. *)
Definition resume_background (b : BackgroundTask) (i : nat) (db : Database)
  : BackgroundTask * Database :=
  match bg_state b with
  | Gathering tasks =>
      match step_nth (bg_url b) i tasks db with
      | (Returned tasks', db') => (set_state (Gathering tasks') b, db')
      | (Raised _, db') => (b, db')
      end
  | _ => (b, db)
  end.

(** Background task [b] leaves the gather, when all its units are done, and
    runs the final check. *)
Definition join_background (b : BackgroundTask) (now : Time) (db : Database)
  : BackgroundTask * Database :=
  match bg_state b with
  | Gathering tasks =>
      if forallb is_finished tasks
      then (set_state Done b,
            snd (final_check (bg_scan_id b) (List.length tasks) now db))
      else (b, db)
  | _ => (b, db)
  end.

Fixpoint on_nth (k : nat) (f : BackgroundTask -> Database -> BackgroundTask * Database)
    (bs : list BackgroundTask) (db : Database) : list BackgroundTask * Database :=
  match bs with
  | [] => ([], db)
  | b :: rest =>
      match k with
      | O => let '(b', db') := f b db in (b' :: rest, db')
      | S j => let '(rest', db') := on_nth j f rest db in (b :: rest', db')
      end
  end.

Definition service_step (ev : Event) (st : Service) : Service :=
  match ev with
  | PostScans url env =>
      match start_scan url env (store st) with
      | (Returned (_, (new_scan_id, url_to_scan)), db') =>
          {| store := db';
             background := background st ++
               [ {| bg_scan_id := new_scan_id; bg_url := url_to_scan;
                    bg_state := Scheduled |} ] |}
      | (Raised _, db') => {| store := db'; background := background st |}
      end
  | Start k env =>
      let '(bs, db') :=
        on_nth k (fun b => start_background b env) (background st) (store st) in
      {| store := db'; background := bs |}
  | Resume k i =>
      let '(bs, db') :=
        on_nth k (fun b => resume_background b i) (background st) (store st) in
      {| store := db'; background := bs |}
  | Join k now =>
      let '(bs, db') :=
        on_nth k (fun b => join_background b now) (background st) (store st) in
      {| store := db'; background := bs |}
  end.

Definition run_events (evs : list Event) (st : Service) : Service :=
  fold_left (fun s ev => service_step ev s) evs st.

(** The constraints of the schema on the rows of [scan_results]: the primary
    key is unique and [scan_id] refers to a row of [scans]. *)
Definition primary_keys_unique (db : Database) : Prop :=
  NoDup (map sr_id (scan_results db)).

Definition foreign_keys_hold (db : Database) : Prop :=
  forall r, In r (scan_results db) -> In (sr_scan_id r) (map scan_id (scans db)).

(** The second constraint as a test, for concrete stores. *)
Definition foreign_keys_ok (db : Database) : bool :=
  forallb (fun r => existsb (Nat.eqb (sr_scan_id r)) (map scan_id (scans db)))
          (scan_results db).

(** The service comes up over a store that meets the constraints, with no
    background task. *)
Definition initial_service (db : Database) : Service :=
  {| store := db; background := [] |}.

Inductive reachable : Service -> Prop :=
| reachable_initial (db : Database) :
    primary_keys_unique db -> foreign_keys_hold db ->
    reachable (initial_service db)
| reachable_step (st : Service) (ev : Event) :
    reachable st -> reachable (service_step ev st).

(** The status of the ScanResult with a given id, when there is one. *)
Definition status_of (scan_result_id : nat) (db : Database) : option TestStatusEnum :=
  option_map sr_status (scan_result_by_id scan_result_id db).

(** One store operation seen from one ScanResult: nothing happens to its
    status, or the row is created PENDING, or it moves one step along
    PENDING, IN_PROGRESS, then COMPLETED or ERROR. *)
Inductive status_move : option TestStatusEnum -> option TestStatusEnum -> Prop :=
| move_none (o : option TestStatusEnum) : status_move o o
| move_created : status_move None (Some PENDING)
| move_begin : status_move (Some PENDING) (Some IN_PROGRESS)
| move_completed : status_move (Some IN_PROGRESS) (Some COMPLETED)
| move_error : status_move (Some IN_PROGRESS) (Some ERROR).

(** What one move of a unit does to the store, by the phase it leaves and
    the phase it reaches: nothing, and the unit is finished; or the begin
    step on the row it found; or the final write on the row it found, with
    a terminal status. *)
Inductive unit_effect (id : nat) (db : Database)
  : UnitPhase -> UnitPhase -> Database -> Prop :=
| effect_none (p : UnitPhase) : unit_effect id db p Finished db
| effect_begin (test_name : string) (now : Time) (r : ScanResult) :
    scan_result_by_id id db = Some r ->
    unit_effect id db NotStarted (Marked test_name)
      (update_scan_result id (set_in_progress now) db)
| effect_finish (test_name : string) (v : ProbeVars) (now : Time) (r : ScanResult) :
    scan_result_by_id id db = Some r ->
    final_status v = COMPLETED \/ final_status v = ERROR ->
    unit_effect id db (Marked test_name) Finished
      (update_scan_result id (set_final_results v now) db).

(** What the store owes a unit of the scan [sid]: before the begin step its
    row is there and PENDING, between the two steps it is IN_PROGRESS. *)
Definition unit_ok (db : Database) (sid : nat) (u : UnitTask) : Prop :=
  match unit_phase u with
  | NotStarted =>
      exists r, scan_result_by_id (unit_id u) db = Some r /\
                sr_scan_id r = sid /\ sr_status r = PENDING
  | Marked _ =>
      exists r, scan_result_by_id (unit_id u) db = Some r /\
                sr_scan_id r = sid /\ sr_status r = IN_PROGRESS
  | Finished => True
  end.

(** What the store owes a background task: while it is scheduled every
    result of its scan is PENDING; while it gathers, its units work on
    different rows and each is owed the above. *)
Definition task_ok (db : Database) (b : BackgroundTask) : Prop :=
  match bg_state b with
  | Scheduled =>
      forall r, In r (scan_results db) -> sr_scan_id r = bg_scan_id b ->
                sr_status r = PENDING
  | Gathering tasks =>
      NoDup (map unit_id tasks) /\
      forall u, In u tasks -> unit_ok db (bg_scan_id b) u
  | Done => True
  end.

(** The invariant of the running service. *)
Record service_invariant (st : Service) : Prop := mkServiceInvariant {
  inv_primary_keys : primary_keys_unique (store st);
  inv_foreign_keys : foreign_keys_hold (store st);
  inv_known_scans :
    forall b, In b (background st) ->
              In (bg_scan_id b) (map scan_id (scans (store st)));
  inv_distinct_scans : NoDup (map bg_scan_id (background st));
  inv_tasks : forall b, In b (background st) -> task_ok (store st) b
}.

(** A move of one background task that respects the invariant and lets
    every ScanResult status move along its path only. *)
Definition local_step
    (f : BackgroundTask -> Database -> BackgroundTask * Database) : Prop :=
  forall b db b' db',
    f b db = (b', db') ->
    primary_keys_unique db -> foreign_keys_hold db -> task_ok db b ->
    bg_scan_id b' = bg_scan_id b /\
    map scan_id (scans db') = map scan_id (scans db) /\
    primary_keys_unique db' /\
    foreign_keys_hold db' /\
    task_ok db' b' /\
    (forall c, bg_scan_id c <> bg_scan_id b -> task_ok db c -> task_ok db' c) /\
    (forall id, status_move (status_of id db) (status_of id db')).

(** The names of the catalog, in the order of its rows. *)
Definition catalog_names (db : Database) : list string :=
  map td_name (test_definitions db).

(** Every result of the list is COMPLETED. *)
Definition all_completed (results : list ScanResult) : bool :=
  forallb (fun r => status_eqb (sr_status r) COMPLETED) results.

(** Every exception a block can raise satisfies [P]. *)
Definition raises_only {S A : Type} (P : PyException -> Prop) (c : M S A) : Prop :=
  forall s e s', c s = (Raised e, s') -> P e.

(** An exception that is no [HTTPException], or one with status 500. *)
Definition internal_or_500 (e : PyException) : Prop :=
  match e with
  | HTTPException code _ => code = 500%Z
  | _ => True
  end.

(** The primary key of [websites] is unique. *)
Definition website_keys_unique (db : Database) : Prop :=
  NoDup (map w_id (websites db)).

(** No statement of a request raises. *)
Definition quiet_store (env : RequestEnv) : Prop :=
  forall k, stmt_raises env k = None.

(** The columns of a ScanResult and of a Scan that are set when the row is
    created: its key and what it refers to. *)
Definition result_keys (r : ScanResult) : nat * nat * nat :=
  (sr_id r, sr_scan_id r, sr_test_definition_id r).

Definition scan_keys (s : Scan) : nat * nat * Time :=
  (scan_id s, scan_website_id s, scan_created_at s).

(** What a background execution of the scan [id], with units on the rows
    [ids], leaves as it is: the websites, the catalog, the rows of both
    other tables as far as their creation columns go, every other scan and
    every ScanResult outside [ids]. *)
Definition untouched_outside (id : nat) (ids : list nat) (db db' : Database) : Prop :=
  websites db' = websites db /\
  test_definitions db' = test_definitions db /\
  map scan_keys (scans db') = map scan_keys (scans db) /\
  map result_keys (scan_results db') = map result_keys (scan_results db) /\
  (forall id', id' <> id -> scan_by_id id' db' = scan_by_id id' db) /\
  (forall rid, ~ In rid ids -> scan_result_by_id rid db' = scan_result_by_id rid db).

(** The scan goes through the response model. *)
Definition validates (scan : Scan) (db : Database) : bool :=
  match model_validate scan db with
  | Returned _ => true
  | Raised _ => false
  end.

(** The catalog ids increase along the table, as they do in a table that
    only [populate_test_definitions] has filled. *)
Definition catalog_ids_increase (db : Database) : Prop :=
  StronglySorted lt (map td_id (test_definitions db)).

(** The order in which [get_available_tests] returns the rows. *)
Definition by_id (a b : TestDefinition) : Prop := td_id a <= td_id b.

(** What one move of a unit writes: an update of its own row, or nothing. *)
Definition apply_update (scan_result_id : nat) (act : option (ScanResult -> ScanResult))
    (db : Database) : Database :=
  match act with
  | Some f => update_scan_result scan_result_id f db
  | None => db
  end.

(** One move of a unit, read off [mark_in_progress] and
    [write_final_results]: the phase it reaches and what it writes, from
    what the unit reads of the store (its own row and the catalog). *)
Definition unit_move (url : string) (u : UnitTask) (db : Database)
  : UnitPhase * option (ScanResult -> ScanResult) :=
  match unit_phase u with
  | NotStarted =>
      match begin_fault (unit_env u), scan_result_by_id (unit_id u) db with
      | NoFault, Some r =>
          match test_definition_by_id (sr_test_definition_id r) db with
          | Some t =>
              (Marked (td_name t), Some (set_in_progress (started_now (unit_env u))))
          | None => (Finished, None)
          end
      | _, _ => (Finished, None)
      end
  | Marked test_name =>
      (Finished,
       match finish_fault (unit_env u), scan_result_by_id (unit_id u) db with
       | NoFault, Some _ =>
           Some (set_final_results (probe_report test_name url (unit_env u))
                   (completed_now (unit_env u)))
       | _, _ => None
       end)
  | Finished => (Finished, None)
  end.

(** A unit run from where it is to its end, as [run_to_completion] does. *)
Definition finish_unit (url : string) (u : UnitTask) (db : Database) : Database :=
  snd ((u1 <- unit_step url u ;; unit_step url u1) db).

(** What a unit reads of the store. *)
Definition same_view (scan_result_id : nat) (db1 db2 : Database) : Prop :=
  scan_result_by_id scan_result_id db1 = scan_result_by_id scan_result_id db2 /\
  test_definitions db1 = test_definitions db2.

Definition keeps_id (act : option (ScanResult -> ScanResult)) : Prop :=
  forall f, act = Some f -> forall r, sr_id (f r) = sr_id r.

(** The status of the Scan with a given id, when there is one. *)
Definition scan_status_of (id : nat) (db : Database) : option TestStatusEnum :=
  option_map scan_status (scan_by_id id db).

(** One store operation seen from one Scan: nothing happens to its status,
    or the row is created PENDING, or it moves from PENDING to COMPLETED or
    to ERROR. *)
Inductive scan_move : option TestStatusEnum -> option TestStatusEnum -> Prop :=
| scan_move_none (o : option TestStatusEnum) : scan_move o o
| scan_move_created : scan_move None (Some PENDING)
| scan_move_completed : scan_move (Some PENDING) (Some COMPLETED)
| scan_move_error : scan_move (Some PENDING) (Some ERROR).

(** What the store owes a background task that has not ended: its scan is
    there and PENDING. *)
Definition scan_pending (db : Database) (b : BackgroundTask) : Prop :=
  bg_state b <> Done -> scan_status_of (bg_scan_id b) db = Some PENDING.

Definition scans_pending (st : Service) : Prop :=
  forall b, In b (background st) -> scan_pending (store st) b.

(** A move of one background task that writes to its own scan only, and
    moves its status along its path. *)
Definition scan_local
    (f : BackgroundTask -> Database -> BackgroundTask * Database) : Prop :=
  forall b db b' db',
    f b db = (b', db') ->
    scan_pending db b ->
    bg_scan_id b' = bg_scan_id b /\
    scan_pending db' b' /\
    (forall id, id <> bg_scan_id b -> scan_by_id id db' = scan_by_id id db) /\
    scan_move (scan_status_of (bg_scan_id b) db) (scan_status_of (bg_scan_id b) db').

(** The entries of a seed list whose names the catalog lacks, in the order
    of the list. *)
Definition missing_from_catalog (defs : list (string * string)) (db : Database)
  : list (string * string) :=
  filter (fun d => negb (existsb (String.eqb (fst d)) (catalog_names db))) defs.

(** ** Concrete environments and stores, for running the definitions *)

(** A unit environment in which the store and the simulated probe are
    quiet and [requests.get] does what is given. *)
Definition quiet_unit_env (get : PyResult Response) : UnitEnv :=
  {| begin_fault := NoFault; started_now := 1000%Z;
     requests_get := get;
     asyncio_sleep := Returned tt; random_index := 0;
     finish_fault := NoFault; completed_now := 2000%Z |}.

Definition response_200_https : Response :=
  {| resp_status_code := 200%Z; resp_reason := "OK";
     resp_url := "https://example.com/" |}.

Definition response_200_http : Response :=
  {| resp_status_code := 200%Z; resp_reason := "OK";
     resp_url := "http://example.com/" |}.

Definition response_404_https : Response :=
  {| resp_status_code := 404%Z; resp_reason := "Not Found";
     resp_url := "https://example.com/missing" |}.

(** A scan environment in which the fetch succeeds and every unit is
    quiet. *)
Definition quiet_scan_env : ScanEnv :=
  {| fetch_raises := None;
     unit_envs := fun _ => quiet_unit_env (Returned response_200_https);
     schedule := [];
     scan_now := 3000%Z |}.

(** The store refuses the fetch and then takes the write that marks the
    scan. *)
Definition failing_fetch_env : ScanEnv :=
  {| fetch_raises := Some {| fetch_message := "connection refused";
                             mark_error_fault := NoFault |};
     unit_envs := fun _ => quiet_unit_env (Returned response_200_https);
     schedule := [];
     scan_now := 3000%Z |}.

(** The store refuses the fetch and the write that marks the scan as
    well. *)
Definition unreachable_store_env : ScanEnv :=
  {| fetch_raises := Some {| fetch_message := "connection refused";
                             mark_error_fault := ExecuteRaises "connection refused" |};
     unit_envs := fun _ => quiet_unit_env (Returned response_200_https);
     schedule := [];
     scan_now := 3000%Z |}.

(** A store with one website and one PENDING scan that has no result. *)
Definition bare_scan : Scan :=
  {| scan_id := 1; scan_website_id := 1; scan_status := PENDING;
     scan_created_at := 10%Z; scan_completed_at := None |}.

Definition store_with_bare_scan : Database :=
  {| websites := [ {| w_id := 1; w_url := "http://example.com/";
                      w_created_at := 10%Z; w_last_scan_at := Some 10%Z |} ];
     test_definitions := [];
     scans := [ bare_scan ];
     scan_results := [] |}.

(** A request environment in which no statement raises, the store after
    the seeding of an empty store, and the store after one request on it. *)
Definition quiet_request_env : RequestEnv :=
  {| stmt_raises := fun _ => None; request_now := 100%Z |}.

Definition seeded_store : Database :=
  snd (populate_test_definitions empty_database).

Definition store_with_pending_scan : Database :=
  snd (start_scan "http://example.com/" quiet_request_env seeded_store).

(** The scan the first request created. *)
Definition first_scan : Scan :=
  {| scan_id := 1; scan_website_id := 1; scan_status := PENDING;
     scan_created_at := 100%Z; scan_completed_at := None |}.

(** A second request, on the store the first one left. *)
Definition second_request : PyResult (ScanResponse * (nat * string)) * Database :=
  Eval vm_compute in
    start_scan "http://example.org/" quiet_request_env store_with_pending_scan.

Definition second_response : option ScanResponse :=
  Eval vm_compute in
    match fst second_request with
    | Returned (resp, _) => Some resp
    | Raised _ => None
    end.

(** A unit environment in which [requests.get] raises an exception that is
    not one of [requests.exceptions] (a [UnicodeError] of the host name
    encoding, say), on a store that takes both writes. *)
Definition raising_unit_env : UnitEnv :=
  {| begin_fault := NoFault; started_now := 1000%Z;
     requests_get := Raised (OtherException "label empty or too long");
     asyncio_sleep := Returned tt; random_index := 0;
     finish_fault := NoFault; completed_now := 2000%Z |}.

(** A scan environment in which the units are resumed out of order and the
    unit of result 9, the HTTPS probe, meets the exception above. *)
Definition interleaved_scan_env : ScanEnv :=
  {| fetch_raises := None;
     unit_envs := fun id =>
       if id =? 9 then raising_unit_env
       else quiet_unit_env (Returned response_200_https);
     schedule := [8; 2; 2; 0; 8; 5];
     scan_now := 3000%Z |}.

(** The service after one request on the seeded store and the start of
    its background task. *)
Definition service_with_gathering_scan : Service :=
  service_step (Start 0 quiet_scan_env)
    (service_step (PostScans "http://example.com/" quiet_request_env)
       (initial_service seeded_store)).

(** A request for a URL the store knows already. *)
Definition repeat_request : PyResult (ScanResponse * (nat * string)) * Database :=
  Eval vm_compute in
    start_scan "http://example.com/" quiet_request_env store_with_pending_scan.

Definition repeat_response : option ScanResponse :=
  Eval vm_compute in
    match fst repeat_request with
    | Returned (resp, _) => Some resp
    | Raised _ => None
    end.

(** A request environment in which the flush of the new scan raises. *)
Definition scan_flush_fails_env : RequestEnv :=
  {| stmt_raises := fun k => if k =? 3 then Some "disk I/O error" else None;
     request_now := 100%Z |}.

(** A unit of work whose second transaction the store refuses. *)
Definition final_write_fails_env : UnitEnv :=
  {| begin_fault := NoFault; started_now := 1000%Z;
     requests_get := Returned response_200_https;
     asyncio_sleep := Returned tt; random_index := 0;
     finish_fault := CommitRaises "database is locked"; completed_now := 2000%Z |}.

(** The first ScanResult of the first scan, as the request created it. *)
Definition first_result : ScanResult :=
  {| sr_id := 1; sr_scan_id := 1; sr_test_definition_id := 1;
     sr_status := PENDING; sr_result := NOT_RUN;
     sr_summary := None; sr_details := None; sr_recommendations := None;
     sr_started_at := None; sr_completed_at := None |}.

(** The first test definition of the seeded catalog. *)
Definition first_test_definition : TestDefinition :=
  {| td_id := 1; td_name := "Vulnerability Scanning";
     td_description :=
       Some "General vulnerability checks (e.g., outdated software)." |}.

(** The first ScanResult of the first scan, once its unit has run in a
    quiet world. *)
Definition first_result_reported : ScanResult :=
  set_final_results
    (probe_report "Vulnerability Scanning" "http://example.com/"
       (quiet_unit_env (Returned response_200_https)))
    2000%Z (set_in_progress 1000%Z first_result).

(** A store whose catalog holds two tests before the startup handler runs:
    one of its own and one under a name of the seed list. *)
Definition store_with_earlier_tests : Database :=
  {| websites := [];
     test_definitions :=
       [ {| td_id := 3; td_name := "Custom Header Check";
            td_description := Some "Checks the security headers." |};
         {| td_id := 5; td_name := "SQL Injection Testing";
            td_description := None |} ];
     scans := []; scan_results := [] |}.

(** * Properties *)

Unset Implicit Arguments.

(** ** Enumerations and exception classes *)

Lemma status_eqb_eq (a b : TestStatusEnum) : status_eqb a b = true <-> a = b.
Proof. destruct a, b; simpl; split; intro H; try reflexivity; discriminate H. Qed.

Lemma status_eqb_refl (a : TestStatusEnum) : status_eqb a a = true.
Proof. destruct a; reflexivity. Qed.

Lemma status_eqb_neq (a b : TestStatusEnum) : status_eqb a b = false <-> a <> b.
Proof.
  split.
  - intros H E. subst b. rewrite status_eqb_refl in H. discriminate H.
  - intro N. destruct (status_eqb a b) eqn:E; [|reflexivity].
    apply status_eqb_eq in E. contradiction.
Qed.

(** No class of [requests.exceptions] is both an [SSLError] and a [Timeout]. *)
Lemma timeout_not_ssl (e : PyException) :
  isinstance_requests Timeout e = true -> isinstance_requests SSLError e = false.
Proof. destruct e as [c m| |m|m]; simpl; try discriminate; destruct c; simpl; congruence. Qed.

Lemma requests_exception_top (base : RequestsClass) (e : PyException) :
  isinstance_requests base e = true -> isinstance_requests RequestException e = true.
Proof. destruct e as [c m| |m|m]; simpl; try discriminate; reflexivity. Qed.

(** ** The HTTPS-enforcement probe *)

(** Unfold the monad around a block whose environment is known. *)
Ltac run_py :=
  cbv [probe_report verdict test_logic probe https_probe simulated_probe
       try_except dispatch bind ret raise modify lift get raise_for_status
       Exception_ set_report set_final_status initial_vars
       outcome final_status summary_text details_text recommendations_text
       fst snd].

Lemma ssl_test_name_eqb : String.eqb ssl_test_name ssl_test_name = true.
Proof. reflexivity. Qed.

(** The probe on a response that carries no error status: the scheme of the
    final URL decides. *)
Lemma https_probe_response (url : string) (env : UnitEnv) (response : Response) :
  requests_get env = Returned response ->
  http_error_status response = false ->
  verdict (probe_report ssl_test_name url env) =
    (if String.eqb (urlparse_scheme (resp_url response)) "https"
     then PASSED else VULNERABLE, COMPLETED).
Proof.
  intros Hget Hok. run_py. rewrite ssl_test_name_eqb, Hget, Hok.
  destruct (String.eqb (urlparse_scheme (resp_url response)) "https"); reflexivity.
Qed.

(** The probe on a response with a 4xx or 5xx status: [raise_for_status]
    raises an [HTTPError], which only the last [except] clause accepts. *)
Lemma https_probe_http_error (url : string) (env : UnitEnv) (response : Response) :
  requests_get env = Returned response ->
  http_error_status response = true ->
  probe_report ssl_test_name url env =
    {| outcome := INFO;
       summary_text := "Request Error.";
       details_text := Some (fstr ["An error occurred during the request: ";
                                   http_error_msg response]);
       recommendations_text := Some "Check the URL for correctness and ensure the website is accessible. Review server logs if possible.";
       final_status := COMPLETED |}.
Proof.
  intros Hget Herr. run_py. rewrite ssl_test_name_eqb, Hget, Herr. reflexivity.
Qed.

(** The probe when [requests.get] raises: the first clause that accepts the
    exception decides; an exception outside [requests.exceptions] reaches the
    outer handler. *)
Lemma https_probe_raised (url : string) (env : UnitEnv) (e : PyException) :
  requests_get env = Raised e ->
  verdict (probe_report ssl_test_name url env) =
    if isinstance_requests SSLError e then (VULNERABLE, COMPLETED)
    else if isinstance_requests RequestException e then (INFO, COMPLETED)
    else (NOT_RUN, ERROR).
Proof.
  intros Hget. run_py. rewrite ssl_test_name_eqb, Hget.
  destruct e as [c m|code d|m|m]; simpl; try reflexivity.
  destruct c; reflexivity.
Qed.

(** At a 404 answer whose final URL is an https one the probe reports INFO,
    where the table as the specification states it promises PASSED for a
    final URL with scheme https. *)
Lemma https_probe_404_counterexample :
  requests_get (quiet_unit_env (Returned response_404_https)) = Returned response_404_https /\
  urlparse_scheme (resp_url response_404_https) = "https" /\
  verdict (probe_report ssl_test_name "http://example.com/missing"
             (quiet_unit_env (Returned response_404_https))) = (INFO, COMPLETED) /\
  verdict (probe_report ssl_test_name "http://example.com/missing"
             (quiet_unit_env (Returned response_404_https))) <> (PASSED, COMPLETED).
Proof.
  repeat split; try reflexivity. vm_compute. discriminate.
Qed.

(** C3 (amended): the decision table of the HTTPS-enforcement probe.  For a
    response that carries no 4xx/5xx status, a final URL with scheme https
    gives PASSED and one with scheme http gives VULNERABLE; a response with a
    4xx/5xx status is a request-layer error and gives INFO; an SSL error
    gives VULNERABLE; a timeout, a connection error that is no SSL error and
    any other request-layer error give INFO; the status is COMPLETED in every
    row. *)
Theorem https_probe_decision_table (url : string) (env : UnitEnv) :
  (forall response, requests_get env = Returned response ->
     http_error_status response = false ->
     urlparse_scheme (resp_url response) = "https" ->
     verdict (probe_report ssl_test_name url env) = (PASSED, COMPLETED)) /\
  (forall response, requests_get env = Returned response ->
     http_error_status response = false ->
     urlparse_scheme (resp_url response) = "http" ->
     verdict (probe_report ssl_test_name url env) = (VULNERABLE, COMPLETED)) /\
  (forall response, requests_get env = Returned response ->
     http_error_status response = true ->
     verdict (probe_report ssl_test_name url env) = (INFO, COMPLETED)) /\
  (forall e, requests_get env = Raised e ->
     isinstance_requests SSLError e = true ->
     verdict (probe_report ssl_test_name url env) = (VULNERABLE, COMPLETED)) /\
  (forall e, requests_get env = Raised e ->
     isinstance_requests Timeout e = true ->
     verdict (probe_report ssl_test_name url env) = (INFO, COMPLETED)) /\
  (forall e, requests_get env = Raised e ->
     isinstance_requests ConnectionError e = true ->
     isinstance_requests SSLError e = false ->
     verdict (probe_report ssl_test_name url env) = (INFO, COMPLETED)) /\
  (forall e, requests_get env = Raised e ->
     isinstance_requests RequestException e = true ->
     isinstance_requests SSLError e = false ->
     verdict (probe_report ssl_test_name url env) = (INFO, COMPLETED)).
Proof.
  repeat split.
  - intros response Hget Hok Hs.
    rewrite (https_probe_response url env response Hget Hok), Hs. reflexivity.
  - intros response Hget Hok Hs.
    rewrite (https_probe_response url env response Hget Hok), Hs. reflexivity.
  - intros response Hget Herr.
    rewrite (https_probe_http_error url env response Hget Herr). reflexivity.
  - intros e Hget Hssl. rewrite (https_probe_raised url env e Hget), Hssl. reflexivity.
  - intros e Hget Ht. rewrite (https_probe_raised url env e Hget).
    rewrite (timeout_not_ssl e Ht), (requests_exception_top Timeout e Ht). reflexivity.
  - intros e Hget Hc Hssl. rewrite (https_probe_raised url env e Hget), Hssl.
    rewrite (requests_exception_top ConnectionError e Hc). reflexivity.
  - intros e Hget Hr Hssl. rewrite (https_probe_raised url env e Hget), Hssl, Hr.
    reflexivity.
Qed.

Lemma https_probe_decision_table_witness :
  verdict (probe_report ssl_test_name "http://example.com/"
             (quiet_unit_env (Returned response_200_https))) = (PASSED, COMPLETED) /\
  verdict (probe_report ssl_test_name "http://example.com/"
             (quiet_unit_env (Returned response_200_http))) = (VULNERABLE, COMPLETED) /\
  verdict (probe_report ssl_test_name "https://self-signed.example/"
             (quiet_unit_env (Raised (RequestsExc SSLError "certificate verify failed"))))
    = (VULNERABLE, COMPLETED) /\
  verdict (probe_report ssl_test_name "https://slow.example/"
             (quiet_unit_env (Raised (RequestsExc ReadTimeout "read timed out"))))
    = (INFO, COMPLETED).
Proof.
  split; [| split; [| split]].
  - apply (proj1 (https_probe_decision_table _ _) response_200_https);
      reflexivity.
  - apply (proj1 (proj2 (https_probe_decision_table _ _)) response_200_http);
      reflexivity.
  - apply (proj1 (proj2 (proj2 (proj2 (https_probe_decision_table _ _))))
             (RequestsExc SSLError "certificate verify failed")); reflexivity.
  - apply (proj1 (proj2 (proj2 (proj2 (proj2 (https_probe_decision_table _ _)))))
             (RequestsExc ReadTimeout "read timed out")); reflexivity.
Defined.

(** C10: when the GET completes with a 4xx or 5xx status the probe yields
    INFO with status COMPLETED whatever the scheme of the final URL, because
    [raise_for_status] runs before the scheme is looked at; the verdicts of
    the scheme check, PASSED and VULNERABLE, are only reached by a response
    without an error status. *)
Theorem http_error_status_precedes_scheme_check
    (url : string) (env : UnitEnv) (response : Response) :
  requests_get env = Returned response ->
  (http_error_status response = true ->
     verdict (probe_report ssl_test_name url env) = (INFO, COMPLETED)) /\
  (outcome (probe_report ssl_test_name url env) = PASSED \/
   outcome (probe_report ssl_test_name url env) = VULNERABLE ->
     http_error_status response = false).
Proof.
  intros Hget. split.
  - intros Herr. rewrite (https_probe_http_error url env response Hget Herr). reflexivity.
  - intros Hout. destruct (http_error_status response) eqn:Herr; [|reflexivity].
    rewrite (https_probe_http_error url env response Hget Herr) in Hout.
    simpl in Hout. destruct Hout; discriminate.
Qed.

Lemma http_error_status_precedes_scheme_check_witness :
  urlparse_scheme (resp_url response_404_https) = "https" /\
  verdict (probe_report ssl_test_name "http://example.com/missing"
             (quiet_unit_env (Returned response_404_https))) = (INFO, COMPLETED).
Proof.
  split; [reflexivity |].
  apply (proj1 (http_error_status_precedes_scheme_check
                  "http://example.com/missing"
                  (quiet_unit_env (Returned response_404_https))
                  response_404_https eq_refl)).
  reflexivity.
Defined.

(** ** Tables keyed by an integer column *)

Section KeyedTable.

Variable A : Type.
Variable key : A -> nat.
Variable f : A -> A.
Hypothesis f_keeps_key : forall r, key (f r) = key r.

Lemma find_update_first_same (k : nat) (rows : list A) :
  find (fun r => key r =? k) (update_first (fun r => key r =? k) f rows)
  = option_map f (find (fun r => key r =? k) rows).
Proof.
  induction rows as [|r rest IH]; simpl; [reflexivity|].
  destruct (key r =? k) eqn:E; simpl.
  - rewrite f_keeps_key, E. reflexivity.
  - rewrite E. exact IH.
Qed.

Lemma find_update_first_other (k k' : nat) (rows : list A) :
  k <> k' ->
  find (fun r => key r =? k') (update_first (fun r => key r =? k) f rows)
  = find (fun r => key r =? k') rows.
Proof.
  intros Hne. induction rows as [|r rest IH]; simpl; [reflexivity|].
  destruct (key r =? k) eqn:E; simpl.
  - rewrite f_keeps_key. apply Nat.eqb_eq in E.
    assert ((key r =? k') = false) as ->; [apply Nat.eqb_neq; lia | reflexivity].
  - rewrite IH. reflexivity.
Qed.

Lemma map_key_update_first (p : A -> bool) (rows : list A) :
  map key (update_first p f rows) = map key rows.
Proof.
  induction rows as [|r rest IH]; simpl; [reflexivity|].
  destruct (p r); simpl; [rewrite f_keeps_key | rewrite IH]; reflexivity.
Qed.

(** A row of the updated table is an old row, or the image of the one row
    the update selected. *)
Lemma in_update_first (p : A -> bool) (rows : list A) (r' : A) :
  In r' (update_first p f rows) ->
  In r' rows \/ exists r, find p rows = Some r /\ r' = f r.
Proof.
  induction rows as [|r rest IH]; simpl; [tauto|].
  destruct (p r) eqn:E; simpl.
  - intros [H|H]; [right; exists r; auto | left; right; exact H].
  - intros [H|H]; [left; left; exact H |].
    destruct (IH H) as [H1|H1]; [left; right; exact H1 | right; exact H1].
Qed.

Lemma find_key_in (k : nat) (rows : list A) (r : A) :
  find (fun x => key x =? k) rows = Some r -> In r rows /\ key r = k.
Proof.
  intros H. apply find_some in H. destruct H as [H1 H2].
  apply Nat.eqb_eq in H2. auto.
Qed.

(** With a unique key, the query by key returns the row that has it. *)
Lemma find_unique_key (rows : list A) (r : A) :
  NoDup (map key rows) -> In r rows ->
  find (fun x => key x =? key r) rows = Some r.
Proof.
  induction rows as [|x rest IH]; simpl; [tauto|].
  intros Hnd Hin. inversion Hnd as [|? ? Hx Hrest]; subst.
  destruct Hin as [->|Hin].
  - rewrite Nat.eqb_refl. reflexivity.
  - destruct (key x =? key r) eqn:E.
    + apply Nat.eqb_eq in E. exfalso. apply Hx. rewrite E.
      apply in_map. exact Hin.
    + apply IH; assumption.
Qed.

Lemma find_app_some (p : A -> bool) (rows more : list A) (r : A) :
  find p rows = Some r -> find p (rows ++ more) = Some r.
Proof.
  induction rows as [|x rest IH]; simpl; [discriminate|].
  destruct (p x); [auto | exact IH].
Qed.

Lemma find_app_none (p : A -> bool) (rows more : list A) :
  find p rows = None -> find p (rows ++ more) = find p more.
Proof.
  induction rows as [|x rest IH]; simpl; [reflexivity|].
  destruct (p x); [discriminate | exact IH].
Qed.

End KeyedTable.

Lemma list_max_ge (ids : list nat) (k : nat) : In k ids -> k <= list_max ids.
Proof.
  induction ids as [|x rest IH]; simpl; [tauto|].
  intros [->|H]; [lia | specialize (IH H); lia].
Qed.

(** The key of a new row is not in the table. *)
Lemma next_id_fresh (ids : list nat) : ~ In (next_id ids) ids.
Proof. intros H. apply list_max_ge in H. unfold next_id in H. lia. Qed.

(** ** The final check of a background execution *)

Lemma check_results_all_completed (results : list ScanResult)
    (st : TestStatusEnum) (acc : bool) :
  all_completed results = true -> check_results results st acc = (st, acc).
Proof.
  induction results as [|r rest IH]; simpl; [reflexivity|].
  intros H. apply andb_true_iff in H. destruct H as [Hr Hrest].
  apply status_eqb_eq in Hr. rewrite Hr. simpl. apply IH. exact Hrest.
Qed.

Lemma check_results_some_open (results : list ScanResult)
    (st : TestStatusEnum) (acc : bool) :
  all_completed results = false -> fst (check_results results st acc) = ERROR.
Proof.
  induction results as [|r rest IH]; simpl; [discriminate|].
  intros H. destruct (status_eqb (sr_status r) ERROR) eqn:E1; [reflexivity|].
  destruct (status_eqb (sr_status r) COMPLETED) eqn:E2; simpl in *; [|reflexivity].
  apply IH. exact H.
Qed.

(** The status the final check assigns, in closed form. *)
Lemma overall_status_closed_form (results : list ScanResult) (launched : nat) :
  overall_status results launched =
    if all_completed results && (List.length results =? launched)
    then COMPLETED else ERROR.
Proof.
  unfold overall_status. destruct (all_completed results) eqn:Hall; simpl.
  - rewrite (check_results_all_completed _ _ _ Hall).
    destruct (List.length results =? launched); reflexivity.
  - pose proof (check_results_some_open results COMPLETED
                  (List.length results =? launched) Hall) as H.
    destruct (check_results results COMPLETED (List.length results =? launched))
      as [st acc]. simpl in H. subst st. destruct acc; reflexivity.
Qed.

Lemma all_completed_false_iff (results : list ScanResult) :
  all_completed results = false <->
  Exists (fun r => sr_status r <> COMPLETED) results.
Proof.
  unfold all_completed. split.
  - intros H. induction results as [|r rest IH]; simpl in H; [discriminate|].
    apply andb_false_iff in H. destruct H as [H|H].
    + apply Exists_cons_hd. apply status_eqb_neq. exact H.
    + apply Exists_cons_tl. apply IH. exact H.
  - intros H. induction H as [r rest H|r rest H IH]; simpl.
    + apply status_eqb_neq in H. rewrite H. reflexivity.
    + rewrite IH. apply andb_false_r.
Qed.

Lemma final_check_run (id launched : nat) (now : Time) (db : Database) :
  final_check id launched now db =
    (Returned tt,
     match scan_by_id id db with
     | Some _ =>
         update_scan id
           (set_scan_outcome (overall_status (results_of id db) launched) now) db
     | None => db
     end).
Proof.
  unfold final_check, transaction, execute, bind, get, ret, modify.
  destruct (scan_by_id id db); reflexivity.
Qed.

Lemma mark_scan_error_run (id : nat) (now : Time) (db : Database) :
  mark_scan_error id now NoFault db =
    (Returned tt,
     match scan_by_id id db with
     | Some _ => update_scan id (set_scan_outcome ERROR now) db
     | None => db
     end).
Proof.
  unfold mark_scan_error, transaction, execute, commit, bind, get, ret, modify.
  destruct (scan_by_id id db); reflexivity.
Qed.

Lemma fault_cases (fault : TxFault) : fault = NoFault \/ fault <> NoFault.
Proof. destruct fault; [left; reflexivity | right; discriminate | right; discriminate]. Qed.

(** A marking transaction that the store refuses raises and leaves the
    store as it was. *)
Lemma mark_scan_error_refused (id : nat) (now : Time) (fault : TxFault)
    (db : Database) :
  fault <> NoFault ->
  exists msg, mark_scan_error id now fault db = (Raised (SQLAlchemyError msg), db).
Proof.
  intros H. unfold mark_scan_error, transaction, execute, commit.
  destruct fault as [|m|m]; [contradiction | |]; exists m.
  - reflexivity.
  - unfold bind, get, ret, modify, raise. destruct (scan_by_id id db); reflexivity.
Qed.

Lemma mark_scan_without_tests_run (id : nat) (now : Time) (db : Database) :
  mark_scan_without_tests id now db =
    (Returned tt,
     match scan_by_id id db with
     | Some s =>
         if status_eqb (scan_status s) PENDING
         then update_scan id (set_scan_outcome COMPLETED now) db
         else db
     | None => db
     end).
Proof.
  unfold mark_scan_without_tests, transaction, execute, bind, get, ret, modify.
  destruct (scan_by_id id db) as [s|]; [|reflexivity].
  destruct (status_eqb (scan_status s) PENDING); reflexivity.
Qed.

Lemma scan_by_id_update_scan (id : nat) (st : TestStatusEnum) (now : Time)
    (db : Database) :
  scan_by_id id (update_scan id (set_scan_outcome st now) db)
  = option_map (set_scan_outcome st now) (scan_by_id id db).
Proof.
  unfold scan_by_id, update_scan, first_where. simpl.
  apply find_update_first_same. reflexivity.
Qed.

(** C1: the final check of a background execution sets the status of the
    scan to ERROR when a reloaded result is ERROR, or the number of results
    reloaded differs from the number of units launched, or a result is in a
    status other than COMPLETED; otherwise it sets it to COMPLETED; in both
    cases it sets [completed_at], and it leaves the results as they are. *)
Theorem scan_status_aggregation
    (db : Database) (id launched : nat) (now : Time) (scan : Scan) :
  scan_by_id id db = Some scan ->
  exists scan',
    fst (final_check id launched now db) = Returned tt /\
    scan_by_id id (snd (final_check id launched now db)) = Some scan' /\
    scan_results (snd (final_check id launched now db)) = scan_results db /\
    scan_completed_at scan' = Some now /\
    (Exists (fun r => sr_status r = ERROR) (results_of id db) \/
     List.length (results_of id db) <> launched \/
     Exists (fun r => sr_status r <> COMPLETED) (results_of id db) ->
     scan_status scan' = ERROR) /\
    (~ (Exists (fun r => sr_status r = ERROR) (results_of id db) \/
        List.length (results_of id db) <> launched \/
        Exists (fun r => sr_status r <> COMPLETED) (results_of id db)) ->
     scan_status scan' = COMPLETED).
Proof.
  intros Hscan. rewrite final_check_run, Hscan. simpl.
  rewrite scan_by_id_update_scan, Hscan. simpl.
  eexists. split; [reflexivity|]. split; [reflexivity|].
  split; [reflexivity|]. split; [reflexivity|].
  simpl. rewrite overall_status_closed_form.
  destruct (all_completed (results_of id db)) eqn:Hall; simpl.
  - destruct (Nat.eqb_spec (List.length (results_of id db)) launched) as [Hlen|Hlen].
    + split; [|reflexivity].
      assert (~ Exists (fun r => sr_status r <> COMPLETED) (results_of id db)) as Hno.
      { intros H. apply all_completed_false_iff in H. congruence. }
      intros [H|[H|H]]; [|contradiction|contradiction].
      exfalso. apply Hno. apply Exists_exists in H. destruct H as [r [Hin Hr]].
      apply Exists_exists. exists r. split; [exact Hin|]. rewrite Hr. discriminate.
    + split; [reflexivity|]. intros H. exfalso. apply H. right. left. exact Hlen.
  - split; [reflexivity|]. intros H. exfalso. apply H. right. right.
    apply all_completed_false_iff. exact Hall.
Qed.

Lemma scan_status_aggregation_witness :
  exists scan',
    fst (final_check 1 10 3000%Z store_with_pending_scan) = Returned tt /\
    scan_by_id 1 (snd (final_check 1 10 3000%Z store_with_pending_scan)) = Some scan' /\
    scan_results (snd (final_check 1 10 3000%Z store_with_pending_scan))
      = scan_results store_with_pending_scan /\
    scan_completed_at scan' = Some 3000%Z /\
    (Exists (fun r => sr_status r = ERROR) (results_of 1 store_with_pending_scan) \/
     List.length (results_of 1 store_with_pending_scan) <> 10 \/
     Exists (fun r => sr_status r <> COMPLETED) (results_of 1 store_with_pending_scan) ->
     scan_status scan' = ERROR) /\
    (~ (Exists (fun r => sr_status r = ERROR) (results_of 1 store_with_pending_scan) \/
        List.length (results_of 1 store_with_pending_scan) <> 10 \/
        Exists (fun r => sr_status r <> COMPLETED) (results_of 1 store_with_pending_scan)) ->
     scan_status scan' = COMPLETED).
Proof.
  apply (scan_status_aggregation store_with_pending_scan 1 10 3000%Z first_scan).
  vm_compute. reflexivity.
Defined.

(** Waiting for the tasks never raises. *)
Lemma wait_for_tasks_returns (url : string) (sched : list nat)
    (tasks : list UnitTask) (db : Database) :
  fst (wait_for_tasks url sched tasks db) = Returned tt.
Proof.
  unfold wait_for_tasks, try_except, bind, ret.
  destruct (gather url sched tasks db) as [[ts|e] db']; reflexivity.
Qed.

Lemma fetch_scan_result_ids_ok (id : nat) (env : ScanEnv) (db : Database) :
  fetch_raises env = None ->
  fetch_scan_result_ids id env db = (Returned (Some (scan_result_ids_of id db)), db).
Proof.
  intros H. unfold fetch_scan_result_ids, try_except, bind, execute.
  rewrite H. reflexivity.
Qed.

Lemma fetch_scan_result_ids_raised (id : nat) (env : ScanEnv) (db : Database)
    (failure : FetchFailure) :
  fetch_raises env = Some failure ->
  fetch_scan_result_ids id env db =
    (mark_scan_error id (scan_now env) (mark_error_fault failure) ;; ret None) db.
Proof.
  intros H. unfold fetch_scan_result_ids, try_except, execute, error_write_fault.
  rewrite H. reflexivity.
Qed.

Lemma fetch_scan_result_ids_marked (id : nat) (env : ScanEnv) (db : Database)
    (failure : FetchFailure) :
  fetch_raises env = Some failure ->
  mark_error_fault failure = NoFault ->
  fetch_scan_result_ids id env db =
    (Returned None, snd (mark_scan_error id (scan_now env) NoFault db)).
Proof.
  intros H Hok. rewrite (fetch_scan_result_ids_raised id env db failure H), Hok.
  unfold bind. rewrite mark_scan_error_run. reflexivity.
Qed.

Lemma fetch_scan_result_ids_refused (id : nat) (env : ScanEnv) (db : Database)
    (failure : FetchFailure) :
  fetch_raises env = Some failure ->
  mark_error_fault failure <> NoFault ->
  exists msg,
    fetch_scan_result_ids id env db = (Raised (SQLAlchemyError msg), db).
Proof.
  intros H Hno. rewrite (fetch_scan_result_ids_raised id env db failure H).
  destruct (mark_scan_error_refused id (scan_now env) _ db Hno) as [msg Hm].
  exists msg. unfold bind. rewrite Hm. reflexivity.
Qed.

(** The final check is the last thing a background execution does once it
    has launched units: its store is the one the gather left, checked
    against the number of ids fetched. *)
Lemma run_all_ends_with_final_check
    (db : Database) (id : nat) (url : string) (env : ScanEnv)
    (first_id : nat) (other_ids : list nat) :
  fetch_raises env = None ->
  scan_result_ids_of id db = first_id :: other_ids ->
  run_all_tests_for_scan id url env db =
    (Returned (first_id :: other_ids),
     snd (final_check id (List.length (first_id :: other_ids)) (scan_now env)
            (snd (wait_for_tasks url (schedule env)
                    (map (new_task env) (first_id :: other_ids)) db)))).
Proof.
  intros Hfetch Hids. unfold run_all_tests_for_scan.
  unfold bind at 1. rewrite (fetch_scan_result_ids_ok id env db Hfetch), Hids.
  unfold bind at 1.
  pose proof (wait_for_tasks_returns url (schedule env)
                (map (new_task env) (first_id :: other_ids)) db) as Hw.
  destruct (wait_for_tasks url (schedule env)
              (map (new_task env) (first_id :: other_ids)) db) as [r joined].
  simpl in Hw. subst r. unfold bind. rewrite !final_check_run. reflexivity.
Qed.

(** ** The two early exits of a background execution *)

Lemma run_all_without_results
    (db : Database) (id : nat) (url : string) (env : ScanEnv) :
  fetch_raises env = None ->
  scan_result_ids_of id db = [] ->
  run_all_tests_for_scan id url env db =
    (Returned [], snd (mark_scan_without_tests id (scan_now env) db)).
Proof.
  intros Hfetch Hids. unfold run_all_tests_for_scan.
  unfold bind at 1. rewrite (fetch_scan_result_ids_ok id env db Hfetch), Hids.
  unfold bind. rewrite !mark_scan_without_tests_run. reflexivity.
Qed.

Lemma run_all_fetch_raised
    (db : Database) (id : nat) (url : string) (env : ScanEnv)
    (failure : FetchFailure) :
  fetch_raises env = Some failure ->
  run_all_tests_for_scan id url env db =
    (mark_scan_error id (scan_now env) (mark_error_fault failure) ;; ret []) db.
Proof.
  intros Hfetch. unfold run_all_tests_for_scan.
  unfold bind at 1. rewrite (fetch_scan_result_ids_raised id env db failure Hfetch).
  unfold bind. destruct (mark_scan_error _ _ _ db) as [[[]|e] s]; reflexivity.
Qed.

Lemma run_all_fetch_marked
    (db : Database) (id : nat) (url : string) (env : ScanEnv)
    (failure : FetchFailure) :
  fetch_raises env = Some failure ->
  mark_error_fault failure = NoFault ->
  run_all_tests_for_scan id url env db =
    (Returned [], snd (mark_scan_error id (scan_now env) NoFault db)).
Proof.
  intros Hfetch Hok. rewrite (run_all_fetch_raised db id url env failure Hfetch), Hok.
  unfold bind. rewrite mark_scan_error_run. reflexivity.
Qed.

Lemma run_all_fetch_refused
    (db : Database) (id : nat) (url : string) (env : ScanEnv)
    (failure : FetchFailure) :
  fetch_raises env = Some failure ->
  mark_error_fault failure <> NoFault ->
  exists msg,
    run_all_tests_for_scan id url env db = (Raised (SQLAlchemyError msg), db).
Proof.
  intros Hfetch Hno. rewrite (run_all_fetch_raised db id url env failure Hfetch).
  destruct (mark_scan_error_refused id (scan_now env) _ db Hno) as [msg Hm].
  exists msg. unfold bind. rewrite Hm. reflexivity.
Qed.

(** On a PENDING scan without results the background execution ends with
    the scan COMPLETED, where the specification says ERROR. *)
Lemma no_results_counterexample :
  scan_result_ids_of 1 store_with_bare_scan = [] /\
  fst (run_all_tests_for_scan 1 "http://example.com/" quiet_scan_env
         store_with_bare_scan) = Returned [] /\
  option_map scan_status
    (scan_by_id 1
       (snd (run_all_tests_for_scan 1 "http://example.com/" quiet_scan_env
               store_with_bare_scan))) = Some COMPLETED /\
  option_map scan_status
    (scan_by_id 1
       (snd (run_all_tests_for_scan 1 "http://example.com/" quiet_scan_env
               store_with_bare_scan))) <> Some ERROR.
Proof.
  repeat split; try reflexivity. vm_compute. discriminate.
Qed.

(** C2 (amended): when the id list loaded for a scan is empty, the
    background execution sets the status of the scan, if it is still
    PENDING, to COMPLETED with [completed_at] set, and stops without
    launching any unit: no task is created and no ScanResult row changes. *)
Theorem no_results_marks_scan_completed
    (db : Database) (id : nat) (url : string) (env : ScanEnv) (scan : Scan) :
  fetch_raises env = None ->
  scan_result_ids_of id db = [] ->
  scan_by_id id db = Some scan ->
  scan_status scan = PENDING ->
  exists scan',
    fst (run_all_tests_for_scan id url env db) = Returned [] /\
    scan_results (snd (run_all_tests_for_scan id url env db)) = scan_results db /\
    scan_by_id id (snd (run_all_tests_for_scan id url env db)) = Some scan' /\
    scan_status scan' = COMPLETED /\
    scan_completed_at scan' = Some (scan_now env).
Proof.
  intros Hfetch Hids Hscan Hpending.
  rewrite (run_all_without_results db id url env Hfetch Hids).
  rewrite mark_scan_without_tests_run, Hscan, Hpending. simpl.
  rewrite scan_by_id_update_scan, Hscan. simpl.
  eexists. repeat split; reflexivity.
Qed.

Lemma no_results_marks_scan_completed_witness :
  exists scan',
    fst (run_all_tests_for_scan 1 "http://example.com/" quiet_scan_env
           store_with_bare_scan) = Returned [] /\
    scan_results (snd (run_all_tests_for_scan 1 "http://example.com/" quiet_scan_env
                         store_with_bare_scan)) = scan_results store_with_bare_scan /\
    scan_by_id 1 (snd (run_all_tests_for_scan 1 "http://example.com/" quiet_scan_env
                         store_with_bare_scan)) = Some scan' /\
    scan_status scan' = COMPLETED /\
    scan_completed_at scan' = Some (scan_now quiet_scan_env).
Proof.
  apply (no_results_marks_scan_completed store_with_bare_scan 1
           "http://example.com/" quiet_scan_env
           bare_scan);
    reflexivity.
Defined.

(** A scan that is no longer PENDING is left as it is on that exit. *)
Lemma no_results_leaves_settled_scan
    (db : Database) (id : nat) (url : string) (env : ScanEnv) (scan : Scan) :
  fetch_raises env = None ->
  scan_result_ids_of id db = [] ->
  scan_by_id id db = Some scan ->
  scan_status scan <> PENDING ->
  run_all_tests_for_scan id url env db = (Returned [], db).
Proof.
  intros Hfetch Hids Hscan Hst.
  rewrite (run_all_without_results db id url env Hfetch Hids).
  rewrite mark_scan_without_tests_run, Hscan.
  apply status_eqb_neq in Hst. rewrite Hst. reflexivity.
Qed.

(** The store refuses the fetch of the ids of the first scan, and then the
    transaction that marks the scan as well: the exception of the second
    leaves the execution, and the scan is as the request created it,
    PENDING with no [completed_at]. *)
Lemma fetch_failure_counterexample :
  fst (run_all_tests_for_scan 1 "http://example.com/" unreachable_store_env
         store_with_pending_scan)
    = Raised (SQLAlchemyError "connection refused") /\
  scan_by_id 1 (snd (run_all_tests_for_scan 1 "http://example.com/"
                       unreachable_store_env store_with_pending_scan))
    = Some first_scan /\
  scan_status first_scan = PENDING /\
  scan_completed_at first_scan = None.
Proof. vm_compute. repeat split; reflexivity. Qed.

(** C7 (amended): when the fetch of the ScanResult id list raises, no task
    is created and the tables of results, test definitions and websites are
    what they were, and the execution runs the transaction that marks the
    scan.  When the store takes that transaction, the scan is ERROR with
    [completed_at] set and the execution returns; when the store refuses it
    as well, its exception leaves the execution and the scan is what it
    was. *)
Theorem fetch_failure_marks_scan_error
    (db : Database) (id : nat) (url : string) (env : ScanEnv)
    (failure : FetchFailure) (scan : Scan) :
  fetch_raises env = Some failure ->
  scan_by_id id db = Some scan ->
  scan_results (snd (run_all_tests_for_scan id url env db)) = scan_results db /\
  test_definitions (snd (run_all_tests_for_scan id url env db)) = test_definitions db /\
  websites (snd (run_all_tests_for_scan id url env db)) = websites db /\
  (mark_error_fault failure = NoFault ->
   fst (run_all_tests_for_scan id url env db) = Returned [] /\
   exists scan',
     scan_by_id id (snd (run_all_tests_for_scan id url env db)) = Some scan' /\
     scan_status scan' = ERROR /\
     scan_completed_at scan' = Some (scan_now env)) /\
  (mark_error_fault failure <> NoFault ->
   (exists msg,
      fst (run_all_tests_for_scan id url env db) = Raised (SQLAlchemyError msg)) /\
   snd (run_all_tests_for_scan id url env db) = db).
Proof.
  intros Hfetch Hscan.
  destruct (mark_error_fault failure) as [|m|m] eqn:Hfault.
  - rewrite (run_all_fetch_marked db id url env failure Hfetch Hfault).
    rewrite mark_scan_error_run, Hscan. cbn [fst snd].
    do 3 (split; [reflexivity|]). split; [|intros H; contradiction].
    intros _. split; [reflexivity|].
    rewrite scan_by_id_update_scan, Hscan. cbn [option_map].
    eexists. repeat split; reflexivity.
  - destruct (run_all_fetch_refused db id url env failure Hfetch) as [msg Hrun];
      [rewrite Hfault; discriminate|].
    rewrite Hrun. cbn [fst snd].
    do 3 (split; [reflexivity|]). split; [intros H; discriminate H|].
    intros _. split; [exists msg|]; reflexivity.
  - destruct (run_all_fetch_refused db id url env failure Hfetch) as [msg Hrun];
      [rewrite Hfault; discriminate|].
    rewrite Hrun. cbn [fst snd].
    do 3 (split; [reflexivity|]). split; [intros H; discriminate H|].
    intros _. split; [exists msg|]; reflexivity.
Qed.

Lemma fetch_failure_marks_scan_error_witness :
  scan_results (snd (run_all_tests_for_scan 1 "http://example.com/"
                       failing_fetch_env store_with_pending_scan))
    = scan_results store_with_pending_scan /\
  test_definitions (snd (run_all_tests_for_scan 1 "http://example.com/"
                           failing_fetch_env store_with_pending_scan))
    = test_definitions store_with_pending_scan /\
  websites (snd (run_all_tests_for_scan 1 "http://example.com/"
                   failing_fetch_env store_with_pending_scan))
    = websites store_with_pending_scan /\
  (NoFault = NoFault ->
   fst (run_all_tests_for_scan 1 "http://example.com/" failing_fetch_env
          store_with_pending_scan) = Returned [] /\
   exists scan',
     scan_by_id 1 (snd (run_all_tests_for_scan 1 "http://example.com/"
                          failing_fetch_env store_with_pending_scan)) = Some scan' /\
     scan_status scan' = ERROR /\
     scan_completed_at scan' = Some (scan_now failing_fetch_env)) /\
  (NoFault <> NoFault ->
   (exists msg,
      fst (run_all_tests_for_scan 1 "http://example.com/" failing_fetch_env
             store_with_pending_scan) = Raised (SQLAlchemyError msg)) /\
   snd (run_all_tests_for_scan 1 "http://example.com/" failing_fetch_env
          store_with_pending_scan) = store_with_pending_scan).
Proof.
  apply (fetch_failure_marks_scan_error store_with_pending_scan 1
           "http://example.com/" failing_fetch_env
           {| fetch_message := "connection refused"; mark_error_fault := NoFault |}
           first_scan).
  - reflexivity.
  - vm_compute. reflexivity.
Defined.

(** ** Scan creation *)

Lemma create_scan_empty_catalog (db : Database) (url : string) (env : RequestEnv) :
  test_definitions db = [] ->
  exists e,
    create_scan url env db = (Raised e, db) /\
    (e = HTTPException 500 "No test definitions found in the database." \/
     exists msg, e = SQLAlchemyError msg).
Proof.
  intros Hcat. unfold create_scan, transaction.
  unfold bind at 1. unfold await_stmt at 1.
  destruct (stmt_raises env 0) as [m0|].
  { eexists. split; [reflexivity|]. right. eexists. reflexivity. }
  unfold ret at 1. unfold bind at 1. unfold get at 1.
  unfold bind at 1.
  destruct (website_by_url url db) as [w|].
  - unfold ret at 1. unfold bind at 1. unfold await_stmt at 1.
    destruct (stmt_raises env 2) as [m2|].
    { eexists. split; [reflexivity|]. right. eexists. reflexivity. }
    unfold ret at 1. unfold bind at 1. unfold get at 1. unfold bind at 1.
    rewrite Hcat. unfold raise at 1.
    eexists. split; [reflexivity|]. left. reflexivity.
  - unfold bind at 1. unfold modify at 1. unfold bind at 1. unfold await_stmt at 1.
    destruct (stmt_raises env 1) as [m1|].
    { eexists. split; [reflexivity|]. right. eexists. reflexivity. }
    unfold ret at 1 2. unfold bind at 1. unfold await_stmt at 1.
    destruct (stmt_raises env 2) as [m2|].
    { eexists. split; [reflexivity|]. right. eexists. reflexivity. }
    unfold ret at 1. unfold bind at 1. unfold get at 1. unfold bind at 1.
    unfold add_website at 1, set_websites at 1. cbn [test_definitions].
    rewrite Hcat. unfold raise at 1.
    eexists. split; [reflexivity|]. left. reflexivity.
Qed.

(** C6: with an empty test catalog, scan creation fails with an HTTP 500
    error and the store is what it was before the request: no Scan, no
    ScanResult and no Website change is committed. *)
Theorem empty_catalog_rejected (db : Database) (url : string) (env : RequestEnv) :
  test_definitions db = [] ->
  exists detail, start_scan url env db = (Raised (HTTPException 500 detail), db).
Proof.
  intros Hcat.
  destruct (create_scan_empty_catalog db url env Hcat) as [e [Hrun He]].
  unfold start_scan, try_except. rewrite Hrun.
  destruct He as [->|[msg ->]]; simpl; eexists; reflexivity.
Qed.

Lemma empty_catalog_rejected_witness :
  exists detail,
    start_scan "http://example.com/" quiet_request_env store_with_bare_scan
    = (Raised (HTTPException 500 detail), store_with_bare_scan).
Proof.
  apply (empty_catalog_rejected store_with_bare_scan "http://example.com/"
           quiet_request_env).
  reflexivity.
Defined.

(** Inversion of blocks that returned. *)
Lemma bind_returned {S A B : Type} (c : M S A) (k : A -> M S B) (s s' : S) (b : B) :
  bind c k s = (Returned b, s') ->
  exists a s1, c s = (Returned a, s1) /\ k a s1 = (Returned b, s').
Proof.
  unfold bind. destruct (c s) as [[a|e] s1]; intros H; [eauto | discriminate].
Qed.

Lemma transaction_returned {S A : Type} (body : M S A) (s s' : S) (a : A) :
  transaction body s = (Returned a, s') -> body s = (Returned a, s').
Proof.
  unfold transaction. destruct (body s) as [[x|e] s1]; intros H;
    [exact H | discriminate].
Qed.

(** A transaction that raises leaves the store as it found it. *)
Lemma transaction_raised {S A : Type} (body : M S A) (s s' : S) (e : PyException) :
  transaction body s = (Raised e, s') -> s' = s.
Proof.
  unfold transaction. destruct (body s) as [[x|e'] s1]; intros H;
    inversion H; reflexivity.
Qed.

Lemma await_stmt_returned (env : RequestEnv) (k : nat) (s s' : Database) (u : unit) :
  await_stmt env k s = (Returned u, s') -> s' = s.
Proof.
  unfold await_stmt. destruct (stmt_raises env k); unfold raise, ret; intros H;
    [discriminate | inversion H; reflexivity].
Qed.

Lemma for_each_modify {S A : Type} (g : A -> S -> S) (xs : list A) (s : S) :
  for_each xs (fun x => modify (g x)) s
  = (Returned tt, fold_left (fun s x => g x s) xs s).
Proof.
  revert s. induction xs as [|x rest IH]; intros s; simpl; [reflexivity|].
  unfold bind, modify. apply IH.
Qed.

(** The rows step 4 adds for a new scan: one per test definition, in the
    order of the catalog, PENDING and NOT_RUN, under fresh keys. *)
Lemma nodup_snoc {A : Type} (ids : list A) (k : A) :
  NoDup ids -> ~ In k ids -> NoDup (ids ++ [k]).
Proof.
  induction ids as [|x rest IH]; simpl; intros Hnd Hk.
  - constructor; [tauto | constructor].
  - inversion Hnd as [|? ? Hx Hrest]; subst. constructor.
    + rewrite in_app_iff. simpl. intros [H|[H|[]]]; [tauto | subst; tauto].
    + apply IH; tauto.
Qed.

Lemma nodup_snoc_fresh (ids : list nat) :
  NoDup ids -> NoDup (ids ++ [next_id ids]).
Proof. intros H. apply nodup_snoc; [exact H | apply next_id_fresh]. Qed.

Lemma add_scan_results_effect (sid : nat) (tests : list TestDefinition) (db : Database) :
  exists new_rows,
    fold_left (fun s t => add_scan_result sid (td_id t) s) tests db
      = set_scan_results (scan_results db ++ new_rows) db /\
    map sr_test_definition_id new_rows = map td_id tests /\
    Forall (fun r => sr_scan_id r = sid /\ sr_status r = PENDING /\ sr_result r = NOT_RUN)
           new_rows /\
    (NoDup (map sr_id (scan_results db)) ->
     NoDup (map sr_id (scan_results db ++ new_rows))).
Proof.
  revert db. induction tests as [|t rest IH]; intros db.
  - exists []. simpl. rewrite app_nil_r. repeat split; auto.
    destruct db; reflexivity.
  - destruct (IH (add_scan_result sid (td_id t) db))
      as [rows [Hfold [Hmap [Hall Hnd]]]].
    exists ({| sr_id := next_id (map sr_id (scan_results db));
               sr_scan_id := sid;
               sr_test_definition_id := td_id t;
               sr_status := PENDING;
               sr_result := NOT_RUN;
               sr_summary := None; sr_details := None; sr_recommendations := None;
               sr_started_at := None; sr_completed_at := None |} :: rows).
    cbn [fold_left]. rewrite Hfold.
    unfold add_scan_result, set_scan_results in *. cbn in *.
    rewrite <- app_assoc in *. cbn in *.
    split; [reflexivity|].
    split; [rewrite Hmap; reflexivity|].
    split; [constructor; [auto | exact Hall]|].
    intros Hold. apply Hnd. rewrite map_app. cbn.
    apply nodup_snoc_fresh. exact Hold.
Qed.

(** What a transaction of [start_scan] that returns has committed. *)
Lemma create_scan_returned (url : string) (env : RequestEnv) (db db' : Database)
    (r : ScanResponse * (nat * string)) :
  create_scan url env db = (Returned r, db') ->
  exists new_scan new_rows final_scan_obj,
    snd r = (scan_id new_scan, url) /\
    scan_id new_scan = next_id (map scan_id (scans db)) /\
    scan_status new_scan = PENDING /\
    scan_completed_at new_scan = None /\
    scans db' = scans db ++ [new_scan] /\
    scan_results db' = scan_results db ++ new_rows /\
    test_definitions db' = test_definitions db /\
    test_definitions db <> [] /\
    map sr_test_definition_id new_rows = map td_id (test_definitions db) /\
    Forall (fun row => sr_scan_id row = scan_id new_scan /\
                       sr_status row = PENDING /\ sr_result row = NOT_RUN) new_rows /\
    (NoDup (map sr_id (scan_results db)) ->
     NoDup (map sr_id (scan_results db ++ new_rows))) /\
    scan_by_id (scan_id new_scan) db' = Some final_scan_obj /\
    model_validate final_scan_obj db' = Returned (fst r).
Proof.
  intros H.
  unfold create_scan in H. apply transaction_returned in H.
  apply bind_returned in H. destruct H as [u0 [s0 [H0 H]]].
  apply await_stmt_returned in H0. subst s0.
  apply bind_returned in H. destruct H as [found [s1 [H1 H]]].
  unfold get in H1. inversion H1; subst found s1; clear H1.
  apply bind_returned in H. destruct H as [website [s2 [Hw H]]].
  assert (scans s2 = scans db /\ scan_results s2 = scan_results db /\
          test_definitions s2 = test_definitions db) as [Hs2a [Hs2b Hs2c]].
  { destruct (website_by_url url db) as [w|].
    - unfold ret in Hw. inversion Hw; subst. auto.
    - apply bind_returned in Hw. destruct Hw as [x [t1 [Hm Hw]]].
      unfold modify in Hm. inversion Hm; subst x t1; clear Hm.
      apply bind_returned in Hw. destruct Hw as [x [t2 [Ha Hw]]].
      apply await_stmt_returned in Ha. subst t2.
      unfold ret in Hw. inversion Hw; subst. auto. }
  clear Hw.
  apply bind_returned in H. destruct H as [u2 [s3 [H2 H]]].
  apply await_stmt_returned in H2. subst s3.
  apply bind_returned in H. destruct H as [dbc [s4 [H3 H]]].
  unfold get in H3. inversion H3; subst dbc s4; clear H3.
  apply bind_returned in H. destruct H as [u3 [s5 [Hcat H]]].
  assert (test_definitions s2 <> [] /\ s5 = s2) as [Hne ->].
  { destruct (test_definitions s2); [discriminate Hcat|].
    unfold ret in Hcat. inversion Hcat. split; [discriminate | reflexivity]. }
  clear Hcat.
  apply bind_returned in H. destruct H as [u4 [s6 [H4 H]]].
  unfold modify in H4. inversion H4; subst u4 s6; clear H4.
  apply bind_returned in H. destruct H as [u5 [s7 [H5 H]]].
  apply await_stmt_returned in H5. subst s7.
  apply bind_returned in H. destruct H as [u6 [s8 [H6 H]]].
  rewrite for_each_modify in H6. inversion H6; subst u6 s8; clear H6.
  apply bind_returned in H. destruct H as [u7 [s9 [H7 H]]].
  apply await_stmt_returned in H7. subst s9.
  apply bind_returned in H. destruct H as [u8 [s10 [H8 H]]].
  unfold modify in H8. inversion H8; subst u8 s10; clear H8.
  apply bind_returned in H. destruct H as [u9 [s11 [H9 H]]].
  apply await_stmt_returned in H9. subst s11.
  apply bind_returned in H. destruct H as [dbf [s12 [H10 H]]].
  unfold get in H10. inversion H10; subst dbf s12; clear H10.
  cbn [scan_id] in H.
  match type of H with
  | context [fold_left ?g ?tests ?start] =>
      destruct (add_scan_results_effect (next_id (map scan_id (scans s2)))
                  tests start) as [rows [Hfold [Hmap [Hall Hnd]]]]
  end.
  rewrite Hfold in H.
  match type of H with
  | match scan_by_id ?i ?d with _ => _ end _ = _ =>
      destruct (scan_by_id i d) as [final_scan_obj|] eqn:Hfinal; [|discriminate H]
  end.
  apply bind_returned in H. destruct H as [response_data [s13 [Hv H]]].
  unfold lift in Hv. inversion Hv as [[Hvalid Hs13]]. subst s13. clear Hv.
  apply bind_returned in H. destruct H as [u10 [s14 [H11 H]]].
  apply await_stmt_returned in H11. subst s14.
  unfold ret in H. inversion H; subst r db'; clear H.
  exists {| scan_id := next_id (map scan_id (scans s2));
            scan_website_id := w_id website;
            scan_status := PENDING;
            scan_created_at := request_now env;
            scan_completed_at := None |}, rows, final_scan_obj.
  unfold update_website, set_websites, set_scan_results, add_scan, set_scans in *.
  cbn [fst snd scan_id scan_status scan_completed_at
       scans scan_results test_definitions websites] in *.
  rewrite Hs2a, Hs2b, Hs2c in *.
  repeat (split; [reflexivity|]).
  split; [exact Hne|].
  split; [exact Hmap|].
  split; [exact Hall|].
  split; [exact Hnd|].
  split; [exact Hfinal | exact Hvalid].
Qed.

Lemma start_scan_returned (url : string) (env : RequestEnv) (db db' : Database)
    (r : ScanResponse * (nat * string)) :
  start_scan url env db = (Returned r, db') ->
  create_scan url env db = (Returned r, db').
Proof.
  unfold start_scan, try_except.
  destruct (create_scan url env db) as [[x|e] s]; intros H; [exact H|].
  exfalso. destruct e; simpl in H; discriminate H.
Qed.

(** A request that fails leaves the store as it was. *)
Lemma start_scan_raised (url : string) (env : RequestEnv) (db db' : Database)
    (e : PyException) :
  start_scan url env db = (Raised e, db') -> db' = db.
Proof.
  unfold start_scan, try_except.
  destruct (create_scan url env db) as [[x|e0] s] eqn:E; intros H; [discriminate H|].
  unfold create_scan in E. apply transaction_raised in E. subst s.
  destruct e0; simpl in H; inversion H; reflexivity.
Qed.

Lemma filter_none {A : Type} (p : A -> bool) (rows : list A) :
  (forall r, In r rows -> p r = false) -> filter p rows = [].
Proof.
  induction rows as [|x rest IH]; simpl; intros H; [reflexivity|].
  rewrite (H x (or_introl eq_refl)). apply IH. intros r Hr. apply H. right. exact Hr.
Qed.

Lemma filter_all {A : Type} (p : A -> bool) (rows : list A) :
  (forall r, In r rows -> p r = true) -> filter p rows = rows.
Proof.
  induction rows as [|x rest IH]; simpl; intros H; [reflexivity|].
  rewrite (H x (or_introl eq_refl)). f_equal. apply IH.
  intros r Hr. apply H. right. exact Hr.
Qed.

(** No row refers to the scan a request is about to create. *)
Lemma no_result_of_next_scan (db : Database) (r : ScanResult) :
  foreign_keys_hold db -> In r (scan_results db) ->
  (sr_scan_id r =? next_id (map scan_id (scans db))) = false.
Proof.
  intros Hfk Hin. apply Nat.eqb_neq. intros E.
  apply (next_id_fresh (map scan_id (scans db))). rewrite <- E. apply Hfk. exact Hin.
Qed.

Lemma with_test_definitions_fst (results : list ScanResult) (db : Database)
    (l : list (ScanResult * TestDefinition)) :
  with_test_definitions results db = Some l -> map fst l = results.
Proof.
  revert l. induction results as [|r rest IH]; simpl; intros l H.
  - inversion H. reflexivity.
  - destruct (test_definition_by_id (sr_test_definition_id r) db); [|discriminate].
    destruct (with_test_definitions rest db) as [l'|]; [|discriminate].
    inversion H. simpl. rewrite (IH l' eq_refl). reflexivity.
Qed.

Lemma model_validate_returned (scan : Scan) (db : Database) (resp : ScanResponse) :
  model_validate scan db = Returned resp ->
  response_scan resp = scan /\
  map fst (response_results resp) = results_of (scan_id scan) db.
Proof.
  unfold model_validate.
  destruct (first_where _ (websites db)) as [w|]; [|discriminate].
  destruct (with_test_definitions (results_of (scan_id scan) db) db) as [l|] eqn:E;
    [|discriminate].
  intros H. inversion H. simpl. split; [reflexivity|].
  apply (with_test_definitions_fst _ _ _ E).
Qed.

(** C5: after a scan-creation request that succeeds on a store whose catalog
    holds N test definitions, the new scan has exactly N ScanResult rows, one
    per test definition in the order of the catalog, each PENDING with outcome
    NOT_RUN; the scan is PENDING; and the response carries these rows. *)
Theorem scan_creation_results
    (db db' : Database) (url : string) (env : RequestEnv)
    (resp : ScanResponse) (task : nat * string) :
  foreign_keys_hold db ->
  start_scan url env db = (Returned (resp, task), db') ->
  List.length (results_of (fst task) db') = List.length (test_definitions db) /\
  map sr_test_definition_id (results_of (fst task) db')
    = map td_id (test_definitions db) /\
  Forall (fun r => sr_status r = PENDING /\ sr_result r = NOT_RUN)
         (results_of (fst task) db') /\
  (exists scan, scan_by_id (fst task) db' = Some scan /\
                scan_status scan = PENDING /\
                response_scan resp = scan) /\
  map fst (response_results resp) = results_of (fst task) db'.
Proof.
  intros Hfk Hrun. apply start_scan_returned in Hrun.
  destruct (create_scan_returned _ _ _ _ _ Hrun)
    as (new_scan & rows & final & Htask & Hid & Hst & _ & Hscans & Hres & _ & _
         & Hmap & Hall & _ & Hfinal & Hvalid).
  simpl in Htask. rewrite Htask. cbn [fst].
  assert (results_of (scan_id new_scan) db' = rows) as Hrows.
  { unfold results_of. rewrite Hres, filter_app.
    rewrite filter_none, filter_all; [reflexivity | |].
    - intros r Hr. rewrite Forall_forall in Hall. apply Nat.eqb_eq.
      apply (Hall r Hr).
    - intros r Hr. rewrite Hid. apply no_result_of_next_scan; assumption. }
  assert (final = new_scan) as ->.
  { unfold scan_by_id, first_where in Hfinal. rewrite Hscans in Hfinal.
    rewrite find_app_none in Hfinal.
    - simpl in Hfinal. rewrite Nat.eqb_refl in Hfinal. inversion Hfinal. reflexivity.
    - destruct (find _ (scans db)) as [s|] eqn:E; [|reflexivity].
      exfalso. apply (find_key_in _ scan_id) in E. destruct E as [Hin Hk].
      apply (next_id_fresh (map scan_id (scans db))). rewrite <- Hid, <- Hk.
      apply in_map. exact Hin. }
  destruct (model_validate_returned _ _ _ Hvalid) as [Hrs Hrr].
  rewrite Hrows in *.
  split; [rewrite <- (length_map sr_test_definition_id), Hmap; apply length_map|].
  split; [exact Hmap|].
  split.
  { rewrite Forall_forall in *. intros r Hr. destruct (Hall r Hr) as [_ H]. exact H. }
  split; [exists new_scan; auto | exact Hrr].
Qed.

Lemma foreign_keys_ok_sound (db : Database) :
  foreign_keys_ok db = true -> foreign_keys_hold db.
Proof.
  unfold foreign_keys_ok, foreign_keys_hold. rewrite forallb_forall.
  intros H r Hr. specialize (H r Hr). apply existsb_exists in H.
  destruct H as [k [Hk E]]. apply Nat.eqb_eq in E. rewrite E. exact Hk.
Qed.

Lemma scan_creation_results_witness :
  exists resp,
    second_response = Some resp /\
    List.length (results_of 2 (snd second_request))
      = List.length (test_definitions store_with_pending_scan) /\
    map sr_test_definition_id (results_of 2 (snd second_request))
      = map td_id (test_definitions store_with_pending_scan) /\
    Forall (fun r => sr_status r = PENDING /\ sr_result r = NOT_RUN)
           (results_of 2 (snd second_request)) /\
    (exists scan, scan_by_id 2 (snd second_request) = Some scan /\
                  scan_status scan = PENDING /\
                  response_scan resp = scan) /\
    map fst (response_results resp) = results_of 2 (snd second_request).
Proof.
  destruct second_response as [resp|] eqn:E; [|vm_compute in E; discriminate E].
  exists resp. split; [reflexivity|].
  apply (scan_creation_results store_with_pending_scan (snd second_request)
           "http://example.org/" quiet_request_env resp (2, "http://example.org/")).
  - apply foreign_keys_ok_sound. vm_compute. reflexivity.
  - vm_compute in E. inversion E; subst resp. vm_compute. reflexivity.
Defined.

(** ** Seeding the test catalog *)

Lemma test_definition_by_name_none (name : string) (db : Database) :
  test_definition_by_name name db = None <-> ~ In name (catalog_names db).
Proof.
  unfold test_definition_by_name, first_where, catalog_names.
  induction (test_definitions db) as [|t rest IH]; simpl; [tauto|].
  destruct (String.eqb_spec (td_name t) name) as [E|E].
  - split; [discriminate | intros H; exfalso; apply H; left; exact E].
  - rewrite IH. tauto.
Qed.

Lemma seed_one_run (test_data : string * string) (db : Database) :
  seed_one test_data db =
    (Returned tt,
     match test_definition_by_name (fst test_data) db with
     | None => add_test_definition (fst test_data) (snd test_data) db
     | Some _ => db
     end).
Proof.
  unfold seed_one, execute, bind, get, ret, modify.
  destruct (test_definition_by_name (fst test_data) db); reflexivity.
Qed.

(** The loop never raises, so the transaction around it commits. *)
Lemma seed_run (defs : list (string * string)) (db : Database) :
  seed defs db = (Returned tt, snd (for_each defs seed_one db)) /\
  fst (for_each defs seed_one db) = Returned tt.
Proof.
  assert (fst (for_each defs seed_one db) = Returned tt) as H.
  { revert db. induction defs as [|d rest IH]; intros db; simpl; [reflexivity|].
    unfold bind. rewrite seed_one_run. apply IH. }
  split; [|exact H]. unfold seed, transaction.
  destruct (for_each defs seed_one db) as [[[]|e] db']; simpl in *;
    [reflexivity | discriminate H].
Qed.

(** Seeding a name that the catalog has changes nothing. *)
Lemma seed_one_present (test_data : string * string) (db : Database) :
  In (fst test_data) (catalog_names db) -> seed_one test_data db = (Returned tt, db).
Proof.
  intros H. rewrite seed_one_run.
  destruct (test_definition_by_name (fst test_data) db) eqn:E; [reflexivity|].
  apply test_definition_by_name_none in E. contradiction.
Qed.

(** One pass of the loop body: the names grow by at most the seeded one,
    which is there afterwards, and stay without duplicates. *)
Lemma seed_one_names (test_data : string * string) (db : Database) :
  In (fst test_data) (catalog_names (snd (seed_one test_data db))) /\
  (forall name, In name (catalog_names db) ->
                In name (catalog_names (snd (seed_one test_data db)))) /\
  (NoDup (catalog_names db) -> NoDup (catalog_names (snd (seed_one test_data db)))).
Proof.
  rewrite seed_one_run. cbn [snd].
  destruct (test_definition_by_name (fst test_data) db) eqn:E.
  - split; [|split; auto].
    destruct (in_dec string_dec (fst test_data) (catalog_names db)) as [H|H];
      [exact H|]. apply test_definition_by_name_none in H. congruence.
  - apply test_definition_by_name_none in E.
    unfold catalog_names, add_test_definition, set_test_definitions in *.
    cbn [test_definitions]. rewrite map_app. cbn [map td_name].
    split; [apply in_or_app; right; left; reflexivity|].
    split; [intros name H; apply in_or_app; left; exact H|].
    intros Hnd. apply nodup_snoc; assumption.
Qed.

Lemma for_each_seed_names (defs : list (string * string)) (db : Database) :
  (forall name, In name (map fst defs) ->
                In name (catalog_names (snd (for_each defs seed_one db)))) /\
  (forall name, In name (catalog_names db) ->
                In name (catalog_names (snd (for_each defs seed_one db)))) /\
  (NoDup (catalog_names db) ->
   NoDup (catalog_names (snd (for_each defs seed_one db)))).
Proof.
  revert db. induction defs as [|d rest IH]; intros db.
  - simpl. repeat split; auto. intros name [].
  - cbn [for_each]. unfold bind. rewrite seed_one_run.
    pose proof (seed_one_names d db) as Hone. rewrite seed_one_run in Hone.
    cbn [snd] in Hone. destruct Hone as [Hin [Hkeep Hnd]].
    match goal with
    | |- context [for_each rest seed_one ?d1] =>
        destruct (IH d1) as [IH1 [IH2 IH3]]
    end.
    split; [|split].
    + intros name [<-|H]; [apply IH2; exact Hin | apply IH1; exact H].
    + intros name H. apply IH2. apply Hkeep. exact H.
    + intros H. apply IH3. apply Hnd. exact H.
Qed.

(** A pass over names the catalog already has changes nothing. *)
Lemma for_each_seed_present (defs : list (string * string)) (db : Database) :
  (forall name, In name (map fst defs) -> In name (catalog_names db)) ->
  for_each defs seed_one db = (Returned tt, db).
Proof.
  induction defs as [|d rest IH]; intros H; simpl; [reflexivity|].
  unfold bind. rewrite seed_one_present; [|apply H; left; reflexivity].
  apply IH. intros name Hn. apply H. right. exact Hn.
Qed.

(** C9: seeding is idempotent.  A second run of the seeding step with the
    same list of (name, description) pairs inserts nothing; and when the
    names of the catalog were unique before the first run, they are unique
    after the second, with exactly one row for each name of the list. *)
Theorem seeding_idempotent (defs : list (string * string)) (db : Database) :
  NoDup (catalog_names db) ->
  seed defs (snd (seed defs db)) = (Returned tt, snd (seed defs db)) /\
  NoDup (catalog_names (snd (seed defs (snd (seed defs db))))) /\
  (forall name, In name (map fst defs) ->
     count_occ string_dec
       (catalog_names (snd (seed defs (snd (seed defs db))))) name = 1).
Proof.
  intros Hnd.
  destruct (seed_run defs db) as [Hfirst _]. rewrite Hfirst. cbn [snd].
  destruct (for_each_seed_names defs db) as [Hin [_ Hkeep]].
  assert (seed defs (snd (for_each defs seed_one db))
          = (Returned tt, snd (for_each defs seed_one db))) as Hsecond.
  { destruct (seed_run defs (snd (for_each defs seed_one db))) as [H _].
    rewrite H, for_each_seed_present; [reflexivity | exact Hin]. }
  rewrite Hsecond. cbn [snd].
  split; [reflexivity|]. split; [apply Hkeep; exact Hnd|].
  intros name Hname. apply NoDup_count_occ'; [apply Hkeep; exact Hnd|].
  apply Hin. exact Hname.
Qed.

Lemma seeding_idempotent_witness :
  populate_test_definitions (snd (populate_test_definitions empty_database))
    = (Returned tt, snd (populate_test_definitions empty_database)) /\
  NoDup (catalog_names
           (snd (populate_test_definitions
                   (snd (populate_test_definitions empty_database))))) /\
  (forall name, In name (map fst test_defs) ->
     count_occ string_dec
       (catalog_names
          (snd (populate_test_definitions
                  (snd (populate_test_definitions empty_database))))) name = 1).
Proof.
  apply (seeding_idempotent test_defs empty_database). constructor.
Defined.

(** ** One unit of work *)

(** A probe that returns has set the status COMPLETED. *)
Lemma probe_returned (test_name url : string) (env : UnitEnv) (v v' : ProbeVars) :
  probe test_name url env v = (Returned tt, v') -> final_status v' = COMPLETED.
Proof.
  unfold probe. destruct (String.eqb test_name ssl_test_name).
  - unfold https_probe, try_except, bind, lift, raise_for_status.
    destruct (requests_get env) as [response|e].
    + destruct (http_error_status response).
      * unfold raise. simpl. intros H. inversion H. reflexivity.
      * unfold ret, modify.
        destruct (String.eqb (urlparse_scheme (resp_url response)) "https");
          intros H; inversion H; reflexivity.
    + destruct e as [c m|code d|m|m]; simpl; try discriminate.
      destruct c; simpl; unfold bind, modify; intros H; inversion H; reflexivity.
  - unfold simulated_probe, bind, lift, modify.
    destruct (asyncio_sleep env) as [[]|e]; [|discriminate].
    intros H. inversion H. reflexivity.
Qed.

(** Step 2 never raises; it ends COMPLETED when the probe returned, and with
    ERROR and NOT_RUN when the probe raised. *)
Lemma test_logic_run (test_name url : string) (env : UnitEnv) (v : ProbeVars) :
  exists v',
    test_logic test_name url env v = (Returned tt, v') /\
    ((probe test_name url env v = (Returned tt, v') /\ final_status v' = COMPLETED) \/
     (exists e, fst (probe test_name url env v) = Raised e /\
                final_status v' = ERROR /\ outcome v' = NOT_RUN)).
Proof.
  unfold test_logic, try_except.
  destruct (probe test_name url env v) as [[[]|e] v1] eqn:E.
  - exists v1. split; [reflexivity|]. left. split; [reflexivity|].
    apply (probe_returned _ _ _ _ _ E).
  - simpl. unfold modify. eexists. split; [reflexivity|]. right.
    exists e. repeat split; reflexivity.
Qed.

Lemma test_logic_status (test_name url : string) (env : UnitEnv) :
  final_status (probe_report test_name url env) = COMPLETED \/
  final_status (probe_report test_name url env) = ERROR.
Proof.
  unfold probe_report.
  destruct (test_logic_run test_name url env (initial_vars test_name))
    as [v' [Hrun [[_ H]|[e [_ [H _]]]]]]; rewrite Hrun; simpl; auto.
Qed.

(** Step 1 either ends the unit and leaves the store alone, or marks the row
    it found and continues with the name of its test. *)
Lemma mark_in_progress_run (scan_result_id : nat) (env : UnitEnv) (db : Database) :
  mark_in_progress scan_result_id env db = (Returned None, db) \/
  exists r t,
    scan_result_by_id scan_result_id db = Some r /\
    test_definition_by_id (sr_test_definition_id r) db = Some t /\
    begin_fault env = NoFault /\
    mark_in_progress scan_result_id env db =
      (Returned (Some (td_name t)),
       update_scan_result scan_result_id (set_in_progress (started_now env)) db).
Proof.
  unfold mark_in_progress, try_except, transaction, execute, commit.
  destruct (begin_fault env) as [|m|m] eqn:Hf.
  - unfold bind, get, ret, modify.
    destruct (scan_result_by_id scan_result_id db) as [r|] eqn:Hr; [|left; reflexivity].
    destruct (test_definition_by_id (sr_test_definition_id r) db) as [t|] eqn:Ht;
      [|left; reflexivity].
    right. exists r, t.
    split; [reflexivity|]. split; [exact Ht|]. split; reflexivity.
  - left. reflexivity.
  - left. unfold bind, get, ret, modify, raise.
    destruct (scan_result_by_id scan_result_id db) as [r|]; [|reflexivity].
    destruct (test_definition_by_id (sr_test_definition_id r) db); reflexivity.
Qed.

(** Step 3 never raises; it rewrites the row when the row is there and the
    store takes the transaction, and leaves the store alone otherwise. *)
Lemma write_final_results_run (scan_result_id : nat) (v : ProbeVars) (env : UnitEnv)
    (db : Database) :
  write_final_results scan_result_id v env db =
    (Returned tt,
     match finish_fault env, scan_result_by_id scan_result_id db with
     | NoFault, Some _ =>
         update_scan_result scan_result_id
           (set_final_results v (completed_now env)) db
     | _, _ => db
     end).
Proof.
  unfold write_final_results, try_except, transaction, execute, commit.
  destruct (finish_fault env) as [|m|m].
  - unfold bind, get, ret, modify.
    destruct (scan_result_by_id scan_result_id db); reflexivity.
  - reflexivity.
  - unfold bind, get, ret, modify, raise.
    destruct (scan_result_by_id scan_result_id db); reflexivity.
Qed.

Lemma execute_and_record_run (scan_result_id : nat) (url test_name : string)
    (env : UnitEnv) (db : Database) :
  execute_and_record scan_result_id url test_name env db =
    write_final_results scan_result_id (probe_report test_name url env) env db.
Proof.
  unfold execute_and_record, with_locals, probe_report, bind.
  destruct (test_logic_run test_name url env (initial_vars test_name))
    as [v' [Hrun _]]. rewrite Hrun. reflexivity.
Qed.

Lemma scan_result_by_id_update_same (id : nat) (f : ScanResult -> ScanResult)
    (db : Database) :
  (forall r, sr_id (f r) = sr_id r) ->
  scan_result_by_id id (update_scan_result id f db)
  = option_map f (scan_result_by_id id db).
Proof.
  intros Hf. unfold scan_result_by_id, update_scan_result, first_where. simpl.
  apply find_update_first_same. exact Hf.
Qed.

Lemma scan_result_by_id_update_other (id id' : nat) (f : ScanResult -> ScanResult)
    (db : Database) :
  (forall r, sr_id (f r) = sr_id r) -> id <> id' ->
  scan_result_by_id id' (update_scan_result id f db) = scan_result_by_id id' db.
Proof.
  intros Hf Hne. unfold scan_result_by_id, update_scan_result, first_where. simpl.
  apply find_update_first_other; assumption.
Qed.

Lemma run_single_test_marked (db marked : Database) (id : nat)
    (url test_name : string) (env : UnitEnv) :
  mark_in_progress id env db = (Returned (Some test_name), marked) ->
  run_single_test id url env db =
    write_final_results id (probe_report test_name url env) env marked /\
  exists r, scan_result_by_id id db = Some r /\
            scan_result_by_id id marked = Some (set_in_progress (started_now env) r).
Proof.
  intros Hmark. split.
  - unfold run_single_test, bind. rewrite Hmark. apply execute_and_record_run.
  - destruct (mark_in_progress_run id env db) as [H|[r [t [Hr [_ [_ H]]]]]];
      rewrite H in Hmark; inversion Hmark.
    exists r. split; [exact Hr|].
    rewrite scan_result_by_id_update_same; [rewrite Hr|]; reflexivity.
Qed.

(** C4: for a ScanResult whose begin step succeeded (its status was set to
    IN_PROGRESS), an exception raised by the probe is caught and converted
    to a final write of status ERROR and outcome NOT_RUN: the unit returns,
    so the exception does not leave it, and the ScanResult ends ERROR with
    NOT_RUN and does not remain IN_PROGRESS.  This is the third part, for a
    store that takes the final write; a store that refuses it is the
    persistence failure of the error taxonomy, and the last part says what
    the row is then: as the begin step left it. *)
Theorem probe_failure_recorded (db marked : Database) (id : nat)
    (url test_name : string) (env : UnitEnv) (e : PyException) :
  mark_in_progress id env db = (Returned (Some test_name), marked) ->
  fst (probe test_name url env (initial_vars test_name)) = Raised e ->
  status_of id marked = Some IN_PROGRESS /\
  fst (run_single_test id url env db) = Returned tt /\
  (finish_fault env = NoFault ->
   exists r, scan_result_by_id id (snd (run_single_test id url env db)) = Some r /\
             sr_status r = ERROR /\ sr_result r = NOT_RUN) /\
  (finish_fault env <> NoFault ->
   snd (run_single_test id url env db) = marked).
Proof.
  intros Hmark Hraised.
  destruct (run_single_test_marked db marked id url test_name env Hmark)
    as [Hrun [r [Hr Hmarked]]].
  rewrite Hrun, write_final_results_run. cbn [fst snd].
  assert (final_status (probe_report test_name url env) = ERROR /\
          outcome (probe_report test_name url env) = NOT_RUN) as [Hst Hout].
  { unfold probe_report.
    destruct (test_logic_run test_name url env (initial_vars test_name))
      as [v' [Hlogic [[Hp _]|[e' [_ [H1 H2]]]]]]; rewrite Hlogic; cbn [snd].
    - rewrite Hp in Hraised. discriminate Hraised.
    - auto. }
  split; [unfold status_of; rewrite Hmarked; reflexivity|].
  split; [reflexivity|]. split.
  - intros Hfault. rewrite Hfault, Hmarked.
    rewrite scan_result_by_id_update_same; [|reflexivity]. rewrite Hmarked.
    eexists. split; [reflexivity|]. simpl. auto.
  - intros Hfault. destruct (finish_fault env); [contradiction | |]; reflexivity.
Qed.

Lemma probe_failure_recorded_witness :
  status_of 9 (snd (mark_in_progress 9 raising_unit_env store_with_pending_scan))
    = Some IN_PROGRESS /\
  fst (run_single_test 9 "http://example.com/" raising_unit_env
         store_with_pending_scan) = Returned tt /\
  (finish_fault raising_unit_env = NoFault ->
   exists r, scan_result_by_id 9
               (snd (run_single_test 9 "http://example.com/" raising_unit_env
                       store_with_pending_scan)) = Some r /\
             sr_status r = ERROR /\ sr_result r = NOT_RUN) /\
  (finish_fault raising_unit_env <> NoFault ->
   snd (run_single_test 9 "http://example.com/" raising_unit_env
          store_with_pending_scan)
   = snd (mark_in_progress 9 raising_unit_env store_with_pending_scan)).
Proof.
  apply (probe_failure_recorded store_with_pending_scan
           (snd (mark_in_progress 9 raising_unit_env store_with_pending_scan))
           9 "http://example.com/" ssl_test_name raising_unit_env
           (OtherException "label empty or too long")).
  - vm_compute. reflexivity.
  - vm_compute. reflexivity.
Defined.

(** A unit never lets an exception out. *)
Lemma run_single_test_returns (id : nat) (url : string) (env : UnitEnv) (db : Database) :
  fst (run_single_test id url env db) = Returned tt.
Proof.
  unfold run_single_test, bind.
  destruct (mark_in_progress_run id env db) as [H|[r [t [_ [_ [_ H]]]]]]; rewrite H.
  - reflexivity.
  - rewrite execute_and_record_run, write_final_results_run. reflexivity.
Qed.

(** One move of a unit returns, keeps the id of the unit, and has one of
    the three effects. *)
Lemma unit_step_effect (url : string) (u : UnitTask) (db : Database) :
  exists u' db',
    unit_step url u db = (Returned u', db') /\
    unit_id u' = unit_id u /\
    unit_effect (unit_id u) db (unit_phase u) (unit_phase u') db'.
Proof.
  unfold unit_step. destruct (unit_phase u) as [|test_name|] eqn:Hphase.
  - unfold bind.
    destruct (mark_in_progress_run (unit_id u) (unit_env u) db)
      as [H|[r [t [Hr [_ [_ H]]]]]]; rewrite H.
    + eexists _, _. split; [reflexivity|]. split; [reflexivity|]. apply effect_none.
    + eexists _, _. split; [reflexivity|]. split; [reflexivity|].
      apply effect_begin with (r := r). exact Hr.
  - unfold bind. rewrite execute_and_record_run, write_final_results_run.
    eexists _, _. split; [reflexivity|]. split; [reflexivity|]. cbn [set_phase unit_phase].
    destruct (finish_fault (unit_env u)); try apply effect_none.
    destruct (scan_result_by_id (unit_id u) db) as [r|] eqn:Hr; [|apply effect_none].
    apply effect_finish with (r := r); [exact Hr | apply test_logic_status].
  - exists u, db. split; [reflexivity|]. split; [reflexivity|].
    rewrite Hphase. apply effect_none.
Qed.

(** Resuming a position of the task list moves the unit there, if any. *)
Lemma step_nth_effect (url : string) (i : nat) (tasks : list UnitTask) (db : Database) :
  step_nth url i tasks db = (Returned tasks, db) \/
  exists pre u post u' db',
    tasks = pre ++ u :: post /\
    step_nth url i tasks db = (Returned (pre ++ u' :: post), db') /\
    unit_id u' = unit_id u /\
    unit_effect (unit_id u) db (unit_phase u) (unit_phase u') db'.
Proof.
  revert i. induction tasks as [|t rest IH]; intros i;
    [left; destruct i; reflexivity|].
  destruct i as [|j]; simpl.
  - right. destruct (unit_step_effect url t db) as [u' [db' [Hstep [Hid Heff]]]].
    exists [], t, rest, u', db'. unfold bind. rewrite Hstep.
    repeat split; auto.
  - destruct (IH j) as [H|[pre [u [post [u' [db' [Hsplit [Hstep [Hid Heff]]]]]]]]].
    + left. unfold bind. rewrite H. reflexivity.
    + right. exists (t :: pre), u, post, u', db'. unfold bind. rewrite Hstep.
      subst rest. repeat split; auto.
Qed.

(** ** Rewriting one row of [scan_results] *)

Section RowUpdate.

Variable f : ScanResult -> ScanResult.
Hypothesis f_keeps_id : forall r, sr_id (f r) = sr_id r.
Hypothesis f_keeps_scan : forall r, sr_scan_id (f r) = sr_scan_id r.

Variable id : nat.
Variable db : Database.

Lemma update_keeps_primary_keys :
  primary_keys_unique db -> primary_keys_unique (update_scan_result id f db).
Proof.
  unfold primary_keys_unique, update_scan_result. simpl.
  rewrite (map_key_update_first _ sr_id f f_keeps_id). auto.
Qed.

Lemma in_updated_results (r' : ScanResult) :
  In r' (scan_results (update_scan_result id f db)) ->
  In r' (scan_results db) \/
  exists r, scan_result_by_id id db = Some r /\ r' = f r.
Proof.
  unfold update_scan_result, scan_result_by_id, first_where. simpl.
  apply in_update_first.
Qed.

Lemma update_keeps_foreign_keys :
  foreign_keys_hold db -> foreign_keys_hold (update_scan_result id f db).
Proof.
  intros Hfk r' Hin. destruct (in_updated_results r' Hin) as [H|[r [Hr ->]]].
  - apply Hfk. exact H.
  - rewrite f_keeps_scan. apply Hfk.
    apply (find_key_in _ sr_id) in Hr. tauto.
Qed.

Lemma status_of_updated (r : ScanResult) :
  scan_result_by_id id db = Some r ->
  status_of id (update_scan_result id f db) = Some (sr_status (f r)).
Proof.
  intros Hr. unfold status_of.
  rewrite (scan_result_by_id_update_same id f db f_keeps_id), Hr. reflexivity.
Qed.

Lemma status_of_not_updated (id' : nat) :
  id <> id' ->
  status_of id' (update_scan_result id f db) = status_of id' db.
Proof.
  intros Hne. unfold status_of.
  rewrite (scan_result_by_id_update_other id id' f db f_keeps_id Hne). reflexivity.
Qed.

End RowUpdate.

Lemma nodup_middle {A : Type} (pre post : list A) (a x : A) :
  NoDup (pre ++ a :: post) -> In x (pre ++ post) -> x <> a.
Proof.
  intros Hnd Hin E. subst x. apply NoDup_remove_2 in Hnd. contradiction.
Qed.

(** The effect of a unit's move on the rows, under what the store owes the
    unit: the keys stay, the row of every other id stays, the unit is owed
    its due in its new phase, every row that is not an old one belongs to
    the unit's scan, and each status moves along its path. *)
Lemma unit_effect_sound (sid : nat) (u u' : UnitTask) (db db' : Database) :
  unit_id u' = unit_id u ->
  unit_effect (unit_id u) db (unit_phase u) (unit_phase u') db' ->
  unit_ok db sid u ->
  scans db' = scans db /\
  (primary_keys_unique db -> primary_keys_unique db') /\
  (foreign_keys_hold db -> foreign_keys_hold db') /\
  (forall id', id' <> unit_id u ->
     scan_result_by_id id' db' = scan_result_by_id id' db) /\
  unit_ok db' sid u' /\
  (forall r', In r' (scan_results db') ->
     In r' (scan_results db) \/ sr_scan_id r' = sid) /\
  (db' = db \/
   exists r, scan_result_by_id (unit_id u) db = Some r /\ sr_scan_id r = sid) /\
  (forall id', status_move (status_of id' db) (status_of id' db')).
Proof.
  intros Hid Heff Hok. unfold unit_ok in *. rewrite Hid.
  inversion Heff as [p Hp Hp' Hdb | name now r Hr Hp Hp' Hdb
                     | name v now r Hr Hv Hp Hp' Hdb].
  - subst db'. repeat split; auto. intros id'. apply move_none.
  - rewrite <- Hp in Hok. destruct Hok as [r0 [Hr0 [Hscan Hst]]].
    rewrite Hr in Hr0. inversion Hr0; subst r0. clear Hr0.
    split; [reflexivity|].
    split; [apply update_keeps_primary_keys; reflexivity|].
    split; [apply update_keeps_foreign_keys; reflexivity|].
    split.
    { intros id' Hne. apply scan_result_by_id_update_other; [reflexivity | auto]. }
    split.
    { exists (set_in_progress now r).
      rewrite scan_result_by_id_update_same; [rewrite Hr|]; auto. }
    split.
    { intros r' Hin. apply in_updated_results in Hin.
      destruct Hin as [H|[r1 [Hr1 ->]]]; [left; exact H|].
      right. rewrite Hr in Hr1. inversion Hr1; subst r1. exact Hscan. }
    split; [right; exists r; auto|].
    intros id'. destruct (Nat.eq_dec (unit_id u) id') as [<-|Hne].
    + rewrite (status_of_updated (set_in_progress now)
                 (fun _ => eq_refl) (unit_id u) db r Hr).
      unfold status_of. rewrite Hr. simpl. rewrite Hst. apply move_begin.
    + rewrite status_of_not_updated; [apply move_none | reflexivity | exact Hne].
  - rewrite <- Hp in Hok. destruct Hok as [r0 [Hr0 [Hscan Hst]]].
    rewrite Hr in Hr0. inversion Hr0; subst r0. clear Hr0.
    split; [reflexivity|].
    split; [apply update_keeps_primary_keys; reflexivity|].
    split; [apply update_keeps_foreign_keys; reflexivity|].
    split.
    { intros id' Hne. apply scan_result_by_id_update_other; [reflexivity | auto]. }
    split; [exact I|].
    split.
    { intros r' Hin. apply in_updated_results in Hin.
      destruct Hin as [H|[r1 [Hr1 ->]]]; [left; exact H|].
      right. rewrite Hr in Hr1. inversion Hr1; subst r1. exact Hscan. }
    split; [right; exists r; auto|].
    intros id'. destruct (Nat.eq_dec (unit_id u) id') as [<-|Hne].
    + rewrite (status_of_updated (set_final_results v now)
                 (fun _ => eq_refl) (unit_id u) db r Hr).
      unfold status_of. rewrite Hr. simpl. rewrite Hst.
      destruct Hv as [-> | ->]; [apply move_completed | apply move_error].
    + rewrite status_of_not_updated; [apply move_none | reflexivity | exact Hne].
Qed.


(** ** The moves of a background task *)

Lemma resume_background_local (i : nat) :
  local_step (fun b => resume_background b i).
Proof.
  intros b db b' db' Hstep Hpk Hfk Hok. unfold resume_background in Hstep.
  unfold task_ok in Hok.
  destruct (bg_state b) as [|tasks|] eqn:Hstate;
    try (inversion Hstep; subst b' db'; unfold task_ok; rewrite Hstate;
         repeat split; auto; intros; apply move_none).
  destruct Hok as [Hnd Hunits].
  destruct (step_nth_effect (bg_url b) i tasks db)
    as [H|[pre [u [post [u' [db1 [Hsplit [H [Hid Heff]]]]]]]]];
    rewrite H in Hstep; inversion Hstep; subst b' db'; clear Hstep.
  - unfold task_ok. cbn [set_state bg_state bg_scan_id].
    repeat split; auto. intros; apply move_none.
  - assert (In u tasks) as Hu by (subst tasks; apply in_elt).
    destruct (unit_effect_sound (bg_scan_id b) u u' db db1 Hid Heff (Hunits u Hu))
      as [Hscans [Hpk' [Hfk' [Hother [Hu' [Hrows [Hrow Hmoves]]]]]]].
    split; [reflexivity|]. split; [rewrite Hscans; reflexivity|].
    split; [auto|]. split; [auto|]. split; [|split].
    + unfold task_ok. cbn [set_state bg_state bg_scan_id]. split.
      * subst tasks. rewrite map_app in *. cbn [map] in *. rewrite Hid. exact Hnd.
      * intros v Hv. apply in_app_or in Hv.
        assert (In v (pre ++ post) -> unit_ok db1 (bg_scan_id b) v) as Hframe.
        { intros Hin.
          assert (unit_id v <> unit_id u) as Hne.
          { subst tasks. rewrite map_app in Hnd. cbn [map] in Hnd.
            apply (nodup_middle _ _ _ _ Hnd). rewrite <- map_app.
            apply in_map. exact Hin. }
          assert (In v tasks) as Hvt.
          { subst tasks. apply in_app_or in Hin. apply in_or_app.
            destruct Hin; [left | right; right]; assumption. }
          specialize (Hunits v Hvt). unfold unit_ok in *.
          rewrite (Hother _ Hne). exact Hunits. }
        destruct Hv as [Hv|[<-|Hv]]; [| exact Hu' |];
          apply Hframe; apply in_or_app; [left | right]; exact Hv.
    + intros c Hc Hcok. unfold task_ok in *.
      destruct (bg_state c) as [|ctasks|]; [| |exact I].
      * intros r Hr Hrs. destruct (Hrows r Hr) as [Hold|Hnew]; [auto|].
        exfalso. apply Hc. congruence.
      * destruct Hcok as [Hcnd Hcunits]. split; [exact Hcnd|].
        intros v Hv. specialize (Hcunits v Hv).
        destruct Hrow as [->|[r [Hr Hrb]]]; [exact Hcunits|].
        unfold unit_ok in *.
        assert (unit_phase v <> Finished -> unit_id v <> unit_id u) as Hne.
        { intros Hphase E. rewrite E in Hcunits.
          destruct (unit_phase v); [| |contradiction];
            destruct Hcunits as [r' [Hr' [Hs _]]];
            rewrite Hr in Hr'; inversion Hr'; subst r'; apply Hc; congruence. }
        destruct (unit_phase v) eqn:Hpv; [| |exact I];
          (rewrite Hother; [exact Hcunits | apply Hne; discriminate]).
    + exact Hmoves.
Qed.

(** A store that differs in the statuses and times of scans only. *)
Lemma same_results_frame (db db' : Database) :
  scan_results db' = scan_results db ->
  map scan_id (scans db') = map scan_id (scans db) ->
  (primary_keys_unique db -> primary_keys_unique db') /\
  (foreign_keys_hold db -> foreign_keys_hold db') /\
  (forall c, task_ok db c -> task_ok db' c) /\
  (forall id, status_move (status_of id db) (status_of id db')).
Proof.
  intros Hres Hscans.
  unfold primary_keys_unique, foreign_keys_hold, task_ok, unit_ok, status_of,
    scan_result_by_id.
  rewrite Hres, Hscans. repeat split; auto. intros id. apply move_none.
Qed.

Lemma update_scan_frame (id : nat) (st : TestStatusEnum) (now : Time) (db : Database) :
  scan_results (update_scan id (set_scan_outcome st now) db) = scan_results db /\
  map scan_id (scans (update_scan id (set_scan_outcome st now) db))
    = map scan_id (scans db).
Proof.
  split; [reflexivity|]. unfold update_scan. simpl.
  apply map_key_update_first. reflexivity.
Qed.

Lemma nodup_map_filter {A : Type} (key : A -> nat) (p : A -> bool) (rows : list A) :
  NoDup (map key rows) -> NoDup (map key (filter p rows)).
Proof.
  induction rows as [|r rest IH]; simpl; intros H; [constructor|].
  inversion H as [|? ? Hr Hrest]; subst. destruct (p r); simpl; [|auto].
  constructor; [|auto]. intros Hin. apply Hr.
  apply in_map_iff in Hin. destruct Hin as [x [Hx Hin]].
  apply filter_In in Hin. rewrite <- Hx. apply in_map. tauto.
Qed.

(** A step that ends the task and touches scans only is local. *)
Lemma ends_task_local (b b' : BackgroundTask) (db db' : Database) :
  b' = set_state Done b ->
  scan_results db' = scan_results db ->
  map scan_id (scans db') = map scan_id (scans db) ->
  primary_keys_unique db -> foreign_keys_hold db ->
  bg_scan_id b' = bg_scan_id b /\
  map scan_id (scans db') = map scan_id (scans db) /\
  primary_keys_unique db' /\
  foreign_keys_hold db' /\
  task_ok db' b' /\
  (forall c, bg_scan_id c <> bg_scan_id b -> task_ok db c -> task_ok db' c) /\
  (forall id, status_move (status_of id db) (status_of id db')).
Proof.
  intros -> Hres Hscans Hpk Hfk.
  destruct (same_results_frame db db' Hres Hscans) as [H1 [H2 [H3 H4]]].
  repeat split; auto.
Qed.

Lemma start_background_local (env : ScanEnv) :
  local_step (fun b => start_background b env).
Proof.
  intros b db b' db' Hstep Hpk Hfk Hok. unfold start_background in Hstep.
  destruct (bg_state b) as [|tasks|] eqn:Hstate.
  - destruct (fetch_raises env) as [failure|] eqn:Hfetch.
    + destruct (fault_cases (mark_error_fault failure)) as [Hmark|Hmark].
      * rewrite (fetch_scan_result_ids_marked _ env db failure Hfetch Hmark) in Hstep.
        inversion Hstep; subst b' db'; clear Hstep.
        rewrite mark_scan_error_run. cbn [snd].
        apply ends_task_local; auto;
          destruct (scan_by_id (bg_scan_id b) db); auto; apply update_scan_frame.
      * destruct (fetch_scan_result_ids_refused (bg_scan_id b) env db failure
                    Hfetch Hmark) as [msg Hraised].
        rewrite Hraised in Hstep. inversion Hstep; subst b' db'; clear Hstep.
        apply ends_task_local; auto.
    + rewrite (fetch_scan_result_ids_ok _ env db Hfetch) in Hstep.
      destruct (scan_result_ids_of (bg_scan_id b) db) as [|first_id ids] eqn:Hids.
      * inversion Hstep; subst b' db'; clear Hstep.
        rewrite mark_scan_without_tests_run. cbn [snd].
        apply ends_task_local; auto;
          destruct (scan_by_id (bg_scan_id b) db) as [s|]; auto;
          destruct (status_eqb (scan_status s) PENDING); auto;
          apply update_scan_frame.
      * inversion Hstep; subst b' db'; clear Hstep.
        split; [reflexivity|]. split; [reflexivity|].
        split; [exact Hpk|]. split; [exact Hfk|].
        split; [|split; [auto | intros; apply move_none]].
        unfold task_ok in *. rewrite Hstate in Hok.
        cbn [set_state bg_state bg_scan_id].
        change (new_task env first_id :: map (new_task env) ids)
          with (map (new_task env) (first_id :: ids)).
        rewrite <- Hids. split.
        { rewrite map_map. cbn [new_task unit_id]. rewrite map_id.
          unfold scan_result_ids_of. apply nodup_map_filter. exact Hpk. }
        intros u Hu. apply in_map_iff in Hu. destruct Hu as [id [<- Hid]].
        unfold unit_ok. cbn [new_task unit_phase unit_id].
        unfold scan_result_ids_of in Hid. apply in_map_iff in Hid.
        destruct Hid as [r [<- Hr]]. apply filter_In in Hr. destruct Hr as [Hr Hs].
        apply Nat.eqb_eq in Hs. exists r. split; [|split; [exact Hs | auto]].
        unfold scan_result_by_id, first_where.
        apply (find_unique_key _ sr_id); assumption.
  - inversion Hstep; subst b' db'. repeat split; auto. intros; apply move_none.
  - inversion Hstep; subst b' db'. repeat split; auto. intros; apply move_none.
Qed.

Lemma join_background_local (now : Time) :
  local_step (fun b => join_background b now).
Proof.
  intros b db b' db' Hstep Hpk Hfk Hok. unfold join_background in Hstep.
  destruct (bg_state b) as [|tasks|] eqn:Hstate;
    try (inversion Hstep; subst b' db'; repeat split; auto; intros; apply move_none).
  destruct (forallb is_finished tasks).
  - inversion Hstep; subst b' db'; clear Hstep.
    rewrite final_check_run. cbn [snd].
    apply ends_task_local; auto;
      destruct (scan_by_id (bg_scan_id b) db); auto; apply update_scan_frame.
  - inversion Hstep; subst b' db'. repeat split; auto. intros; apply move_none.
Qed.

(** ** The invariant of the service *)

Lemma on_nth_shape (k : nat)
    (f : BackgroundTask -> Database -> BackgroundTask * Database)
    (bs : list BackgroundTask) (db : Database) :
  on_nth k f bs db = (bs, db) \/
  exists pre b post b' db',
    bs = pre ++ b :: post /\
    f b db = (b', db') /\
    on_nth k f bs db = (pre ++ b' :: post, db').
Proof.
  revert k. induction bs as [|b rest IH]; intros k;
    [left; destruct k; reflexivity|].
  destruct k as [|j]; simpl.
  - right. destruct (f b db) as [b' db'] eqn:E.
    exists [], b, rest, b', db'. auto.
  - destruct (IH j) as [H|[pre [c [post [c' [db' [Hsplit [Hf H]]]]]]]]; rewrite H.
    + left. reflexivity.
    + right. exists (b :: pre), c, post, c', db'. subst rest. auto.
Qed.

(** A local move of one background task keeps the invariant of the service
    and moves every status along its path. *)
Lemma task_event_preserves (k : nat)
    (f : BackgroundTask -> Database -> BackgroundTask * Database)
    (db db' : Database) (bs bs' : list BackgroundTask) :
  local_step f ->
  service_invariant {| store := db; background := bs |} ->
  on_nth k f bs db = (bs', db') ->
  service_invariant {| store := db'; background := bs' |} /\
  (forall id, status_move (status_of id db) (status_of id db')).
Proof.
  intros Hlocal [Hpk Hfk Hknown Hdistinct Htasks] Hstep. cbn [store background] in *.
  destruct (on_nth_shape k f bs db)
    as [H|[pre [b [post [b' [db1 [Hsplit [Hf H]]]]]]]];
    rewrite H in Hstep; inversion Hstep; subst bs' db'; clear Hstep H.
  - split; [constructor; assumption | intros; apply move_none].
  - assert (In b bs) as Hb by (subst bs; apply in_elt).
    destruct (Hlocal b db b' db1 Hf Hpk Hfk (Htasks b Hb))
      as [Hsame [Hscans [Hpk' [Hfk' [Hok' [Hframe Hmoves]]]]]].
    split; [|exact Hmoves]. subst bs.
    constructor; cbn [store background]; auto.
    + intros c Hc. rewrite Hscans. apply in_app_or in Hc.
      destruct Hc as [Hc|[<-|Hc]].
      * apply Hknown. apply in_or_app. left. exact Hc.
      * rewrite Hsame. apply Hknown. apply in_elt.
      * apply Hknown. apply in_or_app. right. right. exact Hc.
    + rewrite map_app in *. cbn [map] in *. rewrite Hsame. exact Hdistinct.
    + intros c Hc. apply in_app_or in Hc.
      assert (In c (pre ++ post) -> task_ok db1 c) as Hrest.
      { intros Hin. apply Hframe.
        - rewrite map_app in Hdistinct. cbn [map] in Hdistinct.
          apply (nodup_middle _ _ _ _ Hdistinct). rewrite <- map_app.
          apply in_map. exact Hin.
        - apply Htasks. apply in_app_or in Hin. apply in_or_app.
          destruct Hin; [left | right; right]; assumption. }
      destruct Hc as [Hc|[<-|Hc]]; [| exact Hok' |];
        apply Hrest; apply in_or_app; [left | right]; exact Hc.
Qed.

(** A request keeps the invariant: on failure nothing changes, on success
    the new rows are PENDING under fresh keys and belong to the new scan. *)
Lemma post_scans_preserves (url : string) (env : RequestEnv) (st : Service) :
  service_invariant st ->
  service_invariant (service_step (PostScans url env) st) /\
  (forall id, status_move (status_of id (store st))
                          (status_of id (store (service_step (PostScans url env) st)))).
Proof.
  intros [Hpk Hfk Hknown Hdistinct Htasks]. cbn [service_step].
  destruct (start_scan url env (store st)) as [[[resp [sid u]]|e] db'] eqn:Hrun.
  - apply start_scan_returned in Hrun.
    destruct (create_scan_returned _ _ _ _ _ Hrun)
      as (new_scan & rows & final & Htask & Hid & _ & _ & Hscans & Hres & _ & _
          & _ & Hall & Hnd & _ & _).
    cbn [snd] in Htask. inversion Htask; subst sid u; clear Htask.
    rewrite Forall_forall in Hall.
    assert (forall r, In r (scan_results (store st)) ->
                      sr_scan_id r <> scan_id new_scan) as Hold.
    { intros r Hr E. apply (next_id_fresh (map scan_id (scans (store st)))).
      rewrite <- Hid, <- E. apply Hfk. exact Hr. }
    assert (forall c, In c (background st) -> bg_scan_id c <> scan_id new_scan)
      as Hother.
    { intros c Hc E. apply (next_id_fresh (map scan_id (scans (store st)))).
      rewrite <- Hid, <- E. apply Hknown. exact Hc. }
    split.
    + constructor; cbn [store background].
      * unfold primary_keys_unique. rewrite Hres. apply Hnd. exact Hpk.
      * intros r Hr. rewrite Hres in Hr. rewrite Hscans, map_app.
        apply in_or_app. apply in_app_or in Hr. destruct Hr as [Hr|Hr].
        -- left. apply Hfk. exact Hr.
        -- right. left. symmetry. apply (Hall r Hr).
      * intros c Hc. rewrite Hscans, map_app. apply in_or_app.
        apply in_app_or in Hc. destruct Hc as [Hc|[<-|[]]].
        -- left. apply Hknown. exact Hc.
        -- right. left. reflexivity.
      * rewrite map_app. cbn [map bg_scan_id]. apply nodup_snoc; [exact Hdistinct|].
        intros Hin. apply in_map_iff in Hin. destruct Hin as [c [Hc Hin]].
        apply (Hother c Hin). exact Hc.
      * intros c Hc. apply in_app_or in Hc. destruct Hc as [Hc|[<-|[]]].
        -- specialize (Htasks c Hc). specialize (Hother c Hc).
           unfold task_ok, unit_ok, scan_result_by_id, first_where in *.
           rewrite Hres. destruct (bg_state c) as [|tasks|]; [| |exact I].
           ++ intros r Hr Hs. apply in_app_or in Hr. destruct Hr as [Hr|Hr]; [auto|].
              exfalso. apply Hother. rewrite <- Hs. apply (Hall r Hr).
           ++ destruct Htasks as [Hnd' Hunits]. split; [exact Hnd'|].
              intros v Hv. specialize (Hunits v Hv).
              destruct (unit_phase v); [| |exact I];
                destruct Hunits as [r [Hr Hrest]]; exists r;
                (split; [apply find_app_some; exact Hr | exact Hrest]).
        -- unfold task_ok. cbn [bg_state bg_scan_id]. intros r Hr Hs.
           rewrite Hres in Hr. apply in_app_or in Hr. destruct Hr as [Hr|Hr].
           ++ exfalso. apply (Hold r Hr). exact Hs.
           ++ apply (Hall r Hr).
    + cbn [store]. intros id. unfold status_of, scan_result_by_id, first_where.
      rewrite Hres.
      destruct (find (fun r => sr_id r =? id) (scan_results (store st))) as [r|] eqn:E.
      * rewrite (find_app_some _ _ _ rows r E). apply move_none.
      * rewrite (find_app_none _ _ _ rows E).
        destruct (find (fun r => sr_id r =? id) rows) as [r|] eqn:E'; [|apply move_none].
        apply find_some in E'. destruct E' as [Hr _].
        destruct (Hall r Hr) as [_ [Hst _]]. simpl. rewrite Hst. apply move_created.
  - apply start_scan_raised in Hrun. subst db'. split.
    + destruct st. constructor; assumption.
    + intros. apply move_none.
Qed.

Lemma service_step_preserves (ev : Event) (st : Service) :
  service_invariant st ->
  service_invariant (service_step ev st) /\
  (forall id, status_move (status_of id (store st))
                          (status_of id (store (service_step ev st)))).
Proof.
  intros Hinv. destruct ev as [url env|k env|k i|k now].
  - apply post_scans_preserves. exact Hinv.
  - cbn [service_step].
    destruct (on_nth k (fun b => start_background b env) (background st) (store st))
      as [bs db'] eqn:E.
    destruct st as [db bs0]. cbn [store background] in *.
    apply (task_event_preserves k _ db db' bs0 bs (start_background_local env) Hinv E).
  - cbn [service_step].
    destruct (on_nth k (fun b => resume_background b i) (background st) (store st))
      as [bs db'] eqn:E.
    destruct st as [db bs0]. cbn [store background] in *.
    apply (task_event_preserves k _ db db' bs0 bs (resume_background_local i) Hinv E).
  - cbn [service_step].
    destruct (on_nth k (fun b => join_background b now) (background st) (store st))
      as [bs db'] eqn:E.
    destruct st as [db bs0]. cbn [store background] in *.
    apply (task_event_preserves k _ db db' bs0 bs (join_background_local now) Hinv E).
Qed.

(** Every state the service reaches satisfies the invariant: the keys of the
    results are unique, every result refers to a scan, the background tasks
    work on different scans, a scheduled task finds all its results PENDING,
    and a unit finds its row PENDING before its begin step and IN_PROGRESS
    before its final write. *)
Lemma reachable_invariant (st : Service) : reachable st -> service_invariant st.
Proof.
  induction 1 as [db Hpk Hfk|st ev Hreach IH].
  - constructor; cbn [initial_service store background]; auto.
    + intros b [].
    + constructor.
    + intros b [].
  - apply service_step_preserves. exact IH.
Qed.

(** C8: in every state the service reaches, whatever it does next (a
    request, the start of a background task, the begin step or the final
    write of a unit, a final check) leaves the status of each ScanResult as
    it is, or creates the row PENDING, or moves it from PENDING to
    IN_PROGRESS, or from IN_PROGRESS to COMPLETED or ERROR: no status moves
    backwards, no terminal result is run again, and no other value is
    assigned. *)
Theorem scan_result_status_monotonic (st : Service) (ev : Event) (id : nat) :
  reachable st ->
  status_move (status_of id (store st)) (status_of id (store (service_step ev st))).
Proof.
  intros Hreach.
  apply (service_step_preserves ev st (reachable_invariant st Hreach)).
Qed.

Lemma seeded_store_reachable : reachable (initial_service seeded_store).
Proof.
  apply reachable_initial.
  - unfold primary_keys_unique. vm_compute. constructor.
  - apply foreign_keys_ok_sound. vm_compute. reflexivity.
Defined.

Lemma scan_result_status_monotonic_witness :
  status_of 1 (store service_with_gathering_scan) = Some PENDING /\
  status_of 1 (store (service_step (Resume 0 0) service_with_gathering_scan))
    = Some IN_PROGRESS /\
  status_move
    (status_of 1 (store service_with_gathering_scan))
    (status_of 1 (store (service_step (Resume 0 0) service_with_gathering_scan))).
Proof.
  split; [vm_compute; reflexivity|]. split; [vm_compute; reflexivity|].
  apply (scan_result_status_monotonic service_with_gathering_scan (Resume 0 0) 1).
  unfold service_with_gathering_scan.
  apply reachable_step. apply reachable_step. exact seeded_store_reachable.
Defined.

(** ** A background execution as a run of the service

    [run_all_tests_for_scan] does what the service does on the events of one
    background task: its start, the moves of its units in the order of the
    schedule and then to completion, and its final check. *)

Lemma unit_step_returns (url : string) (u : UnitTask) (db : Database) :
  exists u', unit_step url u db = (Returned u', snd (unit_step url u db)).
Proof.
  destruct (unit_step_effect url u db) as [u' [db' [H _]]].
  exists u'. rewrite H. reflexivity.
Qed.

(** Two moves finish a unit. *)
Lemma unit_step_twice_finished (url : string) (u u1 u2 : UnitTask) (db db1 db2 : Database) :
  unit_step url u db = (Returned u1, db1) ->
  unit_step url u1 db1 = (Returned u2, db2) ->
  is_finished u2 = true.
Proof.
  unfold unit_step, is_finished. intros H1 H2.
  destruct (unit_phase u) eqn:Hu.
  - unfold bind in H1.
    destruct (mark_in_progress (unit_id u) (unit_env u) db) as [[[name|]|e] d];
      [| |discriminate H1]; inversion H1; subst u1 db1; clear H1;
      cbn [set_phase unit_phase unit_id unit_env] in H2.
    + unfold bind in H2.
      destruct (execute_and_record (unit_id u) url name (unit_env u) d) as [[[]|e] d'];
        [|discriminate H2]. inversion H2. reflexivity.
    + inversion H2. reflexivity.
  - unfold bind in H1.
    destruct (execute_and_record (unit_id u) url test_name (unit_env u) db)
      as [[[]|e] d]; [|discriminate H1].
    inversion H1; subst u1 db1; clear H1.
    cbn [set_phase unit_phase] in H2. inversion H2. reflexivity.
  - inversion H1; subst u1 db1. rewrite Hu in H2. inversion H2; subst u2.
    rewrite Hu. reflexivity.
Qed.

Lemma step_nth_middle (url : string) (pre post : list UnitTask) (u : UnitTask)
    (db : Database) :
  step_nth url (List.length pre) (pre ++ u :: post) db =
    (t' <- unit_step url u ;; ret (pre ++ t' :: post)) db.
Proof.
  induction pre as [|p pre IH]; simpl.
  - reflexivity.
  - unfold bind in *. rewrite IH.
    destruct (unit_step url u db) as [[u'|e] db']; reflexivity.
Qed.

Lemma resume_event (b : BackgroundTask) (db db' : Database)
    (tasks tasks' : list UnitTask) (i : nat) :
  bg_state b = Gathering tasks ->
  step_nth (bg_url b) i tasks db = (Returned tasks', db') ->
  service_step (Resume 0 i) {| store := db; background := [b] |}
  = {| store := db'; background := [set_state (Gathering tasks') b] |}.
Proof.
  intros Hstate Hstep. cbn [service_step on_nth store background].
  unfold resume_background. rewrite Hstate, Hstep. reflexivity.
Qed.

Lemma run_events_app (evs evs' : list Event) (st : Service) :
  run_events (evs ++ evs') st = run_events evs' (run_events evs st).
Proof. unfold run_events. apply fold_left_app. Qed.

(** The schedule of the gather, as resume events. *)
Lemma run_schedule_events (url : string) (id : nat) (sched : list nat)
    (tasks : list UnitTask) (db : Database) :
  exists tasks',
    run_schedule url sched tasks db
      = (Returned tasks', snd (run_schedule url sched tasks db)) /\
    List.length tasks' = List.length tasks /\
    run_events (map (Resume 0) sched)
      {| store := db;
         background := [ {| bg_scan_id := id; bg_url := url;
                            bg_state := Gathering tasks |} ] |}
    = {| store := snd (run_schedule url sched tasks db);
         background := [ {| bg_scan_id := id; bg_url := url;
                            bg_state := Gathering tasks' |} ] |}.
Proof.
  revert tasks db. induction sched as [|i later IH]; intros tasks db.
  - exists tasks. repeat split; reflexivity.
  - assert (exists tasks1 db1, step_nth url i tasks db = (Returned tasks1, db1) /\
                               List.length tasks1 = List.length tasks)
      as [tasks1 [db1 [Hstep Hlen1]]].
    { destruct (step_nth_effect url i tasks db)
        as [H|[pre [u [post [u' [d [Hsplit [H _]]]]]]]]; [eauto|].
      eexists _, _. split; [exact H|]. subst tasks.
      rewrite !length_app. reflexivity. }
    destruct (IH tasks1 db1) as [tasks' [Hrun [Hlen Hev]]].
    exists tasks'. cbn [run_schedule map]. unfold bind. rewrite Hstep.
    split; [exact Hrun|]. split; [congruence|].
    unfold run_events in *. cbn [fold_left].
    rewrite (resume_event {| bg_scan_id := id; bg_url := url;
                             bg_state := Gathering tasks |}
               db db1 tasks tasks1 i eq_refl Hstep).
    exact Hev.
Qed.

(** The completion of the gather, as resume events; it leaves every unit
    finished. *)
Lemma run_to_completion_events (url : string) (id : nat)
    (tasks pre : list UnitTask) (db : Database) :
  exists evs tasks',
    run_to_completion url tasks db
      = (Returned tasks', snd (run_to_completion url tasks db)) /\
    forallb is_finished tasks' = true /\
    List.length tasks' = List.length tasks /\
    run_events evs
      {| store := db;
         background := [ {| bg_scan_id := id; bg_url := url;
                            bg_state := Gathering (pre ++ tasks) |} ] |}
    = {| store := snd (run_to_completion url tasks db);
         background := [ {| bg_scan_id := id; bg_url := url;
                            bg_state := Gathering (pre ++ tasks') |} ] |}.
Proof.
  revert pre db. induction tasks as [|t rest IH]; intros pre db.
  - exists [], []. repeat split; reflexivity.
  - destruct (unit_step_effect url t db) as [t1 [db1 [H1 _]]].
    destruct (unit_step_effect url t1 db1) as [t2 [db2 [H2 _]]].
    destruct (IH (pre ++ [t2]) db2) as [evs [rest' [Hrun [Hfin [Hlen Hev]]]]].
    exists (Resume 0 (List.length pre) :: Resume 0 (List.length pre) :: evs),
           (t2 :: rest').
    cbn [run_to_completion]. unfold bind. rewrite H1, H2.
    destruct (run_to_completion url rest db2) as [[r|e] db3] eqn:Hrest;
      cbn [snd] in *; [|discriminate Hrun].
    inversion Hrun; subst r. cbn [fst snd ret].
    split; [reflexivity|]. split.
    { cbn [forallb]. rewrite (unit_step_twice_finished url t t1 t2 db db1 db2 H1 H2).
      exact Hfin. }
    split; [cbn [List.length]; congruence|].
    pose proof (resume_event
                  {| bg_scan_id := id; bg_url := url;
                     bg_state := Gathering (pre ++ t :: rest) |}
                  db db1 (pre ++ t :: rest) (pre ++ t1 :: rest)
                  (List.length pre) eq_refl) as E1.
    pose proof (resume_event
                  {| bg_scan_id := id; bg_url := url;
                     bg_state := Gathering (pre ++ t1 :: rest) |}
                  db1 db2 (pre ++ t1 :: rest) (pre ++ t2 :: rest)
                  (List.length pre) eq_refl) as E2.
    unfold set_state in E1, E2. cbn [bg_url bg_scan_id] in E1, E2.
    rewrite step_nth_middle in E1, E2. unfold bind in E1, E2.
    rewrite H1 in E1. rewrite H2 in E2.
    specialize (E1 eq_refl). specialize (E2 eq_refl).
    unfold run_events in *. cbn [fold_left]. rewrite E1, E2.
    rewrite <- app_assoc in Hev. cbn [app] in Hev. rewrite <- app_assoc in Hev.
    exact Hev.
Qed.

(** A background execution is a run of the service on the events of its
    task. *)
Lemma background_execution_as_events
    (id : nat) (url : string) (env : ScanEnv) (db : Database) :
  exists evs,
    run_events evs
      {| store := db;
         background := [ {| bg_scan_id := id; bg_url := url;
                            bg_state := Scheduled |} ] |}
    = {| store := snd (run_all_tests_for_scan id url env db);
         background := [ {| bg_scan_id := id; bg_url := url;
                            bg_state := Done |} ] |}.
Proof.
  destruct (fetch_raises env) as [failure|] eqn:Hfetch.
  - exists [Start 0 env].
    unfold run_events. cbn [fold_left service_step on_nth store background].
    unfold start_background. cbn [bg_state bg_scan_id].
    destruct (fault_cases (mark_error_fault failure)) as [Hmark|Hmark].
    + rewrite (run_all_fetch_marked db id url env failure Hfetch Hmark).
      rewrite (fetch_scan_result_ids_marked id env db failure Hfetch Hmark).
      reflexivity.
    + destruct (run_all_fetch_refused db id url env failure Hfetch Hmark)
        as [msg Hrun].
      destruct (fetch_scan_result_ids_refused id env db failure Hfetch Hmark)
        as [msg' Hraised].
      rewrite Hrun, Hraised. reflexivity.
  - destruct (scan_result_ids_of id db) as [|first_id ids] eqn:Hids.
    + exists [Start 0 env].
      rewrite (run_all_without_results db id url env Hfetch Hids).
      unfold run_events. cbn [fold_left service_step on_nth store background].
      unfold start_background. cbn [bg_state bg_scan_id].
      rewrite (fetch_scan_result_ids_ok id env db Hfetch), Hids. reflexivity.
    + rewrite (run_all_ends_with_final_check db id url env first_id ids Hfetch Hids).
      set (tasks := map (new_task env) (first_id :: ids)).
      destruct (run_schedule_events url id (schedule env) tasks db)
        as [tasks1 [Hsched [Hlen1 Hev1]]].
      destruct (run_to_completion_events url id tasks1 []
                  (snd (run_schedule url (schedule env) tasks db)))
        as [evs2 [tasks2 [Hcompl [Hfin [Hlen2 Hev2]]]]].
      cbn [app] in Hev2.
      exists (Start 0 env :: map (Resume 0) (schedule env) ++ evs2
                ++ [Join 0 (scan_now env)]).
      assert (snd (wait_for_tasks url (schedule env) tasks db)
              = snd (run_to_completion url tasks1
                       (snd (run_schedule url (schedule env) tasks db)))) as Hwait.
      { unfold wait_for_tasks, try_except, gather, bind.
        rewrite Hsched, Hcompl. reflexivity. }
      rewrite Hwait.
      change (Start 0 env :: map (Resume 0) (schedule env) ++ evs2
                ++ [Join 0 (scan_now env)])
        with ([Start 0 env] ++ map (Resume 0) (schedule env) ++ evs2
                ++ [Join 0 (scan_now env)]).
      rewrite !run_events_app.
      assert (run_events [Start 0 env]
                {| store := db;
                   background := [ {| bg_scan_id := id; bg_url := url;
                                      bg_state := Scheduled |} ] |}
              = {| store := db;
                   background := [ {| bg_scan_id := id; bg_url := url;
                                      bg_state := Gathering tasks |} ] |}) as ->.
      { unfold run_events. cbn [fold_left service_step on_nth store background].
        unfold start_background. cbn [bg_state bg_scan_id].
        rewrite (fetch_scan_result_ids_ok id env db Hfetch), Hids. reflexivity. }
      rewrite Hev1, Hev2.
      unfold run_events. cbn [fold_left service_step on_nth store background].
      unfold join_background. cbn [bg_state bg_scan_id]. rewrite Hfin.
      unfold set_state. cbn [bg_scan_id bg_url].
      rewrite Hlen2, Hlen1. unfold tasks. rewrite length_map. reflexivity.
Qed.

(** ** From the launch of the units to the status of the scan *)

(** A move of a unit changes neither the scans nor which row belongs to
    which scan. *)
Lemma unit_effect_frame (id : nat) (db db' : Database) (p p' : UnitPhase) :
  unit_effect id db p p' db' ->
  scans db' = scans db /\
  map sr_scan_id (scan_results db') = map sr_scan_id (scan_results db).
Proof.
  intros H. inversion H; subst; split; try reflexivity;
    unfold update_scan_result; simpl;
    apply (map_key_update_first _ sr_scan_id); reflexivity.
Qed.

Lemma step_nth_frame (url : string) (i : nat) (tasks : list UnitTask) (db : Database) :
  scans (snd (step_nth url i tasks db)) = scans db /\
  map sr_scan_id (scan_results (snd (step_nth url i tasks db)))
    = map sr_scan_id (scan_results db).
Proof.
  destruct (step_nth_effect url i tasks db)
    as [H|[pre [u [post [u' [db' [_ [H [_ Heff]]]]]]]]]; rewrite H; cbn [snd].
  - split; reflexivity.
  - apply (unit_effect_frame _ _ _ _ _ Heff).
Qed.

Lemma run_schedule_frame (url : string) (sched : list nat) (tasks : list UnitTask)
    (db : Database) :
  scans (snd (run_schedule url sched tasks db)) = scans db /\
  map sr_scan_id (scan_results (snd (run_schedule url sched tasks db)))
    = map sr_scan_id (scan_results db).
Proof.
  revert tasks db. induction sched as [|i later IH]; intros tasks db.
  - split; reflexivity.
  - cbn [run_schedule]. unfold bind.
    pose proof (step_nth_frame url i tasks db) as [H1 H2].
    destruct (step_nth url i tasks db) as [[tasks1|e] db1]; cbn [snd] in *.
    + destruct (IH tasks1 db1) as [H3 H4]. split; congruence.
    + split; assumption.
Qed.

Lemma run_to_completion_frame (url : string) (tasks : list UnitTask) (db : Database) :
  scans (snd (run_to_completion url tasks db)) = scans db /\
  map sr_scan_id (scan_results (snd (run_to_completion url tasks db)))
    = map sr_scan_id (scan_results db).
Proof.
  revert db. induction tasks as [|t rest IH]; intros db.
  - split; reflexivity.
  - cbn [run_to_completion]. unfold bind.
    destruct (unit_step_effect url t db) as [t1 [db1 [H1 [_ E1]]]].
    destruct (unit_step_effect url t1 db1) as [t2 [db2 [H2 [_ E2]]]].
    rewrite H1, H2.
    destruct (unit_effect_frame _ _ _ _ _ E1) as [A1 B1].
    destruct (unit_effect_frame _ _ _ _ _ E2) as [A2 B2].
    destruct (IH db2) as [A3 B3].
    destruct (run_to_completion url rest db2) as [[r|e] db3];
      unfold ret; cbn [snd] in *; split; congruence.
Qed.

Lemma wait_for_tasks_frame (url : string) (sched : list nat) (tasks : list UnitTask)
    (db : Database) :
  scans (snd (wait_for_tasks url sched tasks db)) = scans db /\
  map sr_scan_id (scan_results (snd (wait_for_tasks url sched tasks db)))
    = map sr_scan_id (scan_results db).
Proof.
  unfold wait_for_tasks, try_except, gather, bind.
  pose proof (run_schedule_frame url sched tasks db) as [A1 B1].
  destruct (run_schedule url sched tasks db) as [[tasks1|e] db1]; cbn [snd] in *.
  - pose proof (run_to_completion_frame url tasks1 db1) as [A2 B2].
    destruct (run_to_completion url tasks1 db1) as [[tasks2|e] db2];
      unfold ret; cbn [snd dispatch Exception_] in *; split; congruence.
  - split; assumption.
Qed.

Lemma filter_length_by_key {A : Type} (key : A -> nat) (k : nat) (l l' : list A) :
  map key l = map key l' ->
  List.length (filter (fun r => key r =? k) l)
  = List.length (filter (fun r => key r =? k) l').
Proof.
  revert l'. induction l as [|x rest IH]; intros [|y rest'] H; simpl in *;
    try discriminate; [reflexivity|].
  inversion H as [[Hk Hrest]]. rewrite Hk.
  destruct (key y =? k); simpl; rewrite (IH rest' Hrest); reflexivity.
Qed.

(** X1: a background execution that launched units, on a scan that is there:
    the scan ends COMPLETED when all its results ended COMPLETED, and ERROR
    otherwise; the count of results cannot differ from the count of units
    here, where nothing else writes to the store in between. *)
Lemma run_all_scan_outcome
    (db : Database) (id : nat) (url : string) (env : ScanEnv) (scan : Scan)
    (first_id : nat) (other_ids : list nat) :
  fetch_raises env = None ->
  scan_result_ids_of id db = first_id :: other_ids ->
  scan_by_id id db = Some scan ->
  exists scan',
    scan_by_id id (snd (run_all_tests_for_scan id url env db)) = Some scan' /\
    scan_completed_at scan' = Some (scan_now env) /\
    scan_status scan' =
      if all_completed (results_of id (snd (run_all_tests_for_scan id url env db)))
      then COMPLETED else ERROR.
Proof.
  intros Hfetch Hids Hscan.
  rewrite (run_all_ends_with_final_check db id url env first_id other_ids Hfetch Hids).
  cbn [snd].
  destruct (wait_for_tasks_frame url (schedule env)
              (map (new_task env) (first_id :: other_ids)) db) as [Hscans Hrows].
  set (joined := snd (wait_for_tasks url (schedule env)
                        (map (new_task env) (first_id :: other_ids)) db)) in *.
  assert (scan_by_id id joined = Some scan) as Hjoined.
  { unfold scan_by_id. rewrite Hscans. exact Hscan. }
  rewrite final_check_run, Hjoined. cbn [snd].
  rewrite scan_by_id_update_scan, Hjoined. cbn [option_map].
  eexists. split; [reflexivity|]. split; [reflexivity|].
  cbn [set_scan_outcome scan_status]. rewrite overall_status_closed_form.
  assert (List.length (results_of id joined) = List.length (first_id :: other_ids))
    as Hlen.
  { rewrite <- Hids. unfold scan_result_ids_of, results_of. rewrite length_map.
    apply filter_length_by_key. exact Hrows. }
  rewrite Hlen, Nat.eqb_refl, andb_true_r. reflexivity.
Qed.

(** ** Two runs from start to end *)

(** Every probe returns: the ten results end COMPLETED and so does the
    scan. *)
Example quiet_run_completes :
  fst (run_all_tests_for_scan 1 "http://example.com/" quiet_scan_env
         store_with_pending_scan) = Returned [1; 2; 3; 4; 5; 6; 7; 8; 9; 10] /\
  map sr_status
    (results_of 1 (snd (run_all_tests_for_scan 1 "http://example.com/"
                          quiet_scan_env store_with_pending_scan)))
    = repeat COMPLETED 10 /\
  option_map scan_status
    (scan_by_id 1 (snd (run_all_tests_for_scan 1 "http://example.com/"
                          quiet_scan_env store_with_pending_scan)))
    = Some COMPLETED.
Proof. vm_compute. repeat split; reflexivity. Qed.

(** One probe raises: its result ends ERROR with NOT_RUN, its siblings end
    COMPLETED, and the scan ends ERROR. *)
Example raising_probe_run_errors :
  map (fun r => (sr_id r, sr_status r, sr_result r))
    (results_of 1 (snd (run_all_tests_for_scan 1 "http://example.com/"
                          interleaved_scan_env store_with_pending_scan)))
    = [ (1, COMPLETED, PASSED); (2, COMPLETED, PASSED); (3, COMPLETED, PASSED);
        (4, COMPLETED, PASSED); (5, COMPLETED, PASSED); (6, COMPLETED, PASSED);
        (7, COMPLETED, PASSED); (8, COMPLETED, PASSED); (9, ERROR, NOT_RUN);
        (10, COMPLETED, PASSED) ] /\
  option_map scan_status
    (scan_by_id 1 (snd (run_all_tests_for_scan 1 "http://example.com/"
                          interleaved_scan_env store_with_pending_scan)))
    = Some ERROR.
Proof. vm_compute. repeat split; reflexivity. Qed.

(** * Further properties *)

(** ** Requests that fail *)

Lemma bind_raised {S A B : Type} (c : M S A) (k : A -> M S B) (s s' : S)
    (e : PyException) :
  bind c k s = (Raised e, s') ->
  c s = (Raised e, s') \/
  exists a s1, c s = (Returned a, s1) /\ k a s1 = (Raised e, s').
Proof.
  unfold bind. destruct (c s) as [[a|e0] s1]; intros H.
  - right. eauto.
  - left. inversion H. reflexivity.
Qed.

Lemma raises_only_bind {S A B : Type} (P : PyException -> Prop)
    (c : M S A) (k : A -> M S B) :
  raises_only P c -> (forall a, raises_only P (k a)) -> raises_only P (bind c k).
Proof.
  intros Hc Hk s e s' H. apply bind_raised in H.
  destruct H as [H|[a [s1 [_ H]]]]; [apply (Hc _ _ _ H) | apply (Hk a _ _ _ H)].
Qed.

Lemma raises_only_ret {S A : Type} (P : PyException -> Prop) (a : A) :
  raises_only P (@ret S A a).
Proof. intros s e s' H. discriminate H. Qed.

Lemma raises_only_get {S : Type} (P : PyException -> Prop) : raises_only P (@get S).
Proof. intros s e s' H. discriminate H. Qed.

Lemma raises_only_modify {S : Type} (P : PyException -> Prop) (f : S -> S) :
  raises_only P (modify f).
Proof. intros s e s' H. discriminate H. Qed.

Lemma raises_only_raise {S A : Type} (P : PyException -> Prop) (e : PyException) :
  P e -> raises_only P (@raise S A e).
Proof. intros He s e' s' H. inversion H. subst. exact He. Qed.

Lemma raises_only_await (env : RequestEnv) (k : nat) :
  raises_only internal_or_500 (await_stmt env k).
Proof.
  unfold await_stmt. destruct (stmt_raises env k).
  - apply raises_only_raise. exact I.
  - apply raises_only_ret.
Qed.

Lemma raises_only_for_each_modify {S A : Type} (P : PyException -> Prop)
    (g : A -> S -> S) (xs : list A) :
  raises_only P (for_each xs (fun x => modify (g x))).
Proof. intros s e s' H. rewrite for_each_modify in H. discriminate H. Qed.

Lemma raises_only_validate (scan : Scan) (db : Database) :
  raises_only internal_or_500 (@lift Database _ (model_validate scan db)).
Proof.
  intros s e s' H. unfold lift, model_validate in H.
  destruct (first_where _ (websites db)); [destruct (with_test_definitions _ db)|];
    inversion H; exact I.
Qed.

Lemma raises_only_transaction {S A : Type} (P : PyException -> Prop) (c : M S A) :
  raises_only P c -> raises_only P (transaction c).
Proof.
  intros Hc s e s' H. unfold transaction in H.
  destruct (c s) as [[a|e0] s1] eqn:E; inversion H; subst.
  apply (Hc _ _ _ E).
Qed.

(** Whatever the transaction of [start_scan] raises is an HTTP 500 of its own
    or no [HTTPException] at all. *)
Lemma create_scan_raises (url : string) (env : RequestEnv) :
  raises_only internal_or_500 (create_scan url env).
Proof.
  unfold create_scan. apply raises_only_transaction.
  apply raises_only_bind; [apply raises_only_await | intros _].
  apply raises_only_bind; [apply raises_only_get | intros found].
  apply raises_only_bind.
  { destruct (website_by_url url found); [apply raises_only_ret|].
    apply raises_only_bind; [apply raises_only_modify | intros _].
    apply raises_only_bind; [apply raises_only_await | intros _].
    apply raises_only_ret. }
  intros website.
  apply raises_only_bind; [apply raises_only_await | intros _].
  apply raises_only_bind; [apply raises_only_get | intros db].
  apply raises_only_bind.
  { destruct (test_definitions db);
      [apply raises_only_raise; reflexivity | apply raises_only_ret]. }
  intros _.
  apply raises_only_bind; [apply raises_only_modify | intros _].
  apply raises_only_bind; [apply raises_only_await | intros _].
  apply raises_only_bind; [apply raises_only_for_each_modify | intros _].
  apply raises_only_bind; [apply raises_only_await | intros _].
  apply raises_only_bind; [apply raises_only_modify | intros _].
  apply raises_only_bind; [apply raises_only_await | intros _].
  apply raises_only_bind; [apply raises_only_get | intros db'].
  destruct (scan_by_id _ db'); [|apply raises_only_raise; reflexivity].
  apply raises_only_bind; [apply raises_only_validate | intros response_data].
  apply raises_only_bind; [apply raises_only_await | intros _].
  apply raises_only_ret.
Qed.

(** X2: a request that fails, whatever the reason (an empty catalog, a
    statement or the commit refused by the store, a response that does not
    validate), fails with an HTTP 500, and the store is what it was before
    the request: what the transaction had added is rolled back. *)
Theorem start_scan_fails_atomically
    (url : string) (env : RequestEnv) (db db' : Database) (e : PyException) :
  start_scan url env db = (Raised e, db') ->
  db' = db /\ exists detail, e = HTTPException 500 detail.
Proof.
  intros H. split; [apply (start_scan_raised url env db db' e H)|].
  unfold start_scan, try_except in H.
  destruct (create_scan url env db) as [[r|e0] s] eqn:E; [discriminate H|].
  pose proof (create_scan_raises url env db e0 s E) as He0.
  destruct e0 as [c m|code d|m|m]; simpl in H, He0; inversion H; subst;
    eexists; reflexivity.
Qed.

Lemma start_scan_fails_atomically_witness :
  snd (start_scan "http://example.com/" scan_flush_fails_env seeded_store)
    = seeded_store /\
  exists detail,
    HTTPException 500
      "Internal server error during scan initiation: disk I/O error"
    = HTTPException 500 detail.
Proof.
  apply (start_scan_fails_atomically "http://example.com/" scan_flush_fails_env
           seeded_store
           (snd (start_scan "http://example.com/" scan_flush_fails_env seeded_store))
           (HTTPException 500
              "Internal server error during scan initiation: disk I/O error")).
  vm_compute. reflexivity.
Defined.

(** ** Requests that succeed *)

(** The store a returning transaction of [start_scan] has committed, in
    full: the website it found or added, the new scan, the rows of step 4 and
    the update of [last_scan_at]. *)
Lemma create_scan_committed (url : string) (env : RequestEnv) (db db' : Database)
    (r : ScanResponse * (nat * string)) :
  create_scan url env db = (Returned r, db') ->
  exists website base,
    ((website_by_url url db = Some website /\ base = db) \/
     (website_by_url url db = None /\
      website = {| w_id := next_id (map w_id (websites db)); w_url := url;
                   w_created_at := request_now env; w_last_scan_at := None |} /\
      base = add_website website db)) /\
    test_definitions db <> [] /\
    db' = update_website (w_id website) (set_last_scan_at (request_now env))
            (fold_left
               (fun s t => add_scan_result (next_id (map scan_id (scans db))) (td_id t) s)
               (test_definitions db)
               (add_scan {| scan_id := next_id (map scan_id (scans db));
                            scan_website_id := w_id website;
                            scan_status := PENDING;
                            scan_created_at := request_now env;
                            scan_completed_at := None |} base)) /\
    snd r = (next_id (map scan_id (scans db)), url) /\
    exists final_scan_obj,
      scan_by_id (next_id (map scan_id (scans db))) db' = Some final_scan_obj /\
      model_validate final_scan_obj db' = Returned (fst r).
Proof.
  intros H.
  unfold create_scan in H. apply transaction_returned in H.
  apply bind_returned in H. destruct H as [u0 [s0 [H0 H]]].
  apply await_stmt_returned in H0. subst s0.
  apply bind_returned in H. destruct H as [found [s1 [H1 H]]].
  unfold get in H1. inversion H1; subst found s1; clear H1.
  apply bind_returned in H. destruct H as [website [s2 [Hw H]]].
  exists website, s2.
  assert ((website_by_url url db = Some website /\ s2 = db) \/
          (website_by_url url db = None /\
           website = {| w_id := next_id (map w_id (websites db)); w_url := url;
                        w_created_at := request_now env; w_last_scan_at := None |} /\
           s2 = add_website website db)) as Hsite.
  { destruct (website_by_url url db) as [w|].
    - unfold ret in Hw. inversion Hw; subst. left. auto.
    - apply bind_returned in Hw. destruct Hw as [x [t1 [Hm Hw]]].
      unfold modify in Hm. inversion Hm; subst x t1; clear Hm.
      apply bind_returned in Hw. destruct Hw as [x [t2 [Ha Hw]]].
      apply await_stmt_returned in Ha. subst t2.
      unfold ret in Hw. inversion Hw; subst. right. auto. }
  clear Hw. split; [exact Hsite|].
  assert (scans s2 = scans db /\ test_definitions s2 = test_definitions db)
    as [Hs2a Hs2c].
  { destruct Hsite as [[_ ->]|[_ [_ ->]]]; auto. }
  apply bind_returned in H. destruct H as [u2 [s3 [H2 H]]].
  apply await_stmt_returned in H2. subst s3.
  apply bind_returned in H. destruct H as [dbc [s4 [H3 H]]].
  unfold get in H3. inversion H3; subst dbc s4; clear H3.
  apply bind_returned in H. destruct H as [u3 [s5 [Hcat H]]].
  assert (test_definitions s2 <> [] /\ s5 = s2) as [Hne ->].
  { destruct (test_definitions s2); [discriminate Hcat|].
    unfold ret in Hcat. inversion Hcat. split; [discriminate | reflexivity]. }
  clear Hcat. rewrite Hs2c in Hne. split; [exact Hne|].
  apply bind_returned in H. destruct H as [u4 [s6 [H4 H]]].
  unfold modify in H4. inversion H4; subst u4 s6; clear H4.
  apply bind_returned in H. destruct H as [u5 [s7 [H5 H]]].
  apply await_stmt_returned in H5. subst s7.
  apply bind_returned in H. destruct H as [u6 [s8 [H6 H]]].
  rewrite for_each_modify in H6. inversion H6; subst u6 s8; clear H6.
  apply bind_returned in H. destruct H as [u7 [s9 [H7 H]]].
  apply await_stmt_returned in H7. subst s9.
  apply bind_returned in H. destruct H as [u8 [s10 [H8 H]]].
  unfold modify in H8. inversion H8; subst u8 s10; clear H8.
  apply bind_returned in H. destruct H as [u9 [s11 [H9 H]]].
  apply await_stmt_returned in H9. subst s11.
  apply bind_returned in H. destruct H as [dbf [s12 [H10 H]]].
  unfold get in H10. inversion H10; subst dbf s12; clear H10.
  cbn [scan_id] in H. rewrite Hs2a, Hs2c in H.
  match type of H with
  | match scan_by_id ?i ?d with _ => _ end _ = _ =>
      destruct (scan_by_id i d) as [final_scan_obj|] eqn:Hfinal; [|discriminate H]
  end.
  apply bind_returned in H. destruct H as [response_data [s13 [Hv H]]].
  unfold lift in Hv. inversion Hv as [[Hvalid Hs13]]. subst s13. clear Hv.
  apply bind_returned in H. destruct H as [u10 [s14 [H11 H]]].
  apply await_stmt_returned in H11. subst s14.
  unfold ret in H. inversion H; subst r db'; clear H.
  cbn [fst snd]. split; [reflexivity|]. split; [reflexivity|].
  exists final_scan_obj. split; [exact Hfinal | exact Hvalid].
Qed.

Lemma update_first_length {A : Type} (p : A -> bool) (f : A -> A) (rows : list A) :
  List.length (update_first p f rows) = List.length rows.
Proof.
  induction rows as [|x rest IH]; simpl; [reflexivity|].
  destruct (p x); simpl; [|rewrite IH]; reflexivity.
Qed.

(** When two queries select the same row and the update keeps the second
    query's column, the second query finds the updated row. *)
Lemma find_update_first_both {A : Type} (p q : A -> bool) (f : A -> A)
    (rows : list A) (r : A) :
  (forall x, q (f x) = q x) ->
  find p rows = Some r -> find q rows = Some r ->
  find q (update_first p f rows) = Some (f r).
Proof.
  intros Hq. induction rows as [|x rest IH]; simpl; [discriminate|].
  destruct (p x) eqn:Hp.
  - intros Hr Hqr. inversion Hr; subst x. simpl. rewrite Hq.
    destruct (q r) eqn:E; [reflexivity|].
    apply find_some in Hqr. destruct Hqr as [_ Hqr]. congruence.
  - intros Hpr Hqr. simpl. destruct (q x) eqn:E.
    + inversion Hqr; subst x. apply find_some in Hpr. destruct Hpr as [_ Hpr].
      congruence.
    + apply IH; assumption.
Qed.

Lemma committed_tables (wid sid : nat) (now : Time) (tests : list TestDefinition)
    (ns : Scan) (base db' : Database) :
  db' = update_website wid (set_last_scan_at now)
          (fold_left (fun s t => add_scan_result sid (td_id t) s) tests
             (add_scan ns base)) ->
  exists rows,
    websites db'
      = update_first (fun w => w_id w =? wid) (set_last_scan_at now) (websites base) /\
    scans db' = scans base ++ [ns] /\
    test_definitions db' = test_definitions base /\
    scan_results db' = scan_results base ++ rows /\
    map sr_test_definition_id rows = map td_id tests /\
    Forall (fun r => sr_scan_id r = sid /\ sr_status r = PENDING /\ sr_result r = NOT_RUN)
           rows.
Proof.
  intros ->.
  destruct (add_scan_results_effect sid tests (add_scan ns base))
    as [rows [Hfold [Hmap [Hall _]]]].
  exists rows. rewrite Hfold. repeat split; auto.
Qed.

(** The scan a transaction has just added is the one its key selects. *)
Lemma created_scan_found (ns : Scan) (old : list Scan) (db' : Database) :
  scan_id ns = next_id (map scan_id old) ->
  scans db' = old ++ [ns] ->
  scan_by_id (scan_id ns) db' = Some ns.
Proof.
  intros Hid Hscans. unfold scan_by_id, first_where. rewrite Hscans.
  rewrite find_app_none.
  - simpl. rewrite Nat.eqb_refl. reflexivity.
  - destruct (find _ old) as [s|] eqn:E; [|reflexivity].
    exfalso. apply (find_key_in _ scan_id) in E. destruct E as [Hin Hk].
    apply (next_id_fresh (map scan_id old)). rewrite <- Hid, <- Hk.
    apply in_map. exact Hin.
Qed.

Lemma model_validate_website (scan : Scan) (db : Database) (resp : ScanResponse) :
  model_validate scan db = Returned resp ->
  first_where (fun w => w_id w =? scan_website_id scan) (websites db)
    = Some (response_website resp).
Proof.
  unfold model_validate.
  destruct (first_where _ (websites db)) as [w|]; [|discriminate].
  destruct (with_test_definitions _ db); [|discriminate].
  intros H. inversion H. reflexivity.
Qed.

(** The website of a request, in the table the later steps start from: the
    query by URL and the query by its key both select it. *)
Lemma request_website_selected (url : string) (now : Time) (db base : Database)
    (website : Website) :
  website_keys_unique db ->
  ((website_by_url url db = Some website /\ base = db) \/
   (website_by_url url db = None /\
    website = {| w_id := next_id (map w_id (websites db)); w_url := url;
                 w_created_at := now; w_last_scan_at := None |} /\
    base = add_website website db)) ->
  find (fun w => String.eqb (w_url w) url) (websites base) = Some website /\
  find (fun w => w_id w =? w_id website) (websites base) = Some website /\
  w_url website = url /\
  website_keys_unique base.
Proof.
  intros Hpk [[Hfound ->]|[Hnone [Hw ->]]].
  - unfold website_by_url, first_where in Hfound. split; [exact Hfound|].
    pose proof (find_some _ _ Hfound) as [Hin Hurl].
    split; [apply (find_unique_key _ w_id); assumption|].
    split; [apply String.eqb_eq; exact Hurl | exact Hpk].
  - unfold website_by_url, first_where in Hnone.
    unfold add_website, set_websites, website_keys_unique in *. cbn [websites].
    split.
    { rewrite find_app_none; [|exact Hnone]. simpl. subst website. cbn [w_url].
      rewrite String.eqb_refl. reflexivity. }
    split.
    { rewrite find_app_none.
      - simpl. rewrite Nat.eqb_refl. reflexivity.
      - destruct (find (fun w => w_id w =? w_id website) (websites db))
          as [x|] eqn:E; [|reflexivity].
        exfalso. apply (find_key_in _ w_id) in E. destruct E as [Hin Hk].
        apply (next_id_fresh (map w_id (websites db))).
        subst website. cbn [w_id] in Hk. rewrite <- Hk. apply in_map. exact Hin. }
    split; [subst website; reflexivity|].
    rewrite map_app. cbn [map]. subst website. cbn [w_id].
    apply nodup_snoc_fresh. exact Hpk.
Qed.

(** X3: a request finds the website of its URL or creates it, never a
    second one.  After a request that succeeds on a store with unique website
    keys, the query by URL returns the website of the response, with
    [last_scan_at] set to the time of the request and the new scan linked to
    it; a known URL keeps its row (only [last_scan_at] changes) and the table
    its length, an unknown URL adds exactly one row. *)
Theorem start_scan_finds_or_creates_website
    (url : string) (env : RequestEnv) (db db' : Database)
    (resp : ScanResponse) (task : nat * string) :
  website_keys_unique db ->
  start_scan url env db = (Returned (resp, task), db') ->
  website_by_url url db' = Some (response_website resp) /\
  w_url (response_website resp) = url /\
  w_last_scan_at (response_website resp) = Some (request_now env) /\
  scan_website_id (response_scan resp) = w_id (response_website resp) /\
  website_keys_unique db' /\
  match website_by_url url db with
  | Some known =>
      response_website resp = set_last_scan_at (request_now env) known /\
      List.length (websites db') = List.length (websites db)
  | None => List.length (websites db') = S (List.length (websites db))
  end.
Proof.
  intros Hpk Hrun. apply start_scan_returned in Hrun.
  destruct (create_scan_committed url env db db' (resp, task) Hrun)
    as (website & base & Hsite & _ & Hdb' & _ & final & Hfinal & Hvalid).
  destruct (request_website_selected url (request_now env) db base website Hpk Hsite)
    as (Hurl & Hkey & Hwurl & Hpk').
  destruct (committed_tables _ _ _ _ _ _ _ Hdb')
    as (rows & Hwebs & Hscans & _ & _ & _ & _).
  assert (scans base = scans db) as Hbase.
  { destruct Hsite as [[_ ->]|[_ [_ ->]]]; reflexivity. }
  rewrite Hbase in Hscans.
  match type of Hscans with
  | scans db' = _ ++ [?ns] =>
      pose proof (created_scan_found ns (scans db) db' eq_refl Hscans) as Hfound
  end.
  cbn [scan_id] in Hfound. rewrite Hfound in Hfinal.
  inversion Hfinal; subst final; clear Hfinal Hfound. cbn [fst] in Hvalid.
  pose proof (model_validate_website _ _ _ Hvalid) as Hw.
  destruct (model_validate_returned _ _ _ Hvalid) as [Hscan _].
  cbn [scan_website_id] in Hw. unfold first_where in Hw. rewrite Hwebs in Hw.
  rewrite (find_update_first_same _ w_id (set_last_scan_at (request_now env))
             (fun _ => eq_refl)) in Hw.
  rewrite Hkey in Hw. cbn [option_map] in Hw. inversion Hw as [Hresp]. clear Hw.
  split.
  { unfold website_by_url, first_where. rewrite Hwebs.
    apply find_update_first_both; [reflexivity | exact Hkey | exact Hurl]. }
  split; [exact Hwurl|]. split; [reflexivity|].
  split; [rewrite Hscan; reflexivity|].
  split.
  { unfold website_keys_unique. rewrite Hwebs.
    rewrite (map_key_update_first _ w_id (set_last_scan_at (request_now env))
               (fun _ => eq_refl)). exact Hpk'. }
  rewrite Hwebs, update_first_length.
  destruct Hsite as [[Hfound ->]|[Hnone [_ ->]]].
  - rewrite Hfound. split; reflexivity.
  - rewrite Hnone. unfold add_website, set_websites. cbn [websites].
    rewrite length_app. cbn [List.length]. lia.
Qed.

Lemma start_scan_finds_or_creates_website_witness :
  exists resp,
    repeat_response = Some resp /\
    website_by_url "http://example.com/" (snd repeat_request)
      = Some (response_website resp) /\
    w_url (response_website resp) = "http://example.com/" /\
    w_last_scan_at (response_website resp) = Some (request_now quiet_request_env) /\
    scan_website_id (response_scan resp) = w_id (response_website resp) /\
    website_keys_unique (snd repeat_request) /\
    match website_by_url "http://example.com/" store_with_pending_scan with
    | Some known =>
        response_website resp
          = set_last_scan_at (request_now quiet_request_env) known /\
        List.length (websites (snd repeat_request))
          = List.length (websites store_with_pending_scan)
    | None =>
        List.length (websites (snd repeat_request))
          = S (List.length (websites store_with_pending_scan))
    end.
Proof.
  destruct repeat_response as [resp|] eqn:E; [|vm_compute in E; discriminate E].
  exists resp. split; [reflexivity|].
  apply (start_scan_finds_or_creates_website "http://example.com/"
           quiet_request_env store_with_pending_scan (snd repeat_request)
           resp (2, "http://example.com/")).
  - unfold website_keys_unique. vm_compute. repeat constructor; simpl; tauto.
  - vm_compute in E. inversion E; subst resp. vm_compute. reflexivity.
Defined.

(** X4: a request that succeeds leaves what the store held in place: every
    scan and every result that a key selected before is selected unchanged
    after, the catalog is the same, and the new scan has a key no scan had. *)
Theorem start_scan_keeps_history
    (url : string) (env : RequestEnv) (db db' : Database)
    (resp : ScanResponse) (task : nat * string) :
  start_scan url env db = (Returned (resp, task), db') ->
  (forall id s, scan_by_id id db = Some s -> scan_by_id id db' = Some s) /\
  (forall id r, scan_result_by_id id db = Some r ->
                scan_result_by_id id db' = Some r) /\
  test_definitions db' = test_definitions db /\
  ~ In (fst task) (map scan_id (scans db)) /\
  List.length (scans db') = S (List.length (scans db)).
Proof.
  intros Hrun. apply start_scan_returned in Hrun.
  destruct (create_scan_returned _ _ _ _ _ Hrun)
    as (new_scan & rows & final & Htask & Hid & _ & _ & Hscans & Hres & Hcat & _).
  cbn [snd] in Htask. subst task. cbn [fst].
  split; [|split; [|split; [exact Hcat|split]]].
  - intros id s Hs. unfold scan_by_id, first_where in *. rewrite Hscans.
    apply find_app_some. exact Hs.
  - intros id r Hr. unfold scan_result_by_id, first_where in *. rewrite Hres.
    apply find_app_some. exact Hr.
  - rewrite Hid. apply next_id_fresh.
  - rewrite Hscans, length_app. cbn [List.length]. lia.
Qed.

Lemma start_scan_keeps_history_witness :
  (forall id s, scan_by_id id store_with_pending_scan = Some s ->
                scan_by_id id (snd second_request) = Some s) /\
  (forall id r, scan_result_by_id id store_with_pending_scan = Some r ->
                scan_result_by_id id (snd second_request) = Some r) /\
  test_definitions (snd second_request) = test_definitions store_with_pending_scan /\
  ~ In 2 (map scan_id (scans store_with_pending_scan)) /\
  List.length (scans (snd second_request))
    = S (List.length (scans store_with_pending_scan)).
Proof.
  destruct second_response as [resp|] eqn:E; [|vm_compute in E; discriminate E].
  apply (start_scan_keeps_history "http://example.org/" quiet_request_env
           store_with_pending_scan (snd second_request)
           resp (2, "http://example.org/")).
  vm_compute in E. inversion E; subst resp. vm_compute. reflexivity.
Defined.

(** X5: the scan a request has created can be polled at once: [GET
    /scans/{id}] with the id of the response returns the very response the
    request returned, and does not change the store. *)
Theorem created_scan_can_be_polled
    (url : string) (env : RequestEnv) (db db' : Database)
    (resp : ScanResponse) (task : nat * string) :
  start_scan url env db = (Returned (resp, task), db') ->
  scan_id (response_scan resp) = fst task /\
  get_scan_status (fst task) db' = (Returned resp, db').
Proof.
  intros Hrun. apply start_scan_returned in Hrun.
  destruct (create_scan_returned _ _ _ _ _ Hrun)
    as (new_scan & rows & final & Htask & Hid & _ & _ & Hscans & _ & _ & _
        & _ & _ & _ & Hfinal & Hvalid).
  cbn [snd fst] in *. subst task. cbn [fst].
  pose proof (created_scan_found new_scan (scans db) db' Hid Hscans) as Hfound.
  rewrite Hfound in Hfinal. inversion Hfinal; subst final.
  destruct (model_validate_returned _ _ _ Hvalid) as [Hscan _].
  split; [rewrite Hscan; reflexivity|].
  unfold get_scan_status, execute, bind, get, ret, lift.
  rewrite Hfound, Hvalid. reflexivity.
Qed.

Lemma created_scan_can_be_polled_witness :
  exists resp,
    second_response = Some resp /\
    scan_id (response_scan resp) = 2 /\
    get_scan_status 2 (snd second_request) = (Returned resp, snd second_request).
Proof.
  destruct second_response as [resp|] eqn:E; [|vm_compute in E; discriminate E].
  exists resp. split; [reflexivity|].
  apply (created_scan_can_be_polled "http://example.org/" quiet_request_env
           store_with_pending_scan (snd second_request)
           resp (2, "http://example.org/")).
  vm_compute in E. inversion E; subst resp. vm_compute. reflexivity.
Defined.

(** X6: the report of a scan that has just been created is refused: until
    the background execution has written a final status, [GET
    /scans/{id}/report] answers with an HTTP 400 and leaves the store
    alone. *)
Theorem report_refused_before_execution
    (url : string) (env : RequestEnv) (db db' : Database)
    (resp : ScanResponse) (task : nat * string) :
  start_scan url env db = (Returned (resp, task), db') ->
  download_scan_report (fst task) db' =
    (Raised (HTTPException 400
               (fstr ["Scan "; str_nat (fst task);
                      " is not yet complete. Status: pending"])), db').
Proof.
  intros Hrun. apply start_scan_returned in Hrun.
  destruct (create_scan_returned _ _ _ _ _ Hrun)
    as (new_scan & rows & final & Htask & Hid & Hst & _ & Hscans & _).
  cbn [snd fst] in *. subst task. cbn [fst].
  pose proof (created_scan_found new_scan (scans db) db' Hid Hscans) as Hfound.
  unfold download_scan_report, execute, bind, get, ret.
  rewrite Hfound, Hst. reflexivity.
Qed.

Lemma report_refused_before_execution_witness :
  download_scan_report 2 (snd second_request) =
    (Raised (HTTPException 400 "Scan 2 is not yet complete. Status: pending"),
     snd second_request).
Proof.
  destruct second_response as [resp|] eqn:E; [|vm_compute in E; discriminate E].
  apply (report_refused_before_execution "http://example.org/" quiet_request_env
           store_with_pending_scan (snd second_request)
           resp (2, "http://example.org/")).
  vm_compute in E. inversion E; subst resp. vm_compute. reflexivity.
Defined.

(** X7: for a [scan_id] the store can bind, the two read endpoints answer
    an id that no scan of the store has with the HTTP 404 "Scan with ID N
    not found", answer no other id with a 404, and never change the
    store. *)
Theorem unknown_scan_is_not_found (id : nat) (db : Database) :
  sqlite_integer id ->
  (~ In id (map scan_id (scans db)) ->
   get_scan_status id db
     = (Raised (HTTPException 404 (fstr ["Scan with ID "; str_nat id; " not found"])),
        db) /\
   download_scan_report id db
     = (Raised (HTTPException 404 (fstr ["Scan with ID "; str_nat id; " not found"])),
        db)) /\
  (In id (map scan_id (scans db)) ->
   (forall detail,
      fst (get_scan_status id db) <> Raised (HTTPException 404 detail)) /\
   (forall detail,
      fst (download_scan_report id db) <> Raised (HTTPException 404 detail))) /\
  snd (get_scan_status id db) = db /\
  snd (download_scan_report id db) = db.
Proof.
  intros _.
  assert (scan_by_id id db = None <-> ~ In id (map scan_id (scans db))) as Hnone.
  { unfold scan_by_id, first_where. split.
    - intros H Hin. apply in_map_iff in Hin. destruct Hin as [s [Hs Hin]].
      apply (find_none _ _ H) in Hin. apply Nat.eqb_neq in Hin. contradiction.
    - intros H. destruct (find _ (scans db)) as [s|] eqn:E; [|reflexivity].
      exfalso. apply H. apply (find_key_in _ scan_id) in E. destruct E as [Hin <-].
      apply in_map. exact Hin. }
  unfold get_scan_status, download_scan_report, execute, bind, get, ret, lift, raise.
  destruct (scan_by_id id db) as [s|] eqn:Hs.
  - assert (In id (map scan_id (scans db))) as Hin.
    { apply (find_key_in _ scan_id) in Hs. destruct Hs as [Hin <-].
      apply in_map. exact Hin. }
    split; [intros Hout; contradiction|]. split; [|split].
    + intros _. split; intros detail H.
      * unfold model_validate in H.
        destruct (first_where _ (websites db));
          [destruct (with_test_definitions _ db)|]; discriminate H.
      * destruct (status_eqb (scan_status s) COMPLETED
                  || status_eqb (scan_status s) ERROR); [|discriminate H].
        unfold model_validate in H.
        destruct (first_where _ (websites db));
          [destruct (with_test_definitions _ db)|]; discriminate H.
    + reflexivity.
    + destruct (status_eqb (scan_status s) COMPLETED || status_eqb (scan_status s) ERROR);
        [|reflexivity].
      destruct (model_validate s db); reflexivity.
  - pose proof (proj1 Hnone eq_refl) as Hout.
    split; [intros _; split; reflexivity|].
    split; [intros Hin; contradiction|]. split; reflexivity.
Qed.

Lemma unknown_scan_is_not_found_witness :
  (~ In 99 (map scan_id (scans store_with_pending_scan)) ->
   get_scan_status 99 store_with_pending_scan
     = (Raised (HTTPException 404 (fstr ["Scan with ID "; str_nat 99; " not found"])),
        store_with_pending_scan) /\
   download_scan_report 99 store_with_pending_scan
     = (Raised (HTTPException 404 (fstr ["Scan with ID "; str_nat 99; " not found"])),
        store_with_pending_scan)) /\
  (In 99 (map scan_id (scans store_with_pending_scan)) ->
   (forall detail,
      fst (get_scan_status 99 store_with_pending_scan)
      <> Raised (HTTPException 404 detail)) /\
   (forall detail,
      fst (download_scan_report 99 store_with_pending_scan)
      <> Raised (HTTPException 404 detail))) /\
  snd (get_scan_status 99 store_with_pending_scan) = store_with_pending_scan /\
  snd (download_scan_report 99 store_with_pending_scan) = store_with_pending_scan.
Proof.
  apply (unknown_scan_is_not_found 99 store_with_pending_scan).
  unfold sqlite_integer. reflexivity.
Defined.

(** ** Requests on a healthy store *)

Lemma find_key_some {A : Type} (key : A -> nat) (k : nat) (rows : list A) :
  In k (map key rows) -> exists r, find (fun x => key x =? k) rows = Some r.
Proof.
  induction rows as [|x rest IH]; simpl; [tauto|].
  intros [H|H].
  - exists x. rewrite H, Nat.eqb_refl. reflexivity.
  - destruct (key x =? k); [exists x; reflexivity | apply IH; exact H].
Qed.

Lemma with_test_definitions_total (results : list ScanResult) (db : Database) :
  (forall r, In r results ->
             In (sr_test_definition_id r) (map td_id (test_definitions db))) ->
  exists l, with_test_definitions results db = Some l.
Proof.
  induction results as [|r rest IH]; simpl; intros H; [eauto|].
  destruct (find_key_some td_id (sr_test_definition_id r) (test_definitions db))
    as [t Ht]; [apply H; left; reflexivity|].
  destruct IH as [l Hl]; [intros x Hx; apply H; right; exact Hx|].
  unfold test_definition_by_id, first_where. rewrite Ht, Hl. eauto.
Qed.

(** The scan a transaction has added is found again and validates, when no
    earlier row refers to its key and its website is in the table. *)
Lemma committed_scan_validates (now : Time) (ns : Scan) (base db' : Database) :
  db' = update_website (scan_website_id ns) (set_last_scan_at now)
          (fold_left (fun s t => add_scan_result (scan_id ns) (td_id t) s)
             (test_definitions base) (add_scan ns base)) ->
  scan_id ns = next_id (map scan_id (scans base)) ->
  In (scan_website_id ns) (map w_id (websites base)) ->
  foreign_keys_hold base ->
  scan_by_id (scan_id ns) db' = Some ns /\
  exists resp, model_validate ns db' = Returned resp.
Proof.
  intros Hdb Hid Hw Hfk.
  destruct (committed_tables _ _ _ _ _ _ _ Hdb)
    as [rows [Hws [Hscans [Hcat [Hres [Hmap Hall]]]]]].
  split; [apply (created_scan_found ns (scans base) db' Hid Hscans)|].
  unfold model_validate.
  assert (exists w, first_where (fun w => w_id w =? scan_website_id ns) (websites db')
                    = Some w) as [w ->].
  { unfold first_where. apply (find_key_some w_id). rewrite Hws.
    rewrite (map_key_update_first _ w_id (set_last_scan_at now) (fun _ => eq_refl)).
    exact Hw. }
  destruct (with_test_definitions_total (results_of (scan_id ns) db') db')
    as [l ->]; [|eauto].
  intros r Hr. unfold results_of in Hr. apply filter_In in Hr.
  destruct Hr as [Hin Hsid]. rewrite Hres in Hin. rewrite Hcat.
  apply in_app_or in Hin. destruct Hin as [Hold|Hnew].
  - rewrite Hid, (no_result_of_next_scan base r Hfk Hold) in Hsid. discriminate.
  - rewrite <- Hmap. apply in_map. exact Hnew.
Qed.

(** On a store that meets the foreign-key constraint and has a catalog, a
    request whose statements the store accepts returns: the new scan is found
    again and goes through the response model. *)
Lemma start_scan_healthy
    (url : string) (env : RequestEnv) (db : Database) :
  quiet_store env -> test_definitions db <> [] -> foreign_keys_hold db ->
  exists resp db',
    start_scan url env db
      = (Returned (resp, (next_id (map scan_id (scans db)), url)), db').
Proof.
  intros Hq Hcat Hfk.
  unfold start_scan, try_except, create_scan, transaction.
  unfold bind, await_stmt, get, ret.
  rewrite !Hq.
  destruct (website_by_url url db) as [w|] eqn:Hw.
  - cbn [modify]. destruct (test_definitions db) as [|t ts] eqn:Ht; [congruence|].
    cbn [modify]. rewrite for_each_modify. rewrite <- Ht.
    match goal with
    | |- context [scan_by_id (scan_id ?ns) ?d] =>
        destruct (committed_scan_validates (request_now env) ns db d)
          as [Hfound [resp Hvalid]]
    end.
    + cbn [scan_id scan_website_id]. rewrite Ht. reflexivity.
    + reflexivity.
    + cbn [scan_website_id]. unfold website_by_url, first_where in Hw.
      apply find_some in Hw. apply in_map. apply Hw.
    + exact Hfk.
    + rewrite Hfound. unfold lift. rewrite Hvalid. cbn [scan_id]. eauto.
  - cbn [modify].
    change (test_definitions (add_website _ db)) with (test_definitions db).
    destruct (test_definitions db) as [|t ts] eqn:Ht; [congruence|].
    cbn [modify]. rewrite for_each_modify. rewrite <- Ht.
    match goal with
    | |- context [scan_by_id (scan_id ?ns) (update_website _ _ (fold_left _ _ (add_scan _ ?b)))] =>
        destruct (committed_scan_validates (request_now env) ns b
                    (update_website (scan_website_id ns)
                       (set_last_scan_at (request_now env))
                       (fold_left (fun s t => add_scan_result (scan_id ns) (td_id t) s)
                          (test_definitions b) (add_scan ns b))))
          as [Hfound [resp Hvalid]]
    end.
    + reflexivity.
    + reflexivity.
    + cbn [scan_website_id w_id]. unfold add_website, set_websites. cbn [websites].
      rewrite map_app, in_app_iff. right. left. reflexivity.
    + exact Hfk.
    + cbn [scan_id scan_website_id w_id] in *.
      change (test_definitions (add_website _ db)) with (test_definitions db) in *.
      change (scans (add_website _ db)) with (scans db) in *.
      rewrite Hfound. unfold lift. rewrite Hvalid. eauto.
Qed.


(** ** What a background execution leaves as it is *)

Lemma untouched_refl (id : nat) (ids : list nat) (db : Database) :
  untouched_outside id ids db db.
Proof. repeat split; reflexivity. Qed.

Lemma untouched_trans (id : nat) (ids : list nat) (db1 db2 db3 : Database) :
  untouched_outside id ids db1 db2 -> untouched_outside id ids db2 db3 ->
  untouched_outside id ids db1 db3.
Proof.
  intros (A1 & A2 & A3 & A4 & A5 & A6) (B1 & B2 & B3 & B4 & B5 & B6).
  repeat split; try congruence.
  - intros id' H. rewrite (B5 id' H). apply A5. exact H.
  - intros rid H. rewrite (B6 rid H). apply A6. exact H.
Qed.

Lemma map_update_first_kept {A B : Type} (g : A -> B) (p : A -> bool) (f : A -> A)
    (rows : list A) :
  (forall r, g (f r) = g r) -> map g (update_first p f rows) = map g rows.
Proof.
  intros Hg. induction rows as [|r rest IH]; simpl; [reflexivity|].
  destruct (p r); simpl; [rewrite Hg | rewrite IH]; reflexivity.
Qed.

Lemma untouched_update_scan (id : nat) (ids : list nat) (st : TestStatusEnum)
    (now : Time) (db : Database) :
  untouched_outside id ids db (update_scan id (set_scan_outcome st now) db).
Proof.
  unfold untouched_outside, update_scan, set_scans, scan_by_id, scan_result_by_id,
    first_where. cbn [websites test_definitions scans scan_results].
  repeat split; try reflexivity.
  - apply map_update_first_kept. reflexivity.
  - intros id' H. apply (find_update_first_other _ scan_id); [reflexivity | congruence].
Qed.

Lemma untouched_update_result (id rid : nat) (ids : list nat)
    (f : ScanResult -> ScanResult) (db : Database) :
  (forall r, result_keys (f r) = result_keys r) -> In rid ids ->
  untouched_outside id ids db (update_scan_result rid f db).
Proof.
  intros Hf Hin.
  unfold untouched_outside, update_scan_result, set_scan_results, scan_by_id,
    scan_result_by_id, first_where. cbn [websites test_definitions scans scan_results].
  repeat split; try reflexivity.
  - apply map_update_first_kept. exact Hf.
  - intros rid' H. apply (find_update_first_other _ sr_id).
    + intros r. pose proof (Hf r) as E. unfold result_keys in E. congruence.
    + intros E. apply H. rewrite <- E. exact Hin.
Qed.

Lemma unit_effect_untouched (id uid : nat) (ids : list nat) (db db' : Database)
    (p p' : UnitPhase) :
  In uid ids -> unit_effect uid db p p' db' -> untouched_outside id ids db db'.
Proof.
  intros Hin H. inversion H; subst.
  - apply untouched_refl.
  - apply untouched_update_result; [reflexivity | exact Hin].
  - apply untouched_update_result; [reflexivity | exact Hin].
Qed.

Lemma step_nth_untouched (id : nat) (ids : list nat) (url : string) (i : nat)
    (tasks : list UnitTask) (db : Database) :
  Forall (fun u => In (unit_id u) ids) tasks ->
  exists tasks' db',
    step_nth url i tasks db = (Returned tasks', db') /\
    Forall (fun u => In (unit_id u) ids) tasks' /\
    untouched_outside id ids db db'.
Proof.
  intros Hall.
  destruct (step_nth_effect url i tasks db)
    as [H|[pre [u [post [u' [db' [Hsplit [H [Hid Heff]]]]]]]]]; rewrite H.
  - exists tasks, db. split; [reflexivity|]. split; [exact Hall | apply untouched_refl].
  - exists (pre ++ u' :: post), db'. split; [reflexivity|]. subst tasks.
    rewrite Forall_app in Hall. destruct Hall as [Hpre Hrest].
    inversion Hrest as [|? ? Hu Hpost]; subst.
    split.
    + rewrite Forall_app. split; [exact Hpre|]. constructor; [|exact Hpost].
      rewrite Hid. exact Hu.
    + apply (unit_effect_untouched id (unit_id u) ids _ _ _ _ Hu Heff).
Qed.

Lemma run_schedule_untouched (id : nat) (ids : list nat) (url : string)
    (sched : list nat) (tasks : list UnitTask) (db : Database) :
  Forall (fun u => In (unit_id u) ids) tasks ->
  exists tasks' db',
    run_schedule url sched tasks db = (Returned tasks', db') /\
    Forall (fun u => In (unit_id u) ids) tasks' /\
    untouched_outside id ids db db'.
Proof.
  revert tasks db. induction sched as [|i later IH]; intros tasks db Hall.
  - exists tasks, db. split; [reflexivity|].
    split; [exact Hall | apply untouched_refl].
  - cbn [run_schedule]. unfold bind.
    destruct (step_nth_untouched id ids url i tasks db Hall)
      as [t1 [db1 [H1 [Hall1 F1]]]].
    rewrite H1.
    destruct (IH t1 db1 Hall1) as [t2 [db2 [H2 [Hall2 F2]]]].
    exists t2, db2. split; [exact H2|]. split; [exact Hall2|].
    apply (untouched_trans _ _ _ _ _ F1 F2).
Qed.

Lemma run_to_completion_untouched (id : nat) (ids : list nat) (url : string)
    (tasks : list UnitTask) (db : Database) :
  Forall (fun u => In (unit_id u) ids) tasks ->
  exists tasks' db',
    run_to_completion url tasks db = (Returned tasks', db') /\
    untouched_outside id ids db db'.
Proof.
  revert db. induction tasks as [|t rest IH]; intros db Hall.
  - exists [], db. split; [reflexivity | apply untouched_refl].
  - inversion Hall as [|? ? Ht Hrest]; subst.
    cbn [run_to_completion]. unfold bind.
    destruct (unit_step_effect url t db) as [t1 [db1 [H1 [Hid1 E1]]]].
    destruct (unit_step_effect url t1 db1) as [t2 [db2 [H2 [_ E2]]]].
    rewrite H1, H2.
    destruct (IH db2 Hrest) as [rest' [db3 [H3 F3]]]. rewrite H3. unfold ret.
    exists (t2 :: rest'), db3. split; [reflexivity|].
    apply (untouched_trans _ _ _ db1);
      [apply (unit_effect_untouched id (unit_id t) ids _ _ _ _ Ht E1)|].
    apply (untouched_trans _ _ _ db2); [|exact F3].
    rewrite <- Hid1 in Ht.
    apply (unit_effect_untouched id (unit_id t1) ids _ _ _ _ Ht E2).
Qed.

Lemma wait_for_tasks_untouched (id : nat) (ids : list nat) (url : string)
    (sched : list nat) (tasks : list UnitTask) (db : Database) :
  Forall (fun u => In (unit_id u) ids) tasks ->
  exists db',
    wait_for_tasks url sched tasks db = (Returned tt, db') /\
    untouched_outside id ids db db'.
Proof.
  intros Hall. unfold wait_for_tasks, try_except, gather, bind.
  destruct (run_schedule_untouched id ids url sched tasks db Hall)
    as [t1 [db1 [H1 [Hall1 F1]]]].
  rewrite H1.
  destruct (run_to_completion_untouched id ids url t1 db1 Hall1) as [t2 [db2 [H2 F2]]].
  rewrite H2. unfold ret. exists db2. split; [reflexivity|].
  apply (untouched_trans _ _ _ _ _ F1 F2).
Qed.

Lemma untouched_option_update (id : nat) (ids : list nat) (st : TestStatusEnum)
    (now : Time) (db : Database) (found : option Scan) :
  untouched_outside id ids db
    match found with
    | Some _ => update_scan id (set_scan_outcome st now) db
    | None => db
    end.
Proof. destruct found; [apply untouched_update_scan | apply untouched_refl]. Qed.

(** When the store takes the write that marks the scan after a fetch it
    refused, or the fetch itself, the execution returns. *)
Lemma run_all_untouched
    (id : nat) (url : string) (env : ScanEnv) (db : Database) :
  error_write_fault env = NoFault ->
  exists launched db',
    run_all_tests_for_scan id url env db = (Returned launched, db') /\
    untouched_outside id (scan_result_ids_of id db) db db'.
Proof.
  intros Hmark. unfold error_write_fault in Hmark.
  destruct (fetch_raises env) as [failure|] eqn:Hfetch.
  - rewrite (run_all_fetch_marked db id url env failure Hfetch Hmark).
    eexists. eexists. split; [reflexivity|].
    rewrite mark_scan_error_run. cbn [snd]. apply untouched_option_update.
  - unfold run_all_tests_for_scan. unfold bind at 1.
    rewrite (fetch_scan_result_ids_ok id env db Hfetch).
    destruct (scan_result_ids_of id db) as [|first_id other_ids] eqn:Hids.
    + unfold bind. rewrite mark_scan_without_tests_run. unfold ret.
      eexists. eexists. split; [reflexivity|].
      destruct (scan_by_id id db) as [s|]; [|apply untouched_refl].
      destruct (status_eqb (scan_status s) PENDING);
        [apply untouched_update_scan | apply untouched_refl].
    + unfold bind.
      destruct (wait_for_tasks_untouched id (first_id :: other_ids) url (schedule env)
                  (map (new_task env) (first_id :: other_ids)) db) as [dbw [Hw Fw]].
      { rewrite Forall_map. rewrite Forall_forall. intros x Hx. exact Hx. }
      rewrite Hw. rewrite final_check_run. unfold ret.
      eexists. eexists. split; [reflexivity|].
      eapply untouched_trans; [exact Fw|]. apply untouched_option_update.
Qed.

(** Whether the execution returns or the exception of the marking
    transaction leaves it. *)
Lemma run_all_untouched_store
    (id : nat) (url : string) (env : ScanEnv) (db : Database) :
  untouched_outside id (scan_result_ids_of id db) db
    (snd (run_all_tests_for_scan id url env db)).
Proof.
  destruct (fault_cases (error_write_fault env)) as [Hmark|Hmark].
  - destruct (run_all_untouched id url env db Hmark) as [launched [db' [Hrun H]]].
    rewrite Hrun. exact H.
  - unfold error_write_fault in Hmark.
    destruct (fetch_raises env) as [failure|] eqn:Hfetch; [|contradiction].
    destruct (run_all_fetch_refused db id url env failure Hfetch Hmark) as [msg Hrun].
    rewrite Hrun. apply untouched_refl.
Qed.

(** X8: whether a background execution returns or an exception leaves it,
    it has written to the row of its scan and to the ScanResult rows it
    fetched, nowhere else: the websites and the catalog are as before, no
    row is added or removed, no row changes its key or what it refers to,
    and every other scan and every ScanResult whose id was not fetched is
    found unchanged. *)
Theorem background_execution_frame
    (id : nat) (url : string) (env : ScanEnv) (db : Database) :
  websites (snd (run_all_tests_for_scan id url env db)) = websites db /\
  test_definitions (snd (run_all_tests_for_scan id url env db))
    = test_definitions db /\
  map scan_keys (scans (snd (run_all_tests_for_scan id url env db)))
    = map scan_keys (scans db) /\
  map result_keys (scan_results (snd (run_all_tests_for_scan id url env db)))
    = map result_keys (scan_results db) /\
  (forall id', id' <> id ->
     scan_by_id id' (snd (run_all_tests_for_scan id url env db))
     = scan_by_id id' db) /\
  (forall rid, ~ In rid (scan_result_ids_of id db) ->
     scan_result_by_id rid (snd (run_all_tests_for_scan id url env db))
     = scan_result_by_id rid db).
Proof.
  pose proof (run_all_untouched_store id url env db) as H.
  unfold untouched_outside in H. exact H.
Qed.

(** ** The report of a scan after its background execution *)

Lemma with_test_definitions_some (results : list ScanResult) (db : Database)
    (l : list (ScanResult * TestDefinition)) :
  with_test_definitions results db = Some l ->
  forall r, In r results ->
            In (sr_test_definition_id r) (map td_id (test_definitions db)).
Proof.
  revert l. induction results as [|x rest IH]; simpl; intros l H r Hr; [tauto|].
  destruct (test_definition_by_id (sr_test_definition_id x) db) as [t|] eqn:Ht;
    [|discriminate].
  destruct (with_test_definitions rest db) as [l'|]; [|discriminate].
  destruct Hr as [<-|Hr]; [|apply (IH l' eq_refl r Hr)].
  unfold test_definition_by_id, first_where in Ht.
  apply (find_key_in _ td_id) in Ht. destruct Ht as [Hin Hk].
  rewrite <- Hk. apply in_map. exact Hin.
Qed.

Lemma filter_same_keys (id : nat) (rows rows' : list ScanResult) :
  map result_keys rows' = map result_keys rows ->
  map result_keys (filter (fun r => sr_scan_id r =? id) rows')
  = map result_keys (filter (fun r => sr_scan_id r =? id) rows).
Proof.
  revert rows. induction rows' as [|x rest IH]; intros [|y rest'] H; simpl in *;
    try discriminate; [reflexivity|].
  inversion H as [[H1 H2 H3 Hrest]]. rewrite H2.
  destruct (sr_scan_id y =? id); simpl; [|apply IH; exact Hrest].
  unfold result_keys at 1 3. rewrite H1, H2, H3. f_equal. apply IH. exact Hrest.
Qed.

(** A scan that validated still validates after the execution, whatever was
    written to its row. *)
Lemma validates_untouched (id : nat) (ids : list nat) (db db' : Database)
    (scan scan' : Scan) :
  untouched_outside id ids db db' ->
  scan_id scan = id -> scan_id scan' = id ->
  scan_website_id scan' = scan_website_id scan ->
  validates scan db = true ->
  exists resp, model_validate scan' db' = Returned resp.
Proof.
  intros (Hw & Hc & _ & Hrows & _ & _) Hid Hid' Hsite Hv.
  unfold validates, model_validate in *.
  rewrite Hw, Hsite.
  destruct (first_where _ (websites db)) as [w|]; [|discriminate Hv].
  destruct (with_test_definitions (results_of (scan_id scan) db) db) as [l|] eqn:El;
    [|discriminate Hv].
  destruct (with_test_definitions_total (results_of (scan_id scan') db') db')
    as [l' ->]; [|eauto].
  intros r Hr. rewrite Hc.
  assert (In (sr_test_definition_id r)
            (map sr_test_definition_id (results_of id db))) as Hin.
  { pose proof (filter_same_keys id _ _ Hrows) as Hk.
    apply (f_equal (map (fun k : nat * nat * nat => snd k))) in Hk.
    rewrite !map_map in Hk.
    assert (map sr_test_definition_id (results_of id db')
            = map sr_test_definition_id (results_of id db)) as <- by exact Hk.
    rewrite Hid' in Hr. apply in_map. exact Hr. }
  apply in_map_iff in Hin. destruct Hin as [r0 [E Hr0]]. rewrite <- E.
  rewrite <- Hid in Hr0. apply (with_test_definitions_some _ _ _ El r0 Hr0).
Qed.

(** Every branch of a background execution writes COMPLETED or ERROR, and
    the time, to a scan that was PENDING. *)
Lemma run_all_settles_scan
    (id : nat) (url : string) (env : ScanEnv) (db : Database) (scan : Scan) :
  error_write_fault env = NoFault ->
  scan_by_id id db = Some scan -> scan_status scan = PENDING ->
  exists scan',
    scan_by_id id (snd (run_all_tests_for_scan id url env db)) = Some scan' /\
    (scan_status scan' = COMPLETED \/ scan_status scan' = ERROR) /\
    scan_completed_at scan' = Some (scan_now env) /\
    scan_id scan' = scan_id scan /\
    scan_website_id scan' = scan_website_id scan.
Proof.
  intros Hmark Hscan Hst. unfold error_write_fault in Hmark.
  destruct (fetch_raises env) as [failure|] eqn:Hfetch.
  - rewrite (run_all_fetch_marked db id url env failure Hfetch Hmark). cbn [snd].
    rewrite mark_scan_error_run, Hscan. cbn [snd].
    rewrite scan_by_id_update_scan, Hscan. cbn [option_map].
    eexists. split; [reflexivity|]. cbn. auto.
  - destruct (scan_result_ids_of id db) as [|first_id other_ids] eqn:Hids.
    + rewrite (run_all_without_results db id url env Hfetch Hids). cbn [snd].
      rewrite mark_scan_without_tests_run, Hscan, Hst. cbn [status_eqb snd].
      rewrite scan_by_id_update_scan, Hscan. cbn [option_map].
      eexists. split; [reflexivity|]. cbn. auto.
    + rewrite (run_all_ends_with_final_check db id url env first_id other_ids
                 Hfetch Hids). cbn [snd].
      destruct (wait_for_tasks_frame url (schedule env)
                  (map (new_task env) (first_id :: other_ids)) db) as [Hscans _].
      set (joined := snd (wait_for_tasks url (schedule env)
                            (map (new_task env) (first_id :: other_ids)) db)) in *.
      assert (scan_by_id id joined = Some scan) as Hjoined.
      { unfold scan_by_id. rewrite Hscans. exact Hscan. }
      rewrite final_check_run, Hjoined. cbn [snd].
      rewrite scan_by_id_update_scan, Hjoined. cbn [option_map].
      eexists. split; [reflexivity|].
      cbn [set_scan_outcome scan_status scan_completed_at scan_id scan_website_id].
      rewrite overall_status_closed_form.
      destruct (_ && _); auto.
Qed.

(** X9: the report of a scan after its background execution.  For a
    PENDING scan that goes through the response model: when the store takes
    the fetch of the ids, or refuses it and then takes the write that marks
    the scan, the execution returns and afterwards [download_scan_report]
    returns its message with the scan details, which [get_scan_status]
    returns as well, the scan COMPLETED or ERROR with the time of the
    write; when the store refuses the fetch and the marking write as well,
    the exception leaves the execution, the store is what it was, and the
    report is refused as before. *)
Theorem report_available_after_execution
    (id : nat) (url : string) (env : ScanEnv) (db : Database) (scan : Scan) :
  scan_by_id id db = Some scan ->
  scan_status scan = PENDING ->
  validates scan db = true ->
  (error_write_fault env = NoFault ->
   exists launched db' resp,
     run_all_tests_for_scan id url env db = (Returned launched, db') /\
     download_scan_report id db'
       = (Returned (fstr ["PDF report generation for scan "; str_nat id;
                          " is not yet implemented."], resp), db') /\
     get_scan_status id db' = (Returned resp, db') /\
     (scan_status (response_scan resp) = COMPLETED \/
      scan_status (response_scan resp) = ERROR) /\
     scan_completed_at (response_scan resp) = Some (scan_now env)) /\
  (error_write_fault env <> NoFault ->
   (exists msg,
      run_all_tests_for_scan id url env db = (Raised (SQLAlchemyError msg), db)) /\
   download_scan_report id db
     = (Raised (HTTPException 400
                  (fstr ["Scan "; str_nat id;
                         " is not yet complete. Status: pending"])), db)).
Proof.
  intros Hscan Hst Hv. split.
  - intros Hmark.
    destruct (run_all_untouched id url env db Hmark)
      as [launched [db' [Hrun Hframe]]].
    destruct (run_all_settles_scan id url env db scan Hmark Hscan Hst)
      as [scan' [Hscan' [Hsettled [Htime [Hid Hsite]]]]].
    rewrite Hrun in Hscan'. cbn [snd] in Hscan'.
    assert (scan_id scan = id) as Hkey.
    { unfold scan_by_id, first_where in Hscan.
      apply (find_key_in _ scan_id) in Hscan. apply Hscan. }
    destruct (validates_untouched id _ db db' scan scan' Hframe Hkey
                (eq_trans Hid Hkey) Hsite Hv) as [resp Hresp].
    exists launched, db', resp.
    destruct (model_validate_returned _ _ _ Hresp) as [Hrs _].
    split; [exact Hrun|].
    unfold download_scan_report, get_scan_status, execute, bind, get, ret, lift.
    rewrite Hscan'.
    assert (status_eqb (scan_status scan') COMPLETED
            || status_eqb (scan_status scan') ERROR = true) as ->.
    { destruct Hsettled as [-> | ->]; reflexivity. }
    rewrite !Hresp, Hrs. repeat split; auto.
  - intros Hmark. unfold error_write_fault in Hmark.
    destruct (fetch_raises env) as [failure|] eqn:Hfetch; [|contradiction].
    split; [apply (run_all_fetch_refused db id url env failure Hfetch Hmark)|].
    unfold download_scan_report, execute, bind, get, ret, raise.
    rewrite Hscan, Hst. reflexivity.
Qed.

Lemma report_available_after_execution_witness :
  (error_write_fault quiet_scan_env = NoFault ->
   exists launched db' resp,
     run_all_tests_for_scan 1 "http://example.com/" quiet_scan_env
       store_with_pending_scan = (Returned launched, db') /\
     download_scan_report 1 db'
       = (Returned (fstr ["PDF report generation for scan "; str_nat 1;
                          " is not yet implemented."], resp), db') /\
     get_scan_status 1 db' = (Returned resp, db') /\
     (scan_status (response_scan resp) = COMPLETED \/
      scan_status (response_scan resp) = ERROR) /\
     scan_completed_at (response_scan resp) = Some (scan_now quiet_scan_env)) /\
  (error_write_fault quiet_scan_env <> NoFault ->
   (exists msg,
      run_all_tests_for_scan 1 "http://example.com/" quiet_scan_env
        store_with_pending_scan
      = (Raised (SQLAlchemyError msg), store_with_pending_scan)) /\
   download_scan_report 1 store_with_pending_scan
     = (Raised (HTTPException 400
                  (fstr ["Scan "; str_nat 1;
                         " is not yet complete. Status: pending"])),
        store_with_pending_scan)).
Proof.
  apply (report_available_after_execution 1 "http://example.com/" quiet_scan_env
           store_with_pending_scan first_scan).
  - vm_compute. reflexivity.
  - reflexivity.
  - vm_compute. reflexivity.
Defined.

(** ** One unit of work *)

(** X10: a unit of work that cannot begin does nothing.  When the ScanResult
    is not there, or its test definition is not, or the store refuses the
    first transaction, [run_single_test] returns with the store as it was:
    the row, if any, stays PENDING. *)
Theorem run_single_test_without_begin
    (id : nat) (url : string) (env : UnitEnv) (db : Database) :
  scan_result_by_id id db = None \/
  (exists r, scan_result_by_id id db = Some r /\
             test_definition_by_id (sr_test_definition_id r) db = None) \/
  begin_fault env <> NoFault ->
  run_single_test id url env db = (Returned tt, db).
Proof.
  intros H. unfold run_single_test, bind.
  destruct (mark_in_progress_run id env db) as [Hm|[r [t [Hr [Ht [Hf _]]]]]].
  - rewrite Hm. reflexivity.
  - exfalso. destruct H as [H|[[r' [Hr' Ht']]|H]]; [congruence | | contradiction].
    rewrite Hr in Hr'. inversion Hr'; subst r'. congruence.
Qed.

Lemma run_single_test_without_begin_witness :
  run_single_test 99 "http://example.com/"
    (quiet_unit_env (Returned response_200_https)) store_with_pending_scan
  = (Returned tt, store_with_pending_scan).
Proof.
  apply (run_single_test_without_begin 99 "http://example.com/"
           (quiet_unit_env (Returned response_200_https)) store_with_pending_scan).
  left. vm_compute. reflexivity.
Defined.

(** The first transaction of a unit that finds its row and its test
    definition on a store without faults. *)
Lemma mark_in_progress_healthy (id : nat) (env : UnitEnv) (db : Database)
    (r : ScanResult) (t : TestDefinition) :
  scan_result_by_id id db = Some r ->
  test_definition_by_id (sr_test_definition_id r) db = Some t ->
  begin_fault env = NoFault ->
  mark_in_progress id env db
  = (Returned (Some (td_name t)),
     update_scan_result id (set_in_progress (started_now env)) db).
Proof.
  intros Hr Ht Hf.
  destruct (mark_in_progress_run id env db) as [Hm|[r' [t' [Hr' [Ht' [_ Hm]]]]]].
  - exfalso. revert Hm.
    unfold mark_in_progress, try_except, transaction, execute, commit.
    rewrite Hf. unfold bind, get, ret, modify. rewrite Hr, Ht. discriminate.
  - rewrite Hr in Hr'. inversion Hr'; subst r'.
    rewrite Ht in Ht'. inversion Ht'; subst t'. exact Hm.
Qed.

(** X11: a unit of work on a store without faults.  It returns, and its row
    holds what the probe reported: the status, the outcome and the three
    texts of the report, and both times; every other ScanResult is found
    unchanged, and so are the other tables. *)
Theorem run_single_test_records_report
    (id : nat) (url : string) (env : UnitEnv) (db : Database)
    (r : ScanResult) (t : TestDefinition) :
  scan_result_by_id id db = Some r ->
  test_definition_by_id (sr_test_definition_id r) db = Some t ->
  begin_fault env = NoFault ->
  finish_fault env = NoFault ->
  exists db',
    run_single_test id url env db = (Returned tt, db') /\
    scan_result_by_id id db'
      = Some (set_final_results (probe_report (td_name t) url env) (completed_now env)
                (set_in_progress (started_now env) r)) /\
    (forall id', id' <> id -> scan_result_by_id id' db' = scan_result_by_id id' db) /\
    websites db' = websites db /\
    test_definitions db' = test_definitions db /\
    scans db' = scans db.
Proof.
  intros Hr Ht Hb Hf.
  pose proof (mark_in_progress_healthy id env db r t Hr Ht Hb) as Hm.
  destruct (run_single_test_marked db _ id url (td_name t) env Hm) as [Hrun _].
  rewrite write_final_results_run, Hf in Hrun.
  rewrite scan_result_by_id_update_same in Hrun; [|reflexivity].
  rewrite Hr in Hrun. cbn [option_map] in Hrun.
  eexists. split; [exact Hrun|].
  split.
  { rewrite !scan_result_by_id_update_same; [|reflexivity|reflexivity].
    rewrite Hr. reflexivity. }
  split; [|repeat split; reflexivity].
  intros id' Hne.
  rewrite !scan_result_by_id_update_other; auto.
Qed.

Lemma run_single_test_records_report_witness :
  exists db',
    run_single_test 1 "http://example.com/"
      (quiet_unit_env (Returned response_200_https)) store_with_pending_scan
      = (Returned tt, db') /\
    scan_result_by_id 1 db'
      = Some (set_final_results
                (probe_report (td_name first_test_definition) "http://example.com/"
                   (quiet_unit_env (Returned response_200_https)))
                (completed_now (quiet_unit_env (Returned response_200_https)))
                (set_in_progress
                   (started_now (quiet_unit_env (Returned response_200_https)))
                   first_result)) /\
    (forall id', id' <> 1 ->
       scan_result_by_id id' db' = scan_result_by_id id' store_with_pending_scan) /\
    websites db' = websites store_with_pending_scan /\
    test_definitions db' = test_definitions store_with_pending_scan /\
    scans db' = scans store_with_pending_scan.
Proof.
  apply (run_single_test_records_report 1 "http://example.com/"
           (quiet_unit_env (Returned response_200_https)) store_with_pending_scan
           first_result first_test_definition).
  - vm_compute. reflexivity.
  - vm_compute. reflexivity.
  - reflexivity.
  - reflexivity.
Defined.

(** X12: a unit whose final write the store refuses leaves its row
    IN_PROGRESS.  The first transaction has committed the status and the
    start time; the second is rolled back, the exception is swallowed, and
    the unit returns: the row keeps IN_PROGRESS, with no completion time and
    nothing of the report. *)
Theorem refused_final_write_leaves_in_progress
    (id : nat) (url : string) (env : UnitEnv) (db : Database)
    (r : ScanResult) (t : TestDefinition) :
  scan_result_by_id id db = Some r ->
  test_definition_by_id (sr_test_definition_id r) db = Some t ->
  begin_fault env = NoFault ->
  finish_fault env <> NoFault ->
  run_single_test id url env db
    = (Returned tt, update_scan_result id (set_in_progress (started_now env)) db) /\
  scan_result_by_id id (snd (run_single_test id url env db))
    = Some (set_in_progress (started_now env) r) /\
  status_of id (snd (run_single_test id url env db)) = Some IN_PROGRESS.
Proof.
  intros Hr Ht Hb Hf.
  pose proof (mark_in_progress_healthy id env db r t Hr Ht Hb) as Hm.
  destruct (run_single_test_marked db _ id url (td_name t) env Hm) as [Hrun _].
  rewrite write_final_results_run in Hrun.
  assert (run_single_test id url env db
          = (Returned tt, update_scan_result id (set_in_progress (started_now env)) db))
    as Heq.
  { rewrite Hrun. destruct (finish_fault env); [contradiction | |]; reflexivity. }
  rewrite Heq. cbn [snd]. split; [reflexivity|].
  unfold status_of. rewrite scan_result_by_id_update_same; [|reflexivity].
  rewrite Hr. split; reflexivity.
Qed.

Lemma refused_final_write_leaves_in_progress_witness :
  run_single_test 1 "http://example.com/" final_write_fails_env store_with_pending_scan
    = (Returned tt,
       update_scan_result 1 (set_in_progress (started_now final_write_fails_env))
         store_with_pending_scan) /\
  scan_result_by_id 1
    (snd (run_single_test 1 "http://example.com/" final_write_fails_env
            store_with_pending_scan))
    = Some (set_in_progress (started_now final_write_fails_env) first_result) /\
  status_of 1
    (snd (run_single_test 1 "http://example.com/" final_write_fails_env
            store_with_pending_scan))
    = Some IN_PROGRESS.
Proof.
  apply (refused_final_write_leaves_in_progress 1 "http://example.com/"
           final_write_fails_env store_with_pending_scan
           first_result first_test_definition).
  - vm_compute. reflexivity.
  - vm_compute. reflexivity.
  - reflexivity.
  - discriminate.
Defined.

(** X13: the report of a probe is of one of two kinds, whatever the test,
    the URL and the outside world.  Either the probe ran: the status is
    COMPLETED, the outcome is PASSED, VULNERABLE or INFO, and details and
    recommendations are there.  Or an exception left it: the status is ERROR,
    the outcome NOT_RUN, the summary the one of the outer handler, and there
    are no recommendations. *)
Theorem probe_report_consistent (test_name url : string) (env : UnitEnv) :
  (final_status (probe_report test_name url env) = COMPLETED /\
   outcome (probe_report test_name url env) <> NOT_RUN /\
   details_text (probe_report test_name url env) <> None /\
   recommendations_text (probe_report test_name url env) <> None) \/
  (final_status (probe_report test_name url env) = ERROR /\
   outcome (probe_report test_name url env) = NOT_RUN /\
   summary_text (probe_report test_name url env)
     = fstr ["An unexpected error occurred during the "; test_name;
             " test execution."] /\
   recommendations_text (probe_report test_name url env) = None).
Proof.
  unfold probe_report, test_logic, try_except, probe.
  destruct (String.eqb test_name ssl_test_name).
  - unfold https_probe, try_except, bind, lift, raise_for_status.
    destruct (requests_get env) as [response|e].
    + destruct (http_error_status response).
      * left. cbn. repeat split; discriminate.
      * unfold ret, modify.
        destruct (String.eqb (urlparse_scheme (resp_url response)) "https");
          left; cbn; repeat split; discriminate.
    + destruct e as [c m|code d|m|m];
        try (right; cbn; repeat split; reflexivity).
      destruct c; left; cbn; repeat split; discriminate.
  - unfold simulated_probe, bind, lift, modify.
    destruct (asyncio_sleep env) as [[]|e].
    + left. cbn [snd fst set_final_status set_report final_status outcome
                 details_text recommendations_text].
      repeat split; try discriminate.
      unfold random_choice. cbn [List.length].
      pose proof (Nat.mod_upper_bound (random_index env) 3) as Hlt.
      destruct (random_index env mod 3) as [|[|[|n]]]; cbn; try discriminate.
      lia.
    + right. cbn. repeat split; reflexivity.
Qed.

(** ** What a request that succeeds has created *)

(** The rows and the response of a request that returned, on a store that
    meets the foreign-key constraint. *)
Lemma created_results (url : string) (env : RequestEnv) (db db' : Database)
    (resp : ScanResponse) (task : nat * string) :
  foreign_keys_hold db ->
  start_scan url env db = (Returned (resp, task), db') ->
  task = (next_id (map scan_id (scans db)), url) /\
  scan_by_id (fst task) db' = Some (response_scan resp) /\
  scan_status (response_scan resp) = PENDING /\
  map fst (response_results resp) = results_of (fst task) db' /\
  map sr_test_definition_id (results_of (fst task) db')
    = map td_id (test_definitions db) /\
  test_definitions db <> [].
Proof.
  intros Hfk Hrun. apply start_scan_returned in Hrun.
  destruct (create_scan_returned _ _ _ _ _ Hrun)
    as (new_scan & rows & final & Htask & Hid & Hst & _ & Hscans & Hres & _ & Hne
         & Hmap & Hall & _ & Hfinal & Hvalid).
  cbn [fst snd] in *. subst task. cbn [fst]. rewrite <- Hid.
  split; [reflexivity|].
  rewrite (created_scan_found new_scan (scans db) db' Hid Hscans) in Hfinal.
  inversion Hfinal; subst final.
  destruct (model_validate_returned _ _ _ Hvalid) as [Hrs Hrr]. rewrite Hrs.
  split; [apply (created_scan_found new_scan (scans db) db' Hid Hscans)|].
  split; [exact Hst|]. split; [exact Hrr|]. split; [|exact Hne].
  assert (results_of (scan_id new_scan) db' = rows) as ->; [|exact Hmap].
  unfold results_of. rewrite Hres, filter_app.
  rewrite filter_none, filter_all; [reflexivity | |].
  - intros r Hr. rewrite Forall_forall in Hall. apply Nat.eqb_eq. apply (Hall r Hr).
  - intros r Hr. rewrite Hid. apply no_result_of_next_scan; assumption.
Qed.

(** X14: on a store that meets the foreign-key constraint and has a catalog, a
    request whose statements the store accepts succeeds: it returns a PENDING
    scan with one result per test definition, and adds the background task
    of the new scan.  The branch "Failed to retrieve scan details after
    creation" and a response that does not validate are then out of reach. *)
Theorem start_scan_succeeds_on_healthy_store
    (url : string) (env : RequestEnv) (db : Database) :
  quiet_store env -> test_definitions db <> [] -> foreign_keys_hold db ->
  exists resp db',
    start_scan url env db
      = (Returned (resp, (next_id (map scan_id (scans db)), url)), db') /\
    scan_status (response_scan resp) = PENDING /\
    List.length (response_results resp) = List.length (test_definitions db).
Proof.
  intros Hq Hcat Hfk.
  destruct (start_scan_healthy url env db Hq Hcat Hfk) as [resp [db' Hrun]].
  exists resp, db'. split; [exact Hrun|].
  destruct (created_results _ _ _ _ _ _ Hfk Hrun) as (_ & _ & Hst & Hrr & Hmap & _).
  split; [exact Hst|].
  rewrite <- (length_map fst), Hrr, <- (length_map sr_test_definition_id), Hmap.
  apply length_map.
Qed.

Lemma start_scan_succeeds_on_healthy_store_witness :
  exists resp db',
    start_scan "http://example.com/" quiet_request_env seeded_store
      = (Returned (resp, (next_id (map scan_id (scans seeded_store)),
                          "http://example.com/")), db') /\
    scan_status (response_scan resp) = PENDING /\
    List.length (response_results resp) = List.length (test_definitions seeded_store).
Proof.
  apply (start_scan_succeeds_on_healthy_store "http://example.com/"
           quiet_request_env seeded_store).
  - intros k. reflexivity.
  - vm_compute. discriminate.
  - intros r Hr. vm_compute in Hr. destruct Hr.
Defined.

(** X15: the background task a request has added, run on the store the
    request has left: when the fetch of the ids does not raise, it launches
    one unit per test definition, for the URL of the request, and it leaves
    the scan COMPLETED or ERROR with the time of the final check. *)
Theorem created_scan_runs_to_settlement
    (url : string) (env : RequestEnv) (db db' : Database)
    (resp : ScanResponse) (task : nat * string) (senv : ScanEnv) :
  foreign_keys_hold db ->
  start_scan url env db = (Returned (resp, task), db') ->
  fetch_raises senv = None ->
  snd task = url /\
  exists launched scan',
    fst (run_all_tests_for_scan (fst task) (snd task) senv db') = Returned launched /\
    List.length launched = List.length (test_definitions db) /\
    scan_by_id (fst task) (snd (run_all_tests_for_scan (fst task) (snd task) senv db'))
      = Some scan' /\
    (scan_status scan' = COMPLETED \/ scan_status scan' = ERROR) /\
    scan_completed_at scan' = Some (scan_now senv).
Proof.
  intros Hfk Hrun Hfetch.
  destruct (created_results _ _ _ _ _ _ Hfk Hrun)
    as (Htask & Hscan & Hst & _ & Hmap & Hne).
  split; [rewrite Htask; reflexivity|].
  assert (error_write_fault senv = NoFault) as Hmark.
  { unfold error_write_fault. rewrite Hfetch. reflexivity. }
  destruct (run_all_settles_scan (fst task) (snd task) senv db' _ Hmark Hscan Hst)
    as [scan' [Hscan' [Hsettled [Htime _]]]].
  assert (List.length (scan_result_ids_of (fst task) db')
          = List.length (test_definitions db)) as Hlen.
  { unfold scan_result_ids_of. rewrite length_map.
    change (filter _ (scan_results db')) with (results_of (fst task) db').
    rewrite <- (length_map sr_test_definition_id), Hmap. apply length_map. }
  destruct (scan_result_ids_of (fst task) db') as [|first_id other_ids] eqn:Hids.
  - exfalso. destruct (test_definitions db); [congruence | discriminate Hlen].
  - exists (first_id :: other_ids), scan'.
    split; [|split; [exact Hlen|split; [exact Hscan'|split; assumption]]].
    rewrite (run_all_ends_with_final_check db' (fst task) (snd task) senv
               first_id other_ids Hfetch Hids).
    reflexivity.
Qed.

Lemma created_scan_runs_to_settlement_witness :
  snd (1, "http://example.com/") = "http://example.com/" /\
  exists launched scan',
    fst (run_all_tests_for_scan (fst (1, "http://example.com/"))
           (snd (1, "http://example.com/")) quiet_scan_env store_with_pending_scan)
      = Returned launched /\
    List.length launched = List.length (test_definitions seeded_store) /\
    scan_by_id (fst (1, "http://example.com/"))
      (snd (run_all_tests_for_scan (fst (1, "http://example.com/"))
              (snd (1, "http://example.com/")) quiet_scan_env store_with_pending_scan))
      = Some scan' /\
    (scan_status scan' = COMPLETED \/ scan_status scan' = ERROR) /\
    scan_completed_at scan' = Some (scan_now quiet_scan_env).
Proof.
  destruct (start_scan "http://example.com/" quiet_request_env seeded_store)
    as [[[resp task]|e] db'] eqn:E; [|vm_compute in E; discriminate E].
  assert (task = (1, "http://example.com/") /\ db' = store_with_pending_scan)
    as [-> ->].
  { unfold store_with_pending_scan. rewrite E. vm_compute in E.
    inversion E. split; reflexivity. }
  apply (created_scan_runs_to_settlement "http://example.com/" quiet_request_env
           seeded_store store_with_pending_scan resp (1, "http://example.com/")
           quiet_scan_env).
  - intros r Hr. vm_compute in Hr. destruct Hr.
  - exact E.
  - reflexivity.
Defined.

(** ** The startup handler *)

Lemma increasing_snoc_next_id (ids : list nat) :
  StronglySorted lt ids -> StronglySorted lt (ids ++ [next_id ids]).
Proof.
  intros H.
  assert (forall k, (forall x, In x ids -> x < k) -> StronglySorted lt (ids ++ [k]))
    as Hgen.
  { induction H as [|x rest Hrest IH Hx]; intros k Hk; simpl.
    - constructor; constructor.
    - constructor.
      + apply IH. intros y Hy. apply Hk. right. exact Hy.
      + rewrite Forall_forall in *. intros y Hy. apply in_app_or in Hy.
        destruct Hy as [Hy|[<-|[]]]; [apply Hx; exact Hy | apply Hk; left; reflexivity]. }
  apply Hgen. intros x Hx. apply list_max_ge in Hx. unfold next_id. lia.
Qed.

(** One pass of the loop body adds at most one row, at the end of the
    catalog, under a name the catalog did not have. *)
Lemma seed_one_appends (test_data : string * string) (db : Database) :
  exists added,
    test_definitions (snd (seed_one test_data db)) = test_definitions db ++ added /\
    websites (snd (seed_one test_data db)) = websites db /\
    scans (snd (seed_one test_data db)) = scans db /\
    scan_results (snd (seed_one test_data db)) = scan_results db /\
    (forall t, In t added ->
       td_name t = fst test_data /\ ~ In (td_name t) (catalog_names db)) /\
    (catalog_ids_increase db -> catalog_ids_increase (snd (seed_one test_data db))).
Proof.
  rewrite seed_one_run. cbn [snd].
  destruct (test_definition_by_name (fst test_data) db) eqn:E.
  - exists []. rewrite app_nil_r.
    do 4 (split; [reflexivity|]). split; [intros x []|auto].
  - apply test_definition_by_name_none in E.
    eexists. unfold add_test_definition, set_test_definitions, catalog_ids_increase.
    cbn [test_definitions websites scans scan_results].
    do 4 (split; [reflexivity|]). split.
    + intros x [<-|[]]. split; [reflexivity | exact E].
    + intros Hinc. rewrite map_app. cbn [map td_id].
      apply increasing_snoc_next_id. exact Hinc.
Qed.

(** The loop of the seeding step only appends to the catalog: the rows it
    found stay as they are and where they are, the rows it adds carry names
    of the list that the catalog did not have, and the other tables are not
    touched. *)
Lemma for_each_seed_appends (defs : list (string * string)) (db : Database) :
  exists added,
    test_definitions (snd (for_each defs seed_one db)) = test_definitions db ++ added /\
    websites (snd (for_each defs seed_one db)) = websites db /\
    scans (snd (for_each defs seed_one db)) = scans db /\
    scan_results (snd (for_each defs seed_one db)) = scan_results db /\
    (forall t, In t added ->
       In (td_name t) (map fst defs) /\ ~ In (td_name t) (catalog_names db)) /\
    (catalog_ids_increase db ->
     catalog_ids_increase (snd (for_each defs seed_one db))).
Proof.
  revert db. induction defs as [|d rest IH]; intros db.
  - exists []. simpl. rewrite app_nil_r.
    do 4 (split; [reflexivity|]). split; [intros x []|auto].
  - destruct (seed_one_appends d db) as (a1 & Hc1 & Hw1 & Hs1 & Hr1 & Hn1 & Hi1).
    cbn [for_each]. unfold bind. rewrite seed_one_run in *. cbn [snd] in *.
    match goal with
    | |- context [for_each rest seed_one ?d1] =>
        destruct (IH d1) as (a2 & Hc2 & Hw2 & Hs2 & Hr2 & Hn2 & Hi2);
        set (db1 := d1) in *
    end.
    exists (a1 ++ a2). rewrite Hc2, Hc1, Hw2, Hw1, Hs2, Hs1, Hr2, Hr1, app_assoc.
    do 4 (split; [reflexivity|]). split; [|auto].
    intros x Hx. apply in_app_or in Hx. destruct Hx as [Hx|Hx].
    + destruct (Hn1 x Hx) as [Hname Hnew]. split; [|exact Hnew].
      left. symmetry. exact Hname.
    + destruct (Hn2 x Hx) as [Hname Hnew]. split; [right; exact Hname|].
      intros Hin. apply Hnew. unfold catalog_names in *.
      rewrite Hc1, map_app. apply in_or_app. left. exact Hin.
Qed.

Lemma on_startup_run (db : Database) :
  on_startup db = (Returned tt, snd (for_each test_defs seed_one db)).
Proof.
  unfold on_startup, init_db, bind, ret, populate_test_definitions.
  destruct (seed_run test_defs db) as [H _]. exact H.
Qed.

Lemma test_defs_names_distinct : NoDup (map fst test_defs).
Proof.
  unfold test_defs. cbn [map fst].
  repeat (constructor; [cbn [In]; intros H; repeat (destruct H as [H|H];
            [discriminate H|]); exact H|]).
  constructor.
Qed.

(** After the startup handler the catalog has a row for each name of
    [test_defs]. *)
Lemma on_startup_catalog (db : Database) :
  List.length test_defs
    <= List.length (test_definitions (snd (for_each test_defs seed_one db))).
Proof.
  destruct (for_each_seed_names test_defs db) as [Hin _].
  rewrite <- (length_map fst test_defs).
  rewrite <- (length_map td_name (test_definitions _)).
  apply NoDup_incl_length; [apply test_defs_names_distinct|].
  intros name Hname. apply Hin. exact Hname.
Qed.

(** X16: the startup handler only appends to the catalog.  It returns on
    every store; the test definitions it found stay as they are and where
    they are; the rows it adds carry names of [test_defs] that the catalog
    did not have; websites, scans and results are not touched; and
    afterwards the catalog has at least the ten seeded tests. *)
Theorem startup_appends_to_catalog (db : Database) :
  exists added db',
    on_startup db = (Returned tt, db') /\
    test_definitions db' = test_definitions db ++ added /\
    websites db' = websites db /\
    scans db' = scans db /\
    scan_results db' = scan_results db /\
    (forall t, In t added ->
       In (td_name t) (map fst test_defs) /\ ~ In (td_name t) (catalog_names db)) /\
    10 <= List.length (test_definitions db').
Proof.
  destruct (for_each_seed_appends test_defs db) as (added & Hc & Hw & Hs & Hr & Hn & _).
  exists added, (snd (for_each test_defs seed_one db)).
  split; [apply on_startup_run|].
  repeat (split; [assumption|]).
  apply (on_startup_catalog db).
Qed.

(** X17: a request after the startup handler.  On any store that meets the
    foreign-key constraint, once [on_startup] has run, a request whose
    statements the store accepts succeeds, with at least one result per
    seeded test: "No test definitions found in the database." is out of
    reach. *)
Theorem request_after_startup_succeeds
    (url : string) (env : RequestEnv) (db : Database) :
  foreign_keys_hold db -> quiet_store env ->
  exists db1 resp db2,
    on_startup db = (Returned tt, db1) /\
    start_scan url env db1
      = (Returned (resp, (next_id (map scan_id (scans db)), url)), db2) /\
    List.length test_defs <= List.length (response_results resp).
Proof.
  intros Hfk Hq.
  destruct (for_each_seed_appends test_defs db) as (added & Hc & Hw & Hs & Hr & _).
  pose proof (on_startup_catalog db) as Hlen.
  set (db1 := snd (for_each test_defs seed_one db)) in *.
  assert (foreign_keys_hold db1) as Hfk1.
  { unfold foreign_keys_hold. rewrite Hr, Hs. exact Hfk. }
  assert (test_definitions db1 <> []) as Hne.
  { intros E. rewrite E in Hlen. cbn in Hlen. lia. }
  destruct (start_scan_healthy url env db1 Hq Hne Hfk1) as [resp [db2 Hrun]].
  exists db1, resp, db2. split; [apply on_startup_run|].
  destruct (created_results _ _ _ _ _ _ Hfk1 Hrun) as (_ & _ & _ & Hrr & Hmap & _).
  rewrite Hs in Hrun. split; [exact Hrun|].
  rewrite <- (length_map fst (response_results resp)), Hrr.
  rewrite <- (length_map sr_test_definition_id), Hmap, length_map. exact Hlen.
Qed.

Lemma request_after_startup_succeeds_witness :
  exists db1 resp db2,
    on_startup empty_database = (Returned tt, db1) /\
    start_scan "http://example.com/" quiet_request_env db1
      = (Returned (resp, (next_id (map scan_id (scans empty_database)),
                          "http://example.com/")), db2) /\
    List.length test_defs <= List.length (response_results resp).
Proof.
  apply (request_after_startup_succeeds "http://example.com/" quiet_request_env
           empty_database).
  - intros r Hr. destruct Hr.
  - intros k. reflexivity.
Defined.

(** ** The catalog endpoint *)

Lemma insert_by_id_permutation (t : TestDefinition) (rows : list TestDefinition) :
  Permutation (insert_by_id t rows) (t :: rows).
Proof.
  induction rows as [|x rest IH]; simpl; [reflexivity|].
  destruct (td_id t <=? td_id x); [reflexivity|].
  rewrite IH. apply perm_swap.
Qed.

Lemma insert_by_id_head (x t : TestDefinition) (rows : list TestDefinition) :
  by_id x t -> HdRel by_id x rows -> HdRel by_id x (insert_by_id t rows).
Proof.
  intros Hxt Hhd. destruct rows as [|y rest]; simpl; [constructor; exact Hxt|].
  destruct (td_id t <=? td_id y); constructor; [exact Hxt|].
  inversion Hhd. assumption.
Qed.

Lemma insert_by_id_sorted (t : TestDefinition) (rows : list TestDefinition) :
  Sorted by_id rows -> Sorted by_id (insert_by_id t rows).
Proof.
  induction rows as [|x rest IH]; simpl; intros H.
  - constructor; constructor.
  - destruct (td_id t <=? td_id x) eqn:E.
    + constructor; [exact H|]. constructor. apply Nat.leb_le. exact E.
    + inversion H as [|? ? Hrest Hhd]; subst. constructor; [apply IH; exact Hrest|].
      apply insert_by_id_head; [|exact Hhd].
      apply Nat.leb_gt in E. unfold by_id. lia.
Qed.

Lemma order_by_id_increasing (rows : list TestDefinition) :
  StronglySorted lt (map td_id rows) -> order_by_id rows = rows.
Proof.
  induction rows as [|x rest IH]; simpl; intros H; [reflexivity|].
  inversion H as [|? ? Hrest Hx]; subst.
  unfold order_by_id in *. cbn [fold_right]. rewrite (IH Hrest).
  destruct rest as [|y rest']; [reflexivity|]. simpl.
  inversion Hx as [|? ? Hxy _]; subst.
  assert ((td_id x <=? td_id y) = true) as ->; [apply Nat.leb_le; lia | reflexivity].
Qed.

(** X18: [get_available_tests] returns every test definition, once each,
    by ascending id, and leaves the store as it is. *)
Theorem available_tests_ordered (db : Database) :
  exists tests,
    get_available_tests db = (Returned tests, db) /\
    Permutation tests (test_definitions db) /\
    Sorted by_id tests.
Proof.
  exists (order_by_id (test_definitions db)). split; [reflexivity|].
  unfold order_by_id.
  induction (test_definitions db) as [|t rest [IHp IHs]]; cbn [fold_right].
  - split; constructor.
  - split; [|apply insert_by_id_sorted; exact IHs].
    rewrite insert_by_id_permutation. constructor. exact IHp.
Qed.

Lemma in_catalog_names (name : string) (db : Database) :
  existsb (String.eqb name) (catalog_names db) = true <-> In name (catalog_names db).
Proof.
  rewrite existsb_exists. split.
  - intros [x [Hx E]]. apply String.eqb_eq in E. subst x. exact Hx.
  - intros H. exists name. split; [exact H | apply String.eqb_refl].
Qed.

(** The rows the loop of the seeding step adds, for a list without
    repeated names: one for each entry whose name the catalog lacks, with
    the name and the description of the entry, in the order of the list. *)
Lemma for_each_seed_order (defs : list (string * string)) (db : Database) :
  NoDup (map fst defs) ->
  exists added,
    test_definitions (snd (for_each defs seed_one db)) = test_definitions db ++ added /\
    map (fun t => (td_name t, td_description t)) added
    = map (fun d => (fst d, Some (snd d))) (missing_from_catalog defs db).
Proof.
  revert db. induction defs as [|d rest IH]; intros db Hnd.
  - exists []. simpl. rewrite app_nil_r. split; reflexivity.
  - cbn [map] in Hnd. inversion Hnd as [|? ? Hfresh Hrest]; subst.
    cbn [for_each]. unfold bind. rewrite seed_one_run.
    unfold missing_from_catalog. cbn [filter].
    destruct (test_definition_by_name (fst d) db) as [t|] eqn:E.
    + assert (existsb (String.eqb (fst d)) (catalog_names db) = true) as ->.
      { apply in_catalog_names.
        destruct (in_dec string_dec (fst d) (catalog_names db)) as [H|H]; [exact H|].
        apply test_definition_by_name_none in H. congruence. }
      cbn [negb]. apply IH. exact Hrest.
    + assert (existsb (String.eqb (fst d)) (catalog_names db) = false) as ->.
      { apply test_definition_by_name_none in E.
        destruct (existsb (String.eqb (fst d)) (catalog_names db)) eqn:X;
          [|reflexivity]. apply in_catalog_names in X. contradiction. }
      cbn [negb].
      destruct (IH (add_test_definition (fst d) (snd d) db) Hrest)
        as [added [Hc Hnames]].
      eexists (_ :: added). rewrite Hc.
      unfold add_test_definition at 1, set_test_definitions at 1.
      cbn [test_definitions]. rewrite <- app_assoc. split; [reflexivity|].
      cbn [map td_name td_description]. f_equal. rewrite Hnames. f_equal.
      unfold missing_from_catalog. apply filter_ext_in. intros d' Hd'.
      f_equal. unfold catalog_names, add_test_definition, set_test_definitions.
      cbn [test_definitions]. rewrite map_app, existsb_app. cbn [map td_name existsb].
      assert (String.eqb (fst d') (fst d) = false) as ->.
      { apply String.eqb_neq. intros X. apply Hfresh. rewrite <- X.
        apply in_map. exact Hd'. }
      rewrite !orb_false_r. reflexivity.
Qed.

(** X19: a catalog whose ids increase along the table keeps this through the
    startup handler, and the catalog endpoint then returns the table as it
    is: the tests that were there, followed by one test for each entry of
    [test_defs] whose name the catalog lacked, with the name and the
    description of the entry, in the order of [test_defs]. *)
Theorem available_tests_after_startup (db : Database) :
  catalog_ids_increase db ->
  exists added db',
    on_startup db = (Returned tt, db') /\
    catalog_ids_increase db' /\
    test_definitions db' = test_definitions db ++ added /\
    map (fun t => (td_name t, td_description t)) added
      = map (fun d => (fst d, Some (snd d))) (missing_from_catalog test_defs db) /\
    get_available_tests db' = (Returned (test_definitions db ++ added), db').
Proof.
  intros Hinc.
  destruct (for_each_seed_appends test_defs db) as (_ & _ & _ & _ & _ & _ & Hkeep).
  destruct (for_each_seed_order test_defs db test_defs_names_distinct)
    as [added [Hc Hnames]].
  exists added, (snd (for_each test_defs seed_one db)).
  split; [apply on_startup_run|]. split; [apply Hkeep; exact Hinc|].
  split; [exact Hc|]. split; [exact Hnames|].
  unfold get_available_tests, execute, bind, get, ret.
  rewrite order_by_id_increasing; [|apply Hkeep; exact Hinc].
  rewrite Hc. reflexivity.
Qed.

Lemma available_tests_after_startup_witness :
  exists added db',
    on_startup store_with_earlier_tests = (Returned tt, db') /\
    catalog_ids_increase db' /\
    test_definitions db' = test_definitions store_with_earlier_tests ++ added /\
    map (fun t => (td_name t, td_description t)) added
      = map (fun d => (fst d, Some (snd d)))
          (missing_from_catalog test_defs store_with_earlier_tests) /\
    get_available_tests db'
      = (Returned (test_definitions store_with_earlier_tests ++ added), db').
Proof.
  apply (available_tests_after_startup store_with_earlier_tests).
  unfold catalog_ids_increase, store_with_earlier_tests. cbn [test_definitions map td_id].
  repeat constructor.
Defined.

(** ** The schema constraints in the running service *)

(** X20: whatever requests arrive and however the event loop interleaves the
    background tasks and their units, the store of the running service
    keeps the primary key of [scan_results] unique and every result attached
    to a scan that exists; and no two background tasks work on the same
    scan, each on a scan of the store. *)
Theorem reachable_store_constraints (st : Service) :
  reachable st ->
  primary_keys_unique (store st) /\
  foreign_keys_hold (store st) /\
  NoDup (map bg_scan_id (background st)) /\
  (forall b, In b (background st) ->
             In (bg_scan_id b) (map scan_id (scans (store st)))).
Proof.
  intros H. destruct (reachable_invariant st H) as [Hpk Hfk Hknown Hdistinct _].
  repeat split; assumption.
Qed.

Lemma reachable_store_constraints_witness :
  primary_keys_unique (store service_with_gathering_scan) /\
  foreign_keys_hold (store service_with_gathering_scan) /\
  NoDup (map bg_scan_id (background service_with_gathering_scan)) /\
  (forall b, In b (background service_with_gathering_scan) ->
             In (bg_scan_id b) (map scan_id (scans (store service_with_gathering_scan)))).
Proof.
  apply (reachable_store_constraints service_with_gathering_scan).
  unfold service_with_gathering_scan.
  apply reachable_step. apply reachable_step. exact seeded_store_reachable.
Defined.

(** ** The outcome of a background execution *)

Lemma run_all_scan_outcome_witness :
  exists scan',
    scan_by_id 1
      (snd (run_all_tests_for_scan 1 "http://example.com/" quiet_scan_env
              store_with_pending_scan)) = Some scan' /\
    scan_completed_at scan' = Some (scan_now quiet_scan_env) /\
    scan_status scan' =
      if all_completed
           (results_of 1
              (snd (run_all_tests_for_scan 1 "http://example.com/" quiet_scan_env
                      store_with_pending_scan)))
      then COMPLETED else ERROR.
Proof.
  apply (run_all_scan_outcome store_with_pending_scan 1 "http://example.com/"
           quiet_scan_env first_scan 1 [2; 3; 4; 5; 6; 7; 8; 9; 10]).
  - reflexivity.
  - vm_compute. reflexivity.
  - vm_compute. reflexivity.
Defined.

(** ** The interleaving of the units *)

Lemma set_phase_same (u : UnitTask) (p : UnitPhase) :
  unit_phase u = p -> set_phase p u = u.
Proof. destruct u. simpl. intros ->. reflexivity. Qed.

Lemma mark_in_progress_eq (id : nat) (env : UnitEnv) (db : Database) :
  mark_in_progress id env db =
    match begin_fault env, scan_result_by_id id db with
    | NoFault, Some r =>
        match test_definition_by_id (sr_test_definition_id r) db with
        | Some t =>
            (Returned (Some (td_name t)),
             update_scan_result id (set_in_progress (started_now env)) db)
        | None => (Returned None, db)
        end
    | _, _ => (Returned None, db)
    end.
Proof.
  unfold mark_in_progress, try_except, transaction, execute, commit.
  destruct (begin_fault env) as [|m|m].
  - unfold bind, get, ret, modify.
    destruct (scan_result_by_id id db) as [r|]; [|reflexivity].
    destruct (test_definition_by_id (sr_test_definition_id r) db); reflexivity.
  - destruct (scan_result_by_id id db); reflexivity.
  - unfold bind, get, ret, modify, raise.
    destruct (scan_result_by_id id db) as [r|]; [|reflexivity].
    destruct (test_definition_by_id (sr_test_definition_id r) db); reflexivity.
Qed.

(** A move of a unit is the move [unit_move] computes. *)
Lemma unit_step_move (url : string) (u : UnitTask) (db : Database) :
  unit_step url u db
  = (Returned (set_phase (fst (unit_move url u db)) u),
     apply_update (unit_id u) (snd (unit_move url u db)) db).
Proof.
  unfold unit_step, unit_move. destruct (unit_phase u) as [|name|] eqn:Hp.
  - unfold bind. rewrite mark_in_progress_eq.
    destruct (begin_fault (unit_env u)); try reflexivity.
    destruct (scan_result_by_id (unit_id u) db) as [r|]; [|reflexivity].
    destruct (test_definition_by_id (sr_test_definition_id r) db); reflexivity.
  - unfold bind. rewrite execute_and_record_run, write_final_results_run.
    destruct (finish_fault (unit_env u)); try reflexivity.
    destruct (scan_result_by_id (unit_id u) db); reflexivity.
  - cbn [fst snd apply_update]. rewrite (set_phase_same u Finished Hp). reflexivity.
Qed.

Lemma unit_move_keeps_id (url : string) (u : UnitTask) (db : Database) :
  keeps_id (snd (unit_move url u db)).
Proof.
  unfold keeps_id, unit_move. intros f Hf r.
  destruct (unit_phase u).
  - destruct (begin_fault (unit_env u)); try discriminate Hf.
    destruct (scan_result_by_id (unit_id u) db) as [r0|]; [|discriminate Hf].
    destruct (test_definition_by_id (sr_test_definition_id r0) db);
      inversion Hf; reflexivity.
  - cbn [snd] in Hf. destruct (finish_fault (unit_env u)); try discriminate Hf.
    destruct (scan_result_by_id (unit_id u) db); inversion Hf; reflexivity.
  - discriminate Hf.
Qed.

(** A unit moves by what it reads. *)
Lemma unit_move_view (url : string) (u : UnitTask) (db1 db2 : Database) :
  same_view (unit_id u) db1 db2 -> unit_move url u db1 = unit_move url u db2.
Proof.
  intros [Hrow Hcat]. unfold unit_move, test_definition_by_id.
  rewrite Hrow, Hcat. reflexivity.
Qed.

Lemma same_view_refl (id : nat) (db : Database) : same_view id db db.
Proof. split; reflexivity. Qed.

Lemma same_view_trans (id : nat) (db1 db2 db3 : Database) :
  same_view id db1 db2 -> same_view id db2 db3 -> same_view id db1 db3.
Proof. intros [A B] [C D]. split; congruence. Qed.

(** The write of another unit is not seen. *)
Lemma apply_update_other_view (a b : nat) (act : option (ScanResult -> ScanResult))
    (db : Database) :
  a <> b -> keeps_id act -> same_view a (apply_update b act db) db.
Proof.
  intros Hne Hk. destruct act as [f|]; [|apply same_view_refl].
  split; [|reflexivity]. cbn [apply_update].
  apply scan_result_by_id_update_other; [apply (Hk f eq_refl) | congruence].
Qed.

(** The same write on stores the unit sees alike. *)
Lemma apply_update_same_view (a : nat) (act : option (ScanResult -> ScanResult))
    (db1 db2 : Database) :
  keeps_id act -> same_view a db1 db2 ->
  same_view a (apply_update a act db1) (apply_update a act db2).
Proof.
  intros Hk [Hrow Hcat]. destruct act as [f|]; [|split; assumption].
  split; [|exact Hcat]. cbn [apply_update].
  rewrite !scan_result_by_id_update_same; try apply (Hk f eq_refl).
  rewrite Hrow. reflexivity.
Qed.

Lemma update_first_commute {A : Type} (p q : A -> bool) (f g : A -> A) (rows : list A) :
  (forall x, p x = true -> q x = false) ->
  (forall x, p (g x) = p x) -> (forall x, q (f x) = q x) ->
  update_first p f (update_first q g rows) = update_first q g (update_first p f rows).
Proof.
  intros Hex Hpg Hqf. induction rows as [|x rest IH]; simpl; [reflexivity|].
  destruct (p x) eqn:Ep.
  - rewrite (Hex x Ep). simpl. rewrite Ep, Hqf, (Hex x Ep). reflexivity.
  - destruct (q x) eqn:Eq; simpl.
    + rewrite Hpg, Ep, Eq. reflexivity.
    + rewrite Ep, Eq, IH. reflexivity.
Qed.

(** The writes of two units on different rows commute. *)
Lemma apply_update_commute (a b : nat) (f g : option (ScanResult -> ScanResult))
    (db : Database) :
  a <> b -> keeps_id f -> keeps_id g ->
  apply_update a f (apply_update b g db) = apply_update b g (apply_update a f db).
Proof.
  intros Hne Hf Hg. destruct f as [f|], g as [g|]; try reflexivity.
  cbn [apply_update]. unfold update_scan_result, set_scan_results.
  cbn [scan_results websites test_definitions scans]. f_equal.
  apply update_first_commute.
  - intros x Hx. apply Nat.eqb_eq in Hx. apply Nat.eqb_neq. congruence.
  - intros x. rewrite (Hg g eq_refl). reflexivity.
  - intros x. rewrite (Hf f eq_refl). reflexivity.
Qed.

(** A unit run to its end is two writes on its row. *)
Lemma finish_unit_moves (url : string) (u : UnitTask) (db : Database) :
  finish_unit url u db
  = apply_update (unit_id u)
      (snd (unit_move url (set_phase (fst (unit_move url u db)) u)
              (apply_update (unit_id u) (snd (unit_move url u db)) db)))
      (apply_update (unit_id u) (snd (unit_move url u db)) db).
Proof.
  unfold finish_unit, bind. rewrite unit_step_move, unit_step_move. reflexivity.
Qed.

(** A move of one unit and the run of another to its end commute, and
    neither sees the other. *)
Lemma finish_step_commute (url : string) (a b : UnitTask) (db : Database) :
  unit_id a <> unit_id b ->
  unit_move url b (finish_unit url a db) = unit_move url b db /\
  finish_unit url a (apply_update (unit_id b) (snd (unit_move url b db)) db)
  = apply_update (unit_id b) (snd (unit_move url b db)) (finish_unit url a db).
Proof.
  intros Hne. rewrite !finish_unit_moves.
  set (actb := snd (unit_move url b db)).
  assert (keeps_id actb) as Hkb by apply unit_move_keeps_id.
  set (act1 := snd (unit_move url a db)).
  assert (keeps_id act1) as Hk1 by apply unit_move_keeps_id.
  set (a1 := set_phase (fst (unit_move url a db)) a).
  assert (unit_id a1 = unit_id a) as Hid1 by reflexivity.
  split.
  - apply unit_move_view.
    eapply same_view_trans;
      [apply apply_update_other_view; [congruence | apply unit_move_keeps_id]|].
    apply apply_update_other_view; [congruence | exact Hk1].
  - assert (unit_move url a (apply_update (unit_id b) actb db) = unit_move url a db)
      as ->.
    { apply unit_move_view. apply apply_update_other_view; assumption. }
    fold act1. fold a1.
    assert (unit_move url a1
              (apply_update (unit_id a) act1 (apply_update (unit_id b) actb db))
            = unit_move url a1 (apply_update (unit_id a) act1 db)) as ->.
    { apply unit_move_view. rewrite Hid1.
      apply apply_update_same_view; [exact Hk1|].
      apply apply_update_other_view; assumption. }
    set (act2 := snd (unit_move url a1 (apply_update (unit_id a) act1 db))).
    assert (keeps_id act2) as Hk2 by apply unit_move_keeps_id.
    rewrite (apply_update_commute (unit_id a) (unit_id b) act1 actb db Hne Hk1 Hkb).
    rewrite (apply_update_commute (unit_id a) (unit_id b) act2 actb _ Hne Hk2 Hkb).
    reflexivity.
Qed.

(** A unit that has made one move and is then run to its end has done what
    the unit run to its end does. *)
Lemma finish_after_step (url : string) (u : UnitTask) (db : Database) :
  finish_unit url (set_phase (fst (unit_move url u db)) u)
    (apply_update (unit_id u) (snd (unit_move url u db)) db)
  = finish_unit url u db.
Proof.
  rewrite (finish_unit_moves url u db).
  set (u1 := set_phase (fst (unit_move url u db)) u).
  set (db1 := apply_update (unit_id u) (snd (unit_move url u db)) db).
  unfold finish_unit, bind. rewrite (unit_step_move url u1 db1).
  set (u2 := set_phase (fst (unit_move url u1 db1)) u1).
  rewrite (unit_step_move url u2). cbn [snd].
  assert (unit_phase u2 = Finished) as Hfin.
  { pose proof (unit_step_twice_finished url u u1 u2 db db1
                  (apply_update (unit_id u1) (snd (unit_move url u1 db1)) db1)
                  (unit_step_move url u db) (unit_step_move url u1 db1)) as H.
    unfold is_finished in H. destruct (unit_phase u2); [discriminate H| discriminate H|].
    reflexivity. }
  unfold unit_move at 1. rewrite Hfin. reflexivity.
Qed.

Lemma run_to_completion_fold (url : string) (tasks : list UnitTask) (db : Database) :
  snd (run_to_completion url tasks db)
  = fold_left (fun s u => finish_unit url u s) tasks db.
Proof.
  revert db. induction tasks as [|t rest IH]; intros db; [reflexivity|].
  cbn [run_to_completion fold_left]. rewrite <- IH.
  unfold finish_unit, bind. rewrite unit_step_move, unit_step_move.
  cbn [snd].
  destruct (run_to_completion url rest _) as [[r|e] s]; reflexivity.
Qed.

(** Moving one unit of the list first does not change where the run of the
    whole list to completion ends. *)
Lemma step_then_complete (url : string) (pre post : list UnitTask) (u : UnitTask)
    (db : Database) :
  ~ In (unit_id u) (map unit_id pre) ->
  fold_left (fun s t => finish_unit url t s)
    (pre ++ set_phase (fst (unit_move url u db)) u :: post)
    (apply_update (unit_id u) (snd (unit_move url u db)) db)
  = fold_left (fun s t => finish_unit url t s) (pre ++ u :: post) db.
Proof.
  revert db. induction pre as [|t pre' IH]; intros db Hnotin.
  - cbn [app fold_left]. rewrite finish_after_step. reflexivity.
  - cbn [app fold_left].
    assert (unit_id t <> unit_id u) as Hne.
    { intros E. apply Hnotin. left. exact E. }
    destruct (finish_step_commute url t u db Hne) as [Hmove Hcomm].
    rewrite Hcomm, <- Hmove. apply IH.
    intros Hin. apply Hnotin. right. exact Hin.
Qed.

Lemma step_nth_moves (url : string) (i : nat) (tasks : list UnitTask) (db : Database) :
  step_nth url i tasks db = (Returned tasks, db) \/
  exists pre u post,
    tasks = pre ++ u :: post /\
    step_nth url i tasks db
    = (Returned (pre ++ set_phase (fst (unit_move url u db)) u :: post),
       apply_update (unit_id u) (snd (unit_move url u db)) db).
Proof.
  revert i. induction tasks as [|t rest IH]; intros i;
    [left; destruct i; reflexivity|].
  destruct i as [|j]; simpl.
  - right. exists [], t, rest. unfold bind. rewrite unit_step_move.
    split; reflexivity.
  - destruct (IH j) as [H|[pre [u [post [Hsplit H]]]]].
    + left. unfold bind. rewrite H. reflexivity.
    + right. exists (t :: pre), u, post. unfold bind. rewrite H.
      subst rest. split; reflexivity.
Qed.

Lemma step_nth_then_complete (url : string) (i : nat) (tasks : list UnitTask)
    (db : Database) :
  NoDup (map unit_id tasks) ->
  exists tasks' db',
    step_nth url i tasks db = (Returned tasks', db') /\
    map unit_id tasks' = map unit_id tasks /\
    fold_left (fun s t => finish_unit url t s) tasks' db'
    = fold_left (fun s t => finish_unit url t s) tasks db.
Proof.
  intros Hnd.
  destruct (step_nth_moves url i tasks db) as [H|[pre [u [post [Hsplit H]]]]].
  - exists tasks, db. repeat split; auto.
  - eexists. eexists. split; [exact H|]. subst tasks.
    split; [rewrite !map_app; reflexivity|].
    apply step_then_complete.
    rewrite map_app in Hnd. cbn [map] in Hnd. apply NoDup_remove_2 in Hnd.
    intros Hin. apply Hnd. apply in_or_app. left. exact Hin.
Qed.

(** The gather ends where the run of the units one after the other ends,
    whatever the schedule. *)
Lemma gather_fold (url : string) (sched : list nat) (tasks : list UnitTask)
    (db : Database) :
  NoDup (map unit_id tasks) ->
  snd (gather url sched tasks db)
  = fold_left (fun s t => finish_unit url t s) tasks db.
Proof.
  unfold gather, bind.
  revert tasks db. induction sched as [|i later IH]; intros tasks db Hnd.
  - cbn [run_schedule]. unfold ret. apply run_to_completion_fold.
  - cbn [run_schedule]. unfold bind.
    destruct (step_nth_then_complete url i tasks db Hnd)
      as [tasks1 [db1 [Hstep [Hids Hfold]]]].
    rewrite Hstep, <- Hfold. apply IH. rewrite Hids. exact Hnd.
Qed.

Lemma wait_for_tasks_fold (url : string) (sched : list nat) (tasks : list UnitTask)
    (db : Database) :
  NoDup (map unit_id tasks) ->
  wait_for_tasks url sched tasks db
  = (Returned tt, fold_left (fun s t => finish_unit url t s) tasks db).
Proof.
  intros Hnd.
  pose proof (wait_for_tasks_returns url sched tasks db) as Hret.
  pose proof (gather_fold url sched tasks db Hnd) as Hg.
  unfold wait_for_tasks, try_except, bind in *.
  destruct (gather url sched tasks db) as [[r|e] s]; cbn [snd] in Hg.
  - unfold ret. rewrite Hg. reflexivity.
  - cbn [dispatch Exception_] in *. unfold ret in *. rewrite Hg. reflexivity.
Qed.

(** X21: the interleaving of the units does not matter.  On a store with
    unique ScanResult keys, two background executions of a scan that differ
    in nothing but the order in which the event loop resumes the units
    return the same and leave the same store: each unit reads and writes its
    own row only. *)
Theorem interleaving_does_not_matter
    (id : nat) (url : string) (env env' : ScanEnv) (db : Database) :
  primary_keys_unique db ->
  fetch_raises env' = fetch_raises env ->
  (forall k, unit_envs env' k = unit_envs env k) ->
  scan_now env' = scan_now env ->
  run_all_tests_for_scan id url env' db = run_all_tests_for_scan id url env db.
Proof.
  intros Hpk Hfetch Hunits Hnow.
  destruct (fetch_raises env) as [msg|] eqn:E.
  - rewrite (run_all_fetch_raised db id url env msg E).
    rewrite (run_all_fetch_raised db id url env' msg Hfetch), Hnow. reflexivity.
  - destruct (scan_result_ids_of id db) as [|first_id other_ids] eqn:Hids.
    + rewrite (run_all_without_results db id url env E Hids).
      rewrite (run_all_without_results db id url env' Hfetch Hids), Hnow.
      reflexivity.
    + rewrite (run_all_ends_with_final_check db id url env first_id other_ids E Hids).
      rewrite (run_all_ends_with_final_check db id url env' first_id other_ids
                 Hfetch Hids), Hnow.
      assert (map (new_task env') (first_id :: other_ids)
              = map (new_task env) (first_id :: other_ids)) as ->.
      { apply map_ext. intros k. unfold new_task. rewrite Hunits. reflexivity. }
      assert (NoDup (map unit_id (map (new_task env) (first_id :: other_ids))))
        as Hnd.
      { rewrite map_map. cbn [new_task unit_id]. rewrite map_id, <- Hids.
        unfold scan_result_ids_of. apply nodup_map_filter. exact Hpk. }
      rewrite (wait_for_tasks_fold url (schedule env') _ db Hnd).
      rewrite (wait_for_tasks_fold url (schedule env) _ db Hnd).
      reflexivity.
Qed.

Lemma interleaving_does_not_matter_witness :
  run_all_tests_for_scan 1 "http://example.com/" interleaved_scan_env
    store_with_pending_scan
  = run_all_tests_for_scan 1 "http://example.com/"
      {| fetch_raises := fetch_raises interleaved_scan_env;
         unit_envs := unit_envs interleaved_scan_env;
         schedule := [];
         scan_now := scan_now interleaved_scan_env |}
      store_with_pending_scan.
Proof.
  apply (interleaving_does_not_matter 1 "http://example.com/"
           {| fetch_raises := fetch_raises interleaved_scan_env;
              unit_envs := unit_envs interleaved_scan_env;
              schedule := [];
              scan_now := scan_now interleaved_scan_env |}
           interleaved_scan_env store_with_pending_scan).
  - unfold primary_keys_unique. vm_compute.
    repeat (constructor; [cbn [In]; intros H; repeat (destruct H as [H|H];
              [discriminate H|]); exact H|]).
    constructor.
  - reflexivity.
  - intros k. reflexivity.
  - reflexivity.
Defined.

(** ** Each unit of a background execution on its own *)

Lemma finish_unit_other_view (url : string) (u : UnitTask) (k : nat) (db : Database) :
  k <> unit_id u -> same_view k (finish_unit url u db) db.
Proof.
  intros Hne. rewrite finish_unit_moves.
  eapply same_view_trans;
    apply apply_update_other_view; try exact Hne; apply unit_move_keeps_id.
Qed.

Lemma finish_unit_same_view (url : string) (u : UnitTask) (db1 db2 : Database) :
  same_view (unit_id u) db1 db2 ->
  same_view (unit_id u) (finish_unit url u db1) (finish_unit url u db2).
Proof.
  intros Hv. rewrite !finish_unit_moves.
  rewrite (unit_move_view url u db1 db2 Hv).
  assert (same_view (unit_id u)
            (apply_update (unit_id u) (snd (unit_move url u db2)) db1)
            (apply_update (unit_id u) (snd (unit_move url u db2)) db2)) as Hv1.
  { apply apply_update_same_view; [apply unit_move_keeps_id | exact Hv]. }
  rewrite (unit_move_view url (set_phase (fst (unit_move url u db2)) u) _ _ Hv1).
  apply apply_update_same_view; [apply unit_move_keeps_id | exact Hv1].
Qed.

Lemma fold_finish_other_view (url : string) (tasks : list UnitTask) (k : nat)
    (db : Database) :
  ~ In k (map unit_id tasks) ->
  same_view k (fold_left (fun s t => finish_unit url t s) tasks db) db.
Proof.
  revert db. induction tasks as [|t rest IH]; intros db Hk; [apply same_view_refl|].
  cbn [fold_left]. eapply same_view_trans.
  - apply IH. intros Hin. apply Hk. right. exact Hin.
  - apply finish_unit_other_view. intros E. apply Hk. left. symmetry. exact E.
Qed.

(** A unit started by the gather and run to its end does what
    [run_single_test] does. *)
Lemma finish_new_task (url : string) (env : ScanEnv) (k : nat) (db : Database) :
  finish_unit url (new_task env k) db = snd (run_single_test k url (unit_envs env k) db).
Proof.
  unfold finish_unit, run_single_test, bind, unit_step at 1.
  unfold new_task. cbn [unit_phase unit_id unit_env]. unfold bind.
  destruct (mark_in_progress k (unit_envs env k) db) as [[[name|]|e] db1];
    [| reflexivity | reflexivity].
  unfold ret, unit_step, set_phase. cbn [unit_phase unit_id unit_env]. unfold bind.
  destruct (execute_and_record k url name (unit_envs env k) db1) as [[[]|e] db2];
    reflexivity.
Qed.

Lemma final_check_keeps_results (id launched : nat) (now : Time) (db : Database) :
  scan_results (snd (final_check id launched now db)) = scan_results db.
Proof.
  rewrite final_check_run. cbn [snd].
  destruct (scan_by_id id db); reflexivity.
Qed.

(** The row of a unit after the gather is the row after [run_single_test]
    alone. *)
Lemma gathered_unit_row (url : string) (env : ScanEnv) (ids : list nat) (k : nat)
    (db : Database) :
  NoDup ids -> In k ids ->
  scan_result_by_id k
    (snd (wait_for_tasks url (schedule env) (map (new_task env) ids) db))
  = scan_result_by_id k (snd (run_single_test k url (unit_envs env k) db)).
Proof.
  intros Hnd Hin.
  rewrite wait_for_tasks_fold;
    [|rewrite map_map; cbn [new_task unit_id]; rewrite map_id; exact Hnd].
  cbn [snd].
  destruct (in_split k _ Hin) as [l1 [l2 Hsplit]]. rewrite Hsplit in *.
  pose proof (NoDup_remove_2 _ _ _ Hnd) as Hfresh.
  rewrite map_app. cbn [map]. rewrite fold_left_app. cbn [fold_left].
  rewrite <- finish_new_task.
  assert (~ In k (map unit_id (map (new_task env) l1)) /\
          ~ In k (map unit_id (map (new_task env) l2))) as [Hpre Hpost].
  { rewrite !map_map. cbn [new_task unit_id]. rewrite !map_id.
    split; intros H; apply Hfresh; apply in_or_app; [left | right]; exact H. }
  eapply (same_view_trans k).
  - apply fold_finish_other_view. exact Hpost.
  - apply (finish_unit_same_view url (new_task env k)).
    apply fold_finish_other_view. exact Hpre.
Qed.

(** X22: in a background execution each unit does to its row what it would
    do alone.  On a store with unique ScanResult keys, when the fetch of the
    ids does not raise, the row of every launched unit ends as
    [run_single_test] on the store at the start leaves it, whatever the other
    units do and in whatever order the event loop resumes them. *)
Theorem gathered_unit_runs_alone
    (id : nat) (url : string) (env : ScanEnv) (db : Database) (k : nat) :
  primary_keys_unique db ->
  fetch_raises env = None ->
  In k (scan_result_ids_of id db) ->
  scan_result_by_id k (snd (run_all_tests_for_scan id url env db))
  = scan_result_by_id k (snd (run_single_test k url (unit_envs env k) db)).
Proof.
  intros Hpk Hfetch Hin.
  destruct (scan_result_ids_of id db) as [|first_id other_ids] eqn:Hids;
    [destruct Hin|].
  rewrite (run_all_ends_with_final_check db id url env first_id other_ids Hfetch Hids).
  cbn [snd]. unfold scan_result_by_id at 1. rewrite final_check_keeps_results.
  apply (gathered_unit_row url env (first_id :: other_ids) k db); [|exact Hin].
  rewrite <- Hids. unfold scan_result_ids_of. apply nodup_map_filter. exact Hpk.
Qed.

Lemma gathered_unit_runs_alone_witness :
  scan_result_by_id 9
    (snd (run_all_tests_for_scan 1 "http://example.com/" interleaved_scan_env
            store_with_pending_scan))
  = scan_result_by_id 9
      (snd (run_single_test 9 "http://example.com/"
              (unit_envs interleaved_scan_env 9) store_with_pending_scan)).
Proof.
  apply (gathered_unit_runs_alone 1 "http://example.com/" interleaved_scan_env
           store_with_pending_scan 9).
  - unfold primary_keys_unique. vm_compute.
    repeat (constructor; [cbn [In]; intros H; repeat (destruct H as [H|H];
              [discriminate H|]); exact H|]).
    constructor.
  - reflexivity.
  - vm_compute. tauto.
Defined.

(** ** The status of a scan in the running service *)

Lemma scan_local_unchanged (b : BackgroundTask) (db : Database) :
  scan_pending db b ->
  bg_scan_id b = bg_scan_id b /\
  scan_pending db b /\
  (forall id, id <> bg_scan_id b -> scan_by_id id db = scan_by_id id db) /\
  scan_move (scan_status_of (bg_scan_id b) db) (scan_status_of (bg_scan_id b) db).
Proof.
  intros H. split; [reflexivity|]. split; [exact H|].
  split; [reflexivity | apply scan_move_none].
Qed.

(** The write that ends a background task. *)
Lemma scan_local_settled (b : BackgroundTask) (db : Database)
    (st : TestStatusEnum) (now : Time) :
  st = COMPLETED \/ st = ERROR ->
  bg_state b <> Done ->
  scan_pending db b ->
  bg_scan_id (set_state Done b) = bg_scan_id b /\
  scan_pending
    match scan_by_id (bg_scan_id b) db with
    | Some _ => update_scan (bg_scan_id b) (set_scan_outcome st now) db
    | None => db
    end (set_state Done b) /\
  (forall id, id <> bg_scan_id b ->
     scan_by_id id
       match scan_by_id (bg_scan_id b) db with
       | Some _ => update_scan (bg_scan_id b) (set_scan_outcome st now) db
       | None => db
       end = scan_by_id id db) /\
  scan_move (scan_status_of (bg_scan_id b) db)
    (scan_status_of (bg_scan_id b)
       match scan_by_id (bg_scan_id b) db with
       | Some _ => update_scan (bg_scan_id b) (set_scan_outcome st now) db
       | None => db
       end).
Proof.
  intros Hst Hlive Hpending. specialize (Hpending Hlive).
  unfold scan_status_of in *.
  destruct (scan_by_id (bg_scan_id b) db) as [s|] eqn:Hs; [|discriminate Hpending].
  split; [reflexivity|]. split; [intros H; exfalso; apply H; reflexivity|].
  split.
  - intros id Hne. unfold scan_by_id, update_scan, first_where. simpl.
    apply (find_update_first_other _ scan_id); [reflexivity | congruence].
  - rewrite scan_by_id_update_scan, Hs. cbn [option_map] in *.
    inversion Hpending as [Hp]. rewrite Hp. cbn [set_scan_outcome scan_status].
    destruct Hst as [-> | ->]; constructor.
Qed.

Lemma start_background_scan_local (env : ScanEnv) :
  scan_local (fun b => start_background b env).
Proof.
  intros b db b' db' Hstep Hpending. unfold start_background in Hstep.
  destruct (bg_state b) as [|tasks|] eqn:Hstate;
    try (inversion Hstep; subst b' db'; apply scan_local_unchanged; exact Hpending).
  assert (bg_state b <> Done) as Hlive by (rewrite Hstate; discriminate).
  destruct (fetch_raises env) as [failure|] eqn:Hfetch.
  - destruct (fault_cases (mark_error_fault failure)) as [Hmark|Hmark].
    + rewrite (fetch_scan_result_ids_marked _ env db failure Hfetch Hmark) in Hstep.
      inversion Hstep; subst b' db'; clear Hstep.
      rewrite mark_scan_error_run. cbn [snd].
      apply scan_local_settled; auto.
    + destruct (fetch_scan_result_ids_refused (bg_scan_id b) env db failure
                  Hfetch Hmark) as [msg Hraised].
      rewrite Hraised in Hstep. inversion Hstep; subst b' db'; clear Hstep.
      split; [reflexivity|].
      split; [intros H; exfalso; apply H; reflexivity|].
      split; [reflexivity | apply scan_move_none].
  - rewrite (fetch_scan_result_ids_ok _ env db Hfetch) in Hstep.
    destruct (scan_result_ids_of (bg_scan_id b) db) as [|first_id ids].
    + inversion Hstep; subst b' db'; clear Hstep.
      rewrite mark_scan_without_tests_run. cbn [snd].
      pose proof (scan_local_settled b db COMPLETED (scan_now env)
                    (or_introl eq_refl) Hlive Hpending) as H.
      specialize (Hpending Hlive). unfold scan_status_of in Hpending.
      destruct (scan_by_id (bg_scan_id b) db) as [s|]; [|discriminate Hpending].
      inversion Hpending as [Hp]. rewrite Hp. exact H.
    + inversion Hstep; subst b' db'; clear Hstep.
      split; [reflexivity|].
      split; [intros _; apply Hpending; exact Hlive|].
      split; [reflexivity | apply scan_move_none].
Qed.

Lemma resume_background_scan_local (i : nat) :
  scan_local (fun b => resume_background b i).
Proof.
  intros b db b' db' Hstep Hpending. unfold resume_background in Hstep.
  destruct (bg_state b) as [|tasks|] eqn:Hstate;
    try (inversion Hstep; subst b' db'; apply scan_local_unchanged; exact Hpending).
  assert (bg_state b <> Done) as Hlive by (rewrite Hstate; discriminate).
  pose proof (step_nth_frame (bg_url b) i tasks db) as [Hscans _].
  assert (bg_scan_id b' = bg_scan_id b /\ scans db' = scans db) as [Hid Hsame].
  { destruct (step_nth (bg_url b) i tasks db) as [[tasks'|e] db1];
      inversion Hstep; subst b' db'; split; auto. }
  unfold scan_pending, scan_status_of, scan_by_id. rewrite Hsame, Hid.
  split; [reflexivity|].
  split; [intros _; apply Hpending; exact Hlive|].
  split; [reflexivity | apply scan_move_none].
Qed.

Lemma join_background_scan_local (now : Time) :
  scan_local (fun b => join_background b now).
Proof.
  intros b db b' db' Hstep Hpending. unfold join_background in Hstep.
  destruct (bg_state b) as [|tasks|] eqn:Hstate;
    try (inversion Hstep; subst b' db'; apply scan_local_unchanged; exact Hpending).
  assert (bg_state b <> Done) as Hlive by (rewrite Hstate; discriminate).
  destruct (forallb is_finished tasks).
  - inversion Hstep; subst b' db'; clear Hstep.
    rewrite final_check_run. cbn [snd].
    apply scan_local_settled; auto.
    rewrite overall_status_closed_form. destruct (_ && _); auto.
  - inversion Hstep; subst b' db'. apply scan_local_unchanged. exact Hpending.
Qed.

(** A move of one background task keeps what the store owes the tasks, and
    moves the status of every scan along its path. *)
Lemma task_event_scans (k : nat)
    (f : BackgroundTask -> Database -> BackgroundTask * Database)
    (db db' : Database) (bs bs' : list BackgroundTask) :
  scan_local f ->
  NoDup (map bg_scan_id bs) ->
  scans_pending {| store := db; background := bs |} ->
  on_nth k f bs db = (bs', db') ->
  scans_pending {| store := db'; background := bs' |} /\
  (forall id, scan_move (scan_status_of id db) (scan_status_of id db')).
Proof.
  intros Hlocal Hdistinct Hpending Hstep. unfold scans_pending in *.
  cbn [store background] in *.
  destruct (on_nth_shape k f bs db)
    as [H|[pre [b [post [b' [db1 [Hsplit [Hf H]]]]]]]];
    rewrite H in Hstep; inversion Hstep; subst bs' db'; clear Hstep H.
  - split; [exact Hpending | intros; apply scan_move_none].
  - assert (In b bs) as Hb by (subst bs; apply in_elt).
    destruct (Hlocal b db b' db1 Hf (Hpending b Hb)) as [Hid [Hown [Hframe Hmove]]].
    subst bs. split.
    + intros c Hc. apply in_app_or in Hc.
      assert (In c (pre ++ post) -> scan_pending db1 c) as Hrest.
      { intros Hin Hlive. unfold scan_status_of. rewrite Hframe.
        - apply Hpending; [|exact Hlive]. apply in_app_or in Hin. apply in_or_app.
          destruct Hin; [left | right; right]; assumption.
        - rewrite map_app in Hdistinct. cbn [map] in Hdistinct.
          apply (nodup_middle _ _ _ _ Hdistinct). rewrite <- map_app.
          apply in_map. exact Hin. }
      destruct Hc as [Hc|[<-|Hc]]; [| exact Hown |];
        apply Hrest; apply in_or_app; [left | right]; exact Hc.
    + intros id. destruct (Nat.eq_dec id (bg_scan_id b)) as [->|Hne];
        [exact Hmove|].
      unfold scan_status_of. rewrite (Hframe id Hne). apply scan_move_none.
Qed.

Lemma post_scans_scans (url : string) (env : RequestEnv) (st : Service) :
  scans_pending st ->
  scans_pending (service_step (PostScans url env) st) /\
  (forall id, scan_move (scan_status_of id (store st))
                (scan_status_of id (store (service_step (PostScans url env) st)))).
Proof.
  intros Hpending. cbn [service_step].
  destruct (start_scan url env (store st)) as [[[resp [sid u]]|e] db'] eqn:Hrun.
  - apply start_scan_returned in Hrun.
    destruct (create_scan_returned _ _ _ _ _ Hrun)
      as (new_scan & rows & final & Htask & Hid & Hst & _ & Hscans & _).
    cbn [snd] in Htask. inversion Htask; subst sid u; clear Htask.
    pose proof (created_scan_found new_scan (scans (store st)) db' Hid Hscans)
      as Hnew.
    assert (forall id s, scan_by_id id (store st) = Some s ->
                         scan_by_id id db' = Some s) as Hold.
    { intros id s Hs. unfold scan_by_id, first_where in *. rewrite Hscans.
      apply find_app_some. exact Hs. }
    split.
    + intros c Hc. cbn [store background] in *. apply in_app_or in Hc.
      destruct Hc as [Hc|[<-|[]]].
      * intros Hlive. specialize (Hpending c Hc Hlive).
        unfold scan_status_of in *.
        destruct (scan_by_id (bg_scan_id c) (store st)) as [s|] eqn:Hs;
          [|discriminate Hpending].
        rewrite (Hold _ _ Hs). exact Hpending.
      * intros _. unfold scan_status_of. cbn [bg_scan_id]. rewrite Hnew.
        cbn [option_map]. rewrite Hst. reflexivity.
    + intros id. cbn [store]. unfold scan_status_of.
      destruct (scan_by_id id (store st)) as [s|] eqn:Hs.
      * rewrite (Hold _ _ Hs). apply scan_move_none.
      * destruct (Nat.eq_dec id (scan_id new_scan)) as [->|Hne].
        -- rewrite Hnew. cbn [option_map]. rewrite Hst. apply scan_move_created.
        -- assert (scan_by_id id db' = None) as ->; [|apply scan_move_none].
           unfold scan_by_id, first_where in *. rewrite Hscans.
           rewrite (find_app_none _ _ _ _ Hs). simpl.
           destruct (Nat.eqb_spec (scan_id new_scan) id); [congruence | reflexivity].
  - apply start_scan_raised in Hrun. subst db'. split.
    + exact Hpending.
    + intros. apply scan_move_none.
Qed.

Lemma service_step_scans (ev : Event) (st : Service) :
  service_invariant st -> scans_pending st ->
  scans_pending (service_step ev st) /\
  (forall id, scan_move (scan_status_of id (store st))
                (scan_status_of id (store (service_step ev st)))).
Proof.
  intros Hinv Hpending. pose proof (inv_distinct_scans Hinv) as Hdistinct.
  destruct ev as [url env|k env|k i|k now].
  - apply post_scans_scans. exact Hpending.
  - cbn [service_step].
    destruct (on_nth k (fun b => start_background b env) (background st) (store st))
      as [bs db'] eqn:E.
    destruct st as [db bs0]. cbn [store background] in *.
    apply (task_event_scans k _ db db' bs0 bs (start_background_scan_local env)
             Hdistinct Hpending E).
  - cbn [service_step].
    destruct (on_nth k (fun b => resume_background b i) (background st) (store st))
      as [bs db'] eqn:E.
    destruct st as [db bs0]. cbn [store background] in *.
    apply (task_event_scans k _ db db' bs0 bs (resume_background_scan_local i)
             Hdistinct Hpending E).
  - cbn [service_step].
    destruct (on_nth k (fun b => join_background b now) (background st) (store st))
      as [bs db'] eqn:E.
    destruct st as [db bs0]. cbn [store background] in *.
    apply (task_event_scans k _ db db' bs0 bs (join_background_scan_local now)
             Hdistinct Hpending E).
Qed.

(** In every state the service reaches, the scan of a background task that
    has not ended is PENDING. *)
Lemma reachable_scans_pending (st : Service) : reachable st -> scans_pending st.
Proof.
  induction 1 as [db Hpk Hfk|st ev Hreach IH].
  - intros b [].
  - apply (service_step_scans ev st (reachable_invariant st Hreach) IH).
Qed.

(** X23: the status of a Scan moves one way.  In every state the service
    reaches, whatever it does next (a request, the start of a background
    task, a move of a unit, a final check) leaves the status of each Scan as
    it is, or creates the row PENDING, or moves it from PENDING to COMPLETED
    or to ERROR: a scan is settled once, by its own background task, and
    never returns to PENDING; IN_PROGRESS and FAILED are never assigned. *)
Theorem scan_status_monotonic (st : Service) (ev : Event) (id : nat) :
  reachable st ->
  scan_move (scan_status_of id (store st))
            (scan_status_of id (store (service_step ev st))).
Proof.
  intros Hreach.
  apply (service_step_scans ev st (reachable_invariant st Hreach)
           (reachable_scans_pending st Hreach)).
Qed.

Lemma scan_status_monotonic_witness :
  scan_move
    (scan_status_of 1 (store (initial_service seeded_store)))
    (scan_status_of 1
       (store (service_step (PostScans "http://example.com/" quiet_request_env)
                 (initial_service seeded_store)))).
Proof.
  apply (scan_status_monotonic (initial_service seeded_store)
           (PostScans "http://example.com/" quiet_request_env) 1).
  exact seeded_store_reachable.
Defined.

(** ** The gather never sees an exception *)

(** X24: no exception leaves a unit, so none leaves the gather: whatever
    the probes and the store do to the units and in whatever order the event
    loop resumes them, [run_single_test] returns, and
    [asyncio.gather] over the tasks returns with every unit finished.  The
    [except] around the gather in [run_all_tests_for_scan] cannot fire. *)
Theorem gather_never_raises
    (url : string) (sched : list nat) (tasks : list UnitTask) (db : Database) :
  (forall id env, fst (run_single_test id url env db) = Returned tt) /\
  exists tasks' db',
    gather url sched tasks db = (Returned tasks', db') /\
    forallb is_finished tasks' = true /\
    List.length tasks' = List.length tasks.
Proof.
  split; [intros id env; apply run_single_test_returns|].
  unfold gather, bind.
  destruct (run_schedule_events url 0 sched tasks db) as [tasks1 [Hrun [Hlen1 _]]].
  destruct (run_schedule url sched tasks db) as [[t1|e] db1];
    [|discriminate Hrun].
  inversion Hrun; subst t1. cbn [snd] in *.
  destruct (run_to_completion_events url 0 tasks1 [] db1)
    as [evs [tasks2 [Hrun2 [Hfin [Hlen2 _]]]]].
  exists tasks2, (snd (run_to_completion url tasks1 db1)).
  split; [exact Hrun2|]. split; [exact Hfin | congruence].
Qed.

(** ** The members of the two enumerations *)

(** X25: the members of [TestStatusEnum] and of [TestResultEnum] have
    different values, so that none of them is an alias of another and a
    status or an outcome can be read back from what callers are sent. *)
Theorem enum_values_distinct :
  (forall a b : TestStatusEnum, status_value a = status_value b -> a = b) /\
  (forall a b : TestResultEnum, result_value a = result_value b -> a = b).
Proof.
  split; intros a b; destruct a, b; simpl; intros H;
    try reflexivity; discriminate H.
Qed.

(** ** A background execution on a store without faults *)

Lemma same_keys_in (rows rows' : list ScanResult) (r' : ScanResult) :
  map result_keys rows' = map result_keys rows ->
  In r' rows' -> exists r, In r rows /\ result_keys r = result_keys r'.
Proof.
  intros Hkeys Hin. apply (in_map result_keys) in Hin. rewrite Hkeys in Hin.
  apply in_map_iff in Hin. destruct Hin as [r [Hk Hr]]. eauto.
Qed.

Lemma same_keys_ids (rows rows' : list ScanResult) :
  map result_keys rows' = map result_keys rows -> map sr_id rows' = map sr_id rows.
Proof.
  intros H. apply (f_equal (map (fun k : nat * nat * nat => fst (fst k)))) in H.
  rewrite !map_map in H. exact H.
Qed.

(** The row a unit leaves on a store without faults. *)
Lemma run_single_test_row (id : nat) (url : string) (env : UnitEnv) (db : Database)
    (r : ScanResult) (t : TestDefinition) :
  scan_result_by_id id db = Some r ->
  test_definition_by_id (sr_test_definition_id r) db = Some t ->
  begin_fault env = NoFault ->
  finish_fault env = NoFault ->
  scan_result_by_id id (snd (run_single_test id url env db))
  = Some (set_final_results (probe_report (td_name t) url env) (completed_now env)
            (set_in_progress (started_now env) r)).
Proof.
  intros Hr Ht Hb Hf.
  pose proof (mark_in_progress_healthy id env db r t Hr Ht Hb) as Hm.
  destruct (run_single_test_marked db _ id url (td_name t) env Hm) as [Hrun _].
  rewrite Hrun, write_final_results_run, Hf.
  rewrite scan_result_by_id_update_same; [|reflexivity].
  rewrite Hr. cbn [option_map snd].
  rewrite !scan_result_by_id_update_same; [|reflexivity|reflexivity].
  rewrite Hr. reflexivity.
Qed.

(** X26: a background execution on a store without faults.  On a store
    with unique ScanResult keys, when the fetch does not raise and every
    result of the scan has its test definition and a unit whose two
    transactions the store accepts, every result of the scan ends as the
    row its own probe reported, with both times: COMPLETED or ERROR, never
    PENDING or IN_PROGRESS, whatever the order in which the units ran. *)
Theorem healthy_execution_results
    (id : nat) (url : string) (env : ScanEnv) (db : Database) :
  primary_keys_unique db ->
  fetch_raises env = None ->
  (forall r, In r (results_of id db) ->
     begin_fault (unit_envs env (sr_id r)) = NoFault /\
     finish_fault (unit_envs env (sr_id r)) = NoFault /\
     exists t, test_definition_by_id (sr_test_definition_id r) db = Some t) ->
  forall r', In r' (results_of id (snd (run_all_tests_for_scan id url env db))) ->
    (sr_status r' = COMPLETED \/ sr_status r' = ERROR) /\
    exists r t,
      In r (results_of id db) /\
      test_definition_by_id (sr_test_definition_id r) db = Some t /\
      r' = set_final_results
             (probe_report (td_name t) url (unit_envs env (sr_id r)))
             (completed_now (unit_envs env (sr_id r)))
             (set_in_progress (started_now (unit_envs env (sr_id r))) r).
Proof.
  intros Hpk Hfetch Hhealthy r' Hr'.
  destruct (scan_result_ids_of id db) as [|first_id other_ids] eqn:Hids.
  { exfalso. rewrite (run_all_without_results db id url env Hfetch Hids) in Hr'.
    rewrite mark_scan_without_tests_run in Hr'. cbn [snd] in Hr'.
    assert (results_of id db = []) as Hnone.
    { unfold scan_result_ids_of in Hids. apply map_eq_nil in Hids. exact Hids. }
    assert (In r' (results_of id db)) as Hin.
    { destruct (scan_by_id id db) as [s|]; [|exact Hr'].
      destruct (status_eqb (scan_status s) PENDING); exact Hr'. }
    rewrite Hnone in Hin. destruct Hin. }
  rewrite (run_all_ends_with_final_check db id url env first_id other_ids Hfetch Hids)
    in Hr'.
  cbn [snd] in Hr'. unfold results_of in Hr'.
  rewrite final_check_keeps_results in Hr'. rewrite <- Hids in *.
  assert (NoDup (scan_result_ids_of id db)) as Hnd.
  { unfold scan_result_ids_of. apply nodup_map_filter. exact Hpk. }
  destruct (wait_for_tasks_untouched id (scan_result_ids_of id db) url (schedule env)
              (map (new_task env) (scan_result_ids_of id db)) db)
    as [dbw [Hw (_ & _ & _ & Hkeys & _ & _)]].
  { rewrite Forall_map, Forall_forall. intros x Hx. exact Hx. }
  rewrite Hw in Hr'. cbn [snd] in Hr'.
  apply filter_In in Hr'. destruct Hr' as [Hin' Hscan']. apply Nat.eqb_eq in Hscan'.
  destruct (same_keys_in _ _ r' Hkeys Hin') as [r [Hin Hk]].
  unfold result_keys in Hk. inversion Hk as [[Hkid Hksid Hktd]].
  assert (In r (results_of id db)) as Hres.
  { unfold results_of. apply filter_In. split; [exact Hin|].
    apply Nat.eqb_eq. congruence. }
  assert (In (sr_id r) (scan_result_ids_of id db)) as Hlaunched.
  { unfold scan_result_ids_of. apply in_map. exact Hres. }
  destruct (Hhealthy r Hres) as [Hb [Hf [t Ht]]].
  assert (scan_result_by_id (sr_id r) db = Some r) as Hfound.
  { unfold scan_result_by_id, first_where. apply (find_unique_key _ sr_id); assumption. }
  assert (scan_result_by_id (sr_id r') dbw = Some r') as Hfound'.
  { unfold scan_result_by_id, first_where. apply (find_unique_key _ sr_id);
      [|exact Hin'].
    rewrite (same_keys_ids _ _ Hkeys). exact Hpk. }
  pose proof (gathered_unit_row url env (scan_result_ids_of id db) (sr_id r) db
                Hnd Hlaunched) as Hrow.
  rewrite Hw in Hrow. cbn [snd] in Hrow.
  rewrite <- Hkid, Hrow in Hfound'.
  rewrite (run_single_test_row (sr_id r) url (unit_envs env (sr_id r)) db r t
             Hfound Ht Hb Hf) in Hfound'.
  inversion Hfound' as [Hshape].
  split.
  - cbn [set_final_results sr_status]. apply test_logic_status.
  - exists r, t. split; [exact Hres|]. split; [exact Ht | reflexivity].
Qed.

Lemma healthy_execution_results_witness :
  (sr_status first_result_reported = COMPLETED \/
   sr_status first_result_reported = ERROR) /\
  exists r t,
    In r (results_of 1 store_with_pending_scan) /\
    test_definition_by_id (sr_test_definition_id r) store_with_pending_scan = Some t /\
    first_result_reported
    = set_final_results
        (probe_report (td_name t) "http://example.com/"
           (unit_envs quiet_scan_env (sr_id r)))
        (completed_now (unit_envs quiet_scan_env (sr_id r)))
        (set_in_progress (started_now (unit_envs quiet_scan_env (sr_id r))) r).
Proof.
  apply (healthy_execution_results 1 "http://example.com/" quiet_scan_env
           store_with_pending_scan).
  - unfold primary_keys_unique. vm_compute.
    repeat (constructor; [cbn [In]; intros H; repeat (destruct H as [H|H];
              [discriminate H|]); exact H|]).
    constructor.
  - reflexivity.
  - intros r Hr. split; [reflexivity|]. split; [reflexivity|].
    vm_compute in Hr.
    repeat (destruct Hr as [<-|Hr]; [eexists; vm_compute; reflexivity|]).
    destruct Hr.
  - vm_compute. left. reflexivity.
Defined.
